(** * Subjugate Online: world server core, shallow embedding and verification

    The Python sources embedded here are
      - [shared/constants.py], [shared/utils.py], [shared/game_data.py]
      - [server/game_server/world_manager.py]
      - [server/game_server/combat_system.py]
      - [server/game_server/territory_system.py]
      - [server/game_server/reincarnation_system.py]
      - [server/database/db_manager.py] (reincarnate_character)
      - [subjugate_online/shared/protocol.py] (Packet)
      - [server/game_server/reincarnation_system.py] (the preview) and
        [shared/utils.py] (experience and levels)
      - [subjugate_online/client/network_client.py] (send_packet and the
        receive loop)
      - [subjugate_online/shared/protocol.py] (strings, PacketBuilder,
        PacketParser)
      - [server/game_server/npc_ai.py]

    Numeric conventions.  Python [int] is [Z].  Python [float] is read as an
    exact number and embedded as [Q]; [int(x)] on a float truncates toward
    zero ([py_int]).  [math.sqrt(s) <= r] is embedded by the equivalent exact
    test [0 <= r /\ s <= r*r].  [time.time()] and [random.uniform] are
    explicit inputs of the functions that call them.  Where a square root
    is used as a value ([normalize_vector]), where strings are encoded and
    where floats are packed, the operation is a parameter of the
    development ([Sqrt], [Utf8], [Float32]), as [zlib] is.  *)

From stdpp Require Import gmap strings list fin_maps.
From Stdlib Require Import ZArith QArith Qround Qminmax Lqa Lia.
From Stdlib.Strings Require Import Byte.

Local Open Scope Z_scope.

(* ===================================================================== *)
(** * Part I: the embedding                                               *)
(* ===================================================================== *)

(** ** Python outcomes: a call either returns a value or raises. *)

Inductive exn : Type :=
| ZeroDivisionError
| StructError
| ValueError (msg : string)
| ZlibError.

Inductive outcome (A : Type) : Type :=
| Returned (a : A)
| Raised (e : exn).
Arguments Returned {A} a.
Arguments Raised {A} e.

Global Instance outcome_bind : MBind outcome := fun A B k m =>
  match m with
  | Returned a => k a
  | Raised e => Raised e
  end.

Global Instance outcome_ret : MRet outcome := fun A a => Returned a.

(* --------------------------------------------------------------------- *)
(** ** shared/constants.py *)
(* --------------------------------------------------------------------- *)

Module Constants.

Definition MAX_LEVEL : Z := 150.

Definition ATTACK_RANGE_MELEE : Q := 2.0.
Definition ATTACK_RANGE_RANGED : Q := 15.0.
Definition ATTACK_RANGE_MAGIC : Q := 20.0.
Definition ATTACK_COOLDOWN : Q := 1.5.

Inductive DamageType : Type := PHYSICAL | MAGICAL | TRUE.


(** class SuccessMetrics *)
Definition LEVEL_WEIGHT : Q := 0.3.
Definition KILLS_WEIGHT : Q := 0.2.
Definition TERRITORY_WEIGHT : Q := 0.25.
Definition BOSS_KILLS_WEIGHT : Q := 0.15.
Definition PLAYTIME_WEIGHT : Q := 0.1.


Definition TERRITORY_CAPTURE_TIME : Q := 60.
Definition MIN_PLAYERS_TO_CAPTURE : nat := 1.

Definition CHUNK_SIZE : Q := 50.0.

(** class SkillType (the ids that key SKILL_DATABASE) *)
Definition SLASH : Z := 0.
Definition THRUST : Z := 1.
Definition CLEAVE : Z := 2.
Definition POWER_SHOT : Z := 10.
Definition MULTI_SHOT : Z := 11.
Definition SNIPE : Z := 12.
Definition FIREBALL : Z := 20.
Definition ICE_LANCE : Z := 21.
Definition LIGHTNING_BOLT : Z := 22.
Definition HEAL : Z := 23.
Definition ULTIMATE_SLASH : Z := 30.
Definition ULTIMATE_ARROW : Z := 31.
Definition METEOR : Z := 32.

End Constants.

(* --------------------------------------------------------------------- *)
(** ** shared/utils.py *)
(* --------------------------------------------------------------------- *)

Module Utils.
Import Constants.

Definition Vec3 : Type := Q * Q * Q.
Definition px (p : Vec3) : Q := p.1.1.
Definition py (p : Vec3) : Q := p.1.2.
Definition pz (p : Vec3) : Q := p.2.

(** [int(x)] for a float [x]: truncation toward zero. *)
Definition py_int (x : Q) : Z := Z.quot (Qnum x) (Z.pos (Qden x)).

(** The radicand of [calculate_distance]. *)
Definition calculate_distance_sq (pos1 pos2 : Vec3) : Q :=
  let dx := (px pos1 - px pos2)%Q in
  let dy := (py pos1 - py pos2)%Q in
  let dz := (pz pos1 - pz pos2)%Q in
  (dx * dx + dy * dy + dz * dz)%Q.

(** [calculate_distance(pos1, pos2) <= r], with the square root read
    exactly: a non-negative root is at most [r] iff [r] is non-negative and
    the radicand is at most [r*r]. *)
Definition distance_le (pos1 pos2 : Vec3) (r : Q) : bool :=
  Qle_bool 0 r && Qle_bool (calculate_distance_sq pos1 pos2) (r * r).

(** [calculate_distance(pos1, pos2) > r]. *)
Definition distance_gt (pos1 pos2 : Vec3) (r : Q) : bool :=
  negb (distance_le pos1 pos2 r).

Definition clamp (value min_val max_val : Q) : Q :=
  Qmax min_val (Qmin max_val value).

Record AttackerStats : Type := { a_attack : Z; a_level : Z }.
Record DefenderStats : Type := { d_defense : Z; d_level : Z }.

(** [calculate_damage]; [variance] is the draw of
    [random.uniform(0.9, 1.1)]. *)
Definition calculate_damage (attacker_stats : AttackerStats)
    (defender_stats : DefenderStats) (skill_multiplier : Q)
    (damage_type : DamageType) (variance : Q) : outcome Z :=
  let base_damage := (inject_Z (a_attack attacker_stats) * skill_multiplier)%Q in
  match damage_type with
  | TRUE => Returned (py_int base_damage)
  | _ =>
    let defense := inject_Z (d_defense defender_stats) in
    if Qeq_bool (defense + 100) 0 then Raised ZeroDivisionError else
    let damage_reduction := (defense / (defense + 100))%Q in
    let final_damage := (base_damage * (1 - damage_reduction))%Q in
    let level_diff := a_level attacker_stats - d_level defender_stats in
    let level_modifier := (1.0 + inject_Z level_diff * 0.02)%Q in
    let level_modifier := clamp level_modifier 0.5 1.5 in
    let final_damage := (final_damage * level_modifier)%Q in
    let final_damage := (final_damage * variance)%Q in
    Returned (Z.max 1 (py_int final_damage))
  end.

(** [d.get(key, default)] on the integer-valued life-statistics dict. *)
Definition dict_get (d : gmap string Z) (key : string) (dflt : Z) : Z :=
  default dflt (d !! key).

Definition calculate_success_score (character_data : gmap string Z) : Q :=
  let level_score := (inject_Z (dict_get character_data "level" 1) / inject_Z MAX_LEVEL)%Q in
  let kills_score :=
    Qmin (inject_Z (dict_get character_data "total_kills" 0) / 1000) 1.0 in
  let territory_score :=
    Qmin (inject_Z (dict_get character_data "territory_control_time" 0) / 360000) 1.0 in
  let boss_kills_score :=
    Qmin (inject_Z (dict_get character_data "boss_kills" 0) / 50) 1.0 in
  let playtime_score :=
    Qmin (inject_Z (dict_get character_data "playtime" 0) / 720000) 1.0 in
  (level_score * LEVEL_WEIGHT +
   kills_score * KILLS_WEIGHT +
   territory_score * TERRITORY_WEIGHT +
   boss_kills_score * BOSS_KILLS_WEIGHT +
   playtime_score * PLAYTIME_WEIGHT)%Q.


Definition get_chunk_id (position : Vec3) (chunk_size : Q) : Z * Z :=
  let chunk_x := py_int (px position / chunk_size) in
  let chunk_z := py_int (pz position / chunk_size) in
  (chunk_x, chunk_z).

(** Python [range(lo, hi)]. *)
Definition range (lo hi : Z) : list Z := seqZ lo (hi - lo).

Definition get_surrounding_chunks (chunk_id : Z * Z) (radius : Z) : list (Z * Z) :=
  dx ← range (- radius) (radius + 1);
  dz ← range (- radius) (radius + 1);
  [(chunk_id.1 + dx, chunk_id.2 + dz)].

End Utils.

(* --------------------------------------------------------------------- *)
(** ** server/game_server/world_manager.py *)
(* --------------------------------------------------------------------- *)

Module World.
Import Constants Utils.

(** The character snapshot handed to [PlayerEntity.__init__]: a dict read
    only through [.get(key, default)]; an absent key is [None]. *)
Record CharacterData : Type := {
  cd_position_x : option Q;
  cd_position_y : option Q;
  cd_position_z : option Q;
  cd_level : option Z;
  cd_hp : option Z;
  cd_max_hp : option Z;
  cd_mp : option Z;
  cd_max_mp : option Z;
  cd_attack : option Z;
  cd_defense : option Z;
  cd_reincarnation_count : option Z
}.

(** [Entity] and [PlayerEntity] fields (name, speed, game mode, buffs and
    velocity carry no logic and are left out). *)
Record PlayerEntity : Type := {
  character_id : Z;
  position : Vec3;
  rotation : Q;
  chunk_id : Z * Z;
  level : Z;
  hp : Z;
  max_hp : Z;
  mp : Z;
  max_mp : Z;
  attack : Z;
  defense : Z;
  reincarnation_count : Z;
  is_dead : bool;
  last_attack_time : Q
}.

Definition PlayerEntity_init (cid : Z) (character_data : CharacterData) : PlayerEntity :=
  let pos : Vec3 :=
    (default 100.0%Q (cd_position_x character_data),
     default 0.0%Q (cd_position_y character_data),
     default 100.0%Q (cd_position_z character_data)) in
  {| character_id := cid;
     position := pos;
     rotation := 0.0;
     chunk_id := get_chunk_id pos CHUNK_SIZE;
     level := default 1 (cd_level character_data);
     hp := default 100 (cd_hp character_data);
     max_hp := default 100 (cd_max_hp character_data);
     mp := default 50 (cd_mp character_data);
     max_mp := default 50 (cd_max_mp character_data);
     attack := default 10 (cd_attack character_data);
     defense := default 10 (cd_defense character_data);
     reincarnation_count := default 0 (cd_reincarnation_count character_data);
     is_dead := false;
     last_attack_time := 0.0 |}.

Definition player_set_hp (p : PlayerEntity) (v : Z) : PlayerEntity :=
  {| character_id := character_id p; position := position p;
     rotation := rotation p; chunk_id := chunk_id p; level := level p;
     hp := v; max_hp := max_hp p; mp := mp p; max_mp := max_mp p;
     attack := attack p; defense := defense p;
     reincarnation_count := reincarnation_count p;
     is_dead := is_dead p; last_attack_time := last_attack_time p |}.

Definition player_set_mp (p : PlayerEntity) (v : Z) : PlayerEntity :=
  {| character_id := character_id p; position := position p;
     rotation := rotation p; chunk_id := chunk_id p; level := level p;
     hp := hp p; max_hp := max_hp p; mp := v; max_mp := max_mp p;
     attack := attack p; defense := defense p;
     reincarnation_count := reincarnation_count p;
     is_dead := is_dead p; last_attack_time := last_attack_time p |}.

Definition player_set_is_dead (p : PlayerEntity) (v : bool) : PlayerEntity :=
  {| character_id := character_id p; position := position p;
     rotation := rotation p; chunk_id := chunk_id p; level := level p;
     hp := hp p; max_hp := max_hp p; mp := mp p; max_mp := max_mp p;
     attack := attack p; defense := defense p;
     reincarnation_count := reincarnation_count p;
     is_dead := v; last_attack_time := last_attack_time p |}.

Definition player_set_last_attack_time (p : PlayerEntity) (v : Q) : PlayerEntity :=
  {| character_id := character_id p; position := position p;
     rotation := rotation p; chunk_id := chunk_id p; level := level p;
     hp := hp p; max_hp := max_hp p; mp := mp p; max_mp := max_mp p;
     attack := attack p; defense := defense p;
     reincarnation_count := reincarnation_count p;
     is_dead := is_dead p; last_attack_time := v |}.

(** [Entity.update_position] on a player. *)
Definition player_update_position (p : PlayerEntity) (x y z rot : Q) : PlayerEntity :=
  {| character_id := character_id p; position := (x, y, z);
     rotation := rot; chunk_id := get_chunk_id (x, y, z) CHUNK_SIZE;
     level := level p;
     hp := hp p; max_hp := max_hp p; mp := mp p; max_mp := max_mp p;
     attack := attack p; defense := defense p;
     reincarnation_count := reincarnation_count p;
     is_dead := is_dead p; last_attack_time := last_attack_time p |}.

(** [PlayerEntity.apply_damage]: the entity afterwards and the returned
    flag. *)
Definition player_apply_damage (p : PlayerEntity) (damage : Z) : PlayerEntity * bool :=
  let p1 := player_set_hp p (Z.max 0 (hp p - damage)) in
  if hp p1 =? 0 then (player_set_is_dead p1 true, true) else (p1, false).

Definition player_heal (p : PlayerEntity) (amount : Z) : PlayerEntity :=
  player_set_hp p (Z.min (max_hp p) (hp p + amount)).


Definition can_attack (p : PlayerEntity) (current_time cooldown : Q) : bool :=
  Qle_bool cooldown (current_time - last_attack_time p).

(** The NPC template dict handed to [NPCEntity.__init__]. *)
Record NpcData : Type := {
  nd_id : option Z;
  nd_level : option Z;
  nd_hp : option Z;
  nd_attack : option Z;
  nd_defense : option Z;
  nd_xp_reward : option Z;
  nd_aggro_range : option Q
}.

Inductive AiState : Type := Idle | Patrolling | Chasing | Attacking.

Record NPCEntity : Type := {
  instance_id : Z;
  npc_position : Vec3;
  npc_rotation : Q;
  npc_chunk_id : Z * Z;
  npc_id : Z;
  npc_level : Z;
  npc_hp : Z;
  npc_max_hp : Z;
  npc_attack : Z;
  npc_defense : Z;
  xp_reward : Z;
  aggro_range : Q;
  state : AiState;
  npc_target_id : option Z;
  spawn_position : Vec3;
  npc_last_attack_time : Q
}.

Definition NPCEntity_init (iid : Z) (npc_data : NpcData) (pos : Vec3) : NPCEntity :=
  {| instance_id := iid;
     npc_position := pos;
     npc_rotation := 0.0;
     npc_chunk_id := get_chunk_id pos CHUNK_SIZE;
     npc_id := default 0 (nd_id npc_data);
     npc_level := default 1 (nd_level npc_data);
     npc_hp := default 100 (nd_hp npc_data);
     npc_max_hp := default 100 (nd_hp npc_data);
     npc_attack := default 10 (nd_attack npc_data);
     npc_defense := default 5 (nd_defense npc_data);
     xp_reward := default 10 (nd_xp_reward npc_data);
     aggro_range := default 5.0%Q (nd_aggro_range npc_data);
     state := Idle;
     npc_target_id := None;
     spawn_position := pos;
     npc_last_attack_time := 0.0 |}.

Definition npc_set_hp (n : NPCEntity) (v : Z) : NPCEntity :=
  {| instance_id := instance_id n; npc_position := npc_position n;
     npc_rotation := npc_rotation n; npc_chunk_id := npc_chunk_id n;
     npc_id := npc_id n; npc_level := npc_level n; npc_hp := v;
     npc_max_hp := npc_max_hp n; npc_attack := npc_attack n;
     npc_defense := npc_defense n; xp_reward := xp_reward n;
     aggro_range := aggro_range n; state := state n;
     npc_target_id := npc_target_id n; spawn_position := spawn_position n;
     npc_last_attack_time := npc_last_attack_time n |}.

Definition npc_update_position (n : NPCEntity) (x y z rot : Q) : NPCEntity :=
  {| instance_id := instance_id n; npc_position := (x, y, z);
     npc_rotation := rot; npc_chunk_id := get_chunk_id (x, y, z) CHUNK_SIZE;
     npc_id := npc_id n; npc_level := npc_level n; npc_hp := npc_hp n;
     npc_max_hp := npc_max_hp n; npc_attack := npc_attack n;
     npc_defense := npc_defense n; xp_reward := xp_reward n;
     aggro_range := aggro_range n; state := state n;
     npc_target_id := npc_target_id n; spawn_position := spawn_position n;
     npc_last_attack_time := npc_last_attack_time n |}.

(** [NPCEntity.apply_damage]. *)
Definition npc_apply_damage (n : NPCEntity) (damage : Z) : NPCEntity * bool :=
  let n1 := npc_set_hp n (Z.max 0 (npc_hp n - damage)) in
  (n1, npc_hp n1 =? 0).

Record WorldManager : Type := {
  players : gmap Z PlayerEntity;
  npcs : gmap Z NPCEntity;
  player_chunks : gmap (Z * Z) (gset Z);
  npc_chunks : gmap (Z * Z) (gset Z);
  next_npc_instance_id : Z
}.

Definition WorldManager_init : WorldManager :=
  {| players := ∅; npcs := ∅; player_chunks := ∅; npc_chunks := ∅;
     next_npc_instance_id := 1 |}.

Definition _add_to_chunk (c : Z * Z) (entity_id : Z)
    (chunk_dict : gmap (Z * Z) (gset Z)) : gmap (Z * Z) (gset Z) :=
  let chunk_dict1 :=
    match chunk_dict !! c with
    | None => <[c := ∅]> chunk_dict
    | Some _ => chunk_dict
    end in
  <[c := default ∅ (chunk_dict1 !! c) ∪ {[entity_id]}]> chunk_dict1.

Definition _remove_from_chunk (c : Z * Z) (entity_id : Z)
    (chunk_dict : gmap (Z * Z) (gset Z)) : gmap (Z * Z) (gset Z) :=
  match chunk_dict !! c with
  | Some s =>
    let s1 := s ∖ {[entity_id]} in
    if decide (s1 = ∅) then delete c chunk_dict else <[c := s1]> chunk_dict
  | None => chunk_dict
  end.

Definition with_players (w : WorldManager) (ps : gmap Z PlayerEntity)
    (pc : gmap (Z * Z) (gset Z)) : WorldManager :=
  {| players := ps; npcs := npcs w; player_chunks := pc;
     npc_chunks := npc_chunks w;
     next_npc_instance_id := next_npc_instance_id w |}.

Definition with_npcs (w : WorldManager) (ns : gmap Z NPCEntity)
    (nc : gmap (Z * Z) (gset Z)) (next : Z) : WorldManager :=
  {| players := players w; npcs := ns; player_chunks := player_chunks w;
     npc_chunks := nc; next_npc_instance_id := next |}.

Definition add_player (w : WorldManager) (cid : Z) (character_data : CharacterData)
    : WorldManager * PlayerEntity :=
  let player := PlayerEntity_init cid character_data in
  (with_players w (<[cid := player]> (players w))
     (_add_to_chunk (chunk_id player) cid (player_chunks w)),
   player).

Definition remove_player (w : WorldManager) (cid : Z) : WorldManager :=
  match players w !! cid with
  | Some player =>
    with_players w (delete cid (players w))
      (_remove_from_chunk (chunk_id player) cid (player_chunks w))
  | None => w
  end.

Definition get_player (w : WorldManager) (cid : Z) : option PlayerEntity :=
  players w !! cid.

Definition update_player_position (w : WorldManager) (cid : Z) (x y z rot : Q)
    : WorldManager :=
  match players w !! cid with
  | Some player =>
    let old_chunk := chunk_id player in
    let player1 := player_update_position player x y z rot in
    let pc :=
      if decide (chunk_id player1 ≠ old_chunk)
      then _add_to_chunk (chunk_id player1) cid
             (_remove_from_chunk old_chunk cid (player_chunks w))
      else player_chunks w in
    with_players w (<[cid := player1]> (players w)) pc
  | None => w
  end.

Definition get_nearby_players (w : WorldManager) (pos : Vec3) (radius : Q)
    : list PlayerEntity :=
  let c := get_chunk_id pos CHUNK_SIZE in
  let search_radius := py_int (radius / CHUNK_SIZE) + 1 in
  let nearby_chunks := get_surrounding_chunks c search_radius in
  chunk ← nearby_chunks;
  player_id ← elements (default (∅ : gset Z) (player_chunks w !! chunk));
  match players w !! player_id with
  | Some player =>
    if distance_le pos (position player) radius then [player] else []
  | None => []
  end.


Definition spawn_npc (w : WorldManager) (npc_data : NpcData) (pos : Vec3)
    : WorldManager * NPCEntity :=
  let iid := next_npc_instance_id w in
  let npc := NPCEntity_init iid npc_data pos in
  (with_npcs w (<[iid := npc]> (npcs w))
     (_add_to_chunk (npc_chunk_id npc) iid (npc_chunks w)) (iid + 1),
   npc).

Definition remove_npc (w : WorldManager) (iid : Z) : WorldManager :=
  match npcs w !! iid with
  | Some npc =>
    with_npcs w (delete iid (npcs w))
      (_remove_from_chunk (npc_chunk_id npc) iid (npc_chunks w))
      (next_npc_instance_id w)
  | None => w
  end.

Definition get_npc (w : WorldManager) (iid : Z) : option NPCEntity :=
  npcs w !! iid.

Definition update_npc_position (w : WorldManager) (iid : Z) (x y z rot : Q)
    : WorldManager :=
  match npcs w !! iid with
  | Some npc =>
    let old_chunk := npc_chunk_id npc in
    let npc1 := npc_update_position npc x y z rot in
    let nc :=
      if decide (npc_chunk_id npc1 ≠ old_chunk)
      then _add_to_chunk (npc_chunk_id npc1) iid
             (_remove_from_chunk old_chunk iid (npc_chunks w))
      else npc_chunks w in
    with_npcs w (<[iid := npc1]> (npcs w)) nc (next_npc_instance_id w)
  | None => w
  end.

Definition get_nearby_npcs (w : WorldManager) (pos : Vec3) (radius : Q)
    : list NPCEntity :=
  let c := get_chunk_id pos CHUNK_SIZE in
  let search_radius := py_int (radius / CHUNK_SIZE) + 1 in
  let nearby_chunks := get_surrounding_chunks c search_radius in
  chunk ← nearby_chunks;
  npc_id ← elements (default (∅ : gset Z) (npc_chunks w !! chunk));
  match npcs w !! npc_id with
  | Some npc =>
    if distance_le pos (npc_position npc) radius then [npc] else []
  | None => []
  end.

Definition get_all_players (w : WorldManager) : list PlayerEntity :=
  (map_to_list (players w)).*2.

(** The operations of the registry, as a script. *)
Inductive world_op : Type :=
| AddPlayer (cid : Z) (character_data : CharacterData)
| RemovePlayer (cid : Z)
| UpdatePlayerPosition (cid : Z) (x y z rot : Q)
| SpawnNpc (npc_data : NpcData) (pos : Vec3)
| RemoveNpc (iid : Z)
| UpdateNpcPosition (iid : Z) (x y z rot : Q).

Definition apply_op (w : WorldManager) (op : world_op) : WorldManager :=
  match op with
  | AddPlayer cid cd => (add_player w cid cd).1
  | RemovePlayer cid => remove_player w cid
  | UpdatePlayerPosition cid x y z rot => update_player_position w cid x y z rot
  | SpawnNpc nd pos => (spawn_npc w nd pos).1
  | RemoveNpc iid => remove_npc w iid
  | UpdateNpcPosition iid x y z rot => update_npc_position w iid x y z rot
  end.

Definition run_ops (ops : list world_op) (w : WorldManager) : WorldManager :=
  foldl apply_op w ops.

End World.

(* --------------------------------------------------------------------- *)
(** ** shared/game_data.py: the skill table *)
(* --------------------------------------------------------------------- *)

Module GameData.
Import Constants.

(** One entry of SKILL_DATABASE; a key the entry does not carry is [None]
    (the code reads every key through [.get(key, default)]). *)
Record SkillData : Type := {
  damage_multiplier : option Q;
  heal_amount : option Z;
  mp_cost : option Z;
  cooldown : option Q;
  skill_range : option Q;
  damage_type : option DamageType;
  aoe_radius : option Q;
  required_level : option Z
}.

Definition damage_skill (mult : Q) (cost : Z) (cd rng : Q) (ty : DamageType)
    (aoe : option Q) (lvl : Z) : SkillData :=
  {| damage_multiplier := Some mult; heal_amount := None; mp_cost := Some cost;
     cooldown := Some cd; skill_range := Some rng; damage_type := Some ty;
     aoe_radius := aoe; required_level := Some lvl |}.

Definition SKILL_DATABASE : gmap Z SkillData :=
  list_to_map [
    (SLASH, damage_skill 1.5 10 3.0 ATTACK_RANGE_MELEE PHYSICAL None 1);
    (THRUST, damage_skill 2.0 15 4.0 (ATTACK_RANGE_MELEE * 1.5)%Q PHYSICAL None 10);
    (CLEAVE, damage_skill 1.8 25 6.0 ATTACK_RANGE_MELEE PHYSICAL (Some 3.0%Q) 20);
    (POWER_SHOT, damage_skill 2.2 12 3.5 ATTACK_RANGE_RANGED PHYSICAL None 1);
    (MULTI_SHOT, damage_skill 1.2 20 5.0 ATTACK_RANGE_RANGED PHYSICAL None 15);
    (SNIPE, damage_skill 3.0 30 8.0 (ATTACK_RANGE_RANGED * 2)%Q PHYSICAL None 30);
    (FIREBALL, damage_skill 2.5 20 4.0 ATTACK_RANGE_MAGIC MAGICAL None 1);
    (ICE_LANCE, damage_skill 2.0 18 4.5 ATTACK_RANGE_MAGIC MAGICAL None 8);
    (LIGHTNING_BOLT, damage_skill 2.8 25 5.0 (ATTACK_RANGE_MAGIC * 1.2)%Q MAGICAL None 18);
    (HEAL, {| damage_multiplier := None; heal_amount := Some 100;
              mp_cost := Some 30; cooldown := Some 10.0%Q;
              skill_range := Some ATTACK_RANGE_MAGIC; damage_type := None;
              aoe_radius := None; required_level := Some 12 |});
    (ULTIMATE_SLASH, damage_skill 5.0 50 30.0 ATTACK_RANGE_MELEE TRUE None 50);
    (ULTIMATE_ARROW, damage_skill 4.5 50 30.0 (ATTACK_RANGE_RANGED * 1.5)%Q TRUE None 50);
    (METEOR, damage_skill 6.0 60 40.0 ATTACK_RANGE_MAGIC MAGICAL (Some 10.0%Q) 60)
  ].

(** [get_skill_data]: [SKILL_DATABASE.get(skill_id, {})]; the empty dict,
    which the caller tests with [if not skill_data], is [None]. *)
Definition get_skill_data (skill_id : Z) : option SkillData :=
  SKILL_DATABASE !! skill_id.

End GameData.

(* --------------------------------------------------------------------- *)
(** ** server/game_server/combat_system.py *)
(* --------------------------------------------------------------------- *)

Module Combat.
Import Constants Utils World GameData.

Record CombatSystem : Type := {
  world : WorldManager;
  active_cooldowns : gmap Z (gmap Z Q)
}.

(** A looked-up target: the object behind [self.world.get_player] or
    [self.world.get_npc]. *)
Inductive Target : Type :=
| TPlayer (p : PlayerEntity)
| TNpc (n : NPCEntity).

Definition target_position (t : Target) : Vec3 :=
  match t with TPlayer p => position p | TNpc n => npc_position n end.
Definition target_defense (t : Target) : Z :=
  match t with TPlayer p => defense p | TNpc n => npc_defense n end.
Definition target_level (t : Target) : Z :=
  match t with TPlayer p => level p | TNpc n => npc_level n end.
Definition target_hp (t : Target) : Z :=
  match t with TPlayer p => hp p | TNpc n => npc_hp n end.

(** The [if target_type == 'player' ... elif 'npc' ... else return None]
    lookup; the outer [None] is the final [else]. *)
Definition lookup_target (w : WorldManager) (target_id : Z) (target_type : string)
    : option (option Target) :=
  if decide (target_type = "player") then Some (TPlayer <$> get_player w target_id)
  else if decide (target_type = "npc") then Some (TNpc <$> get_npc w target_id)
  else None.

(** [target.apply_damage(damage)]: the target object lives in the registry,
    so the mutation is written to the registry entry it was read from. *)
Definition target_apply_damage (w : WorldManager) (target_id : Z) (t : Target)
    (damage : Z) : WorldManager * Target * bool :=
  match t with
  | TPlayer p =>
    let '(p1, died) := player_apply_damage p damage in
    (with_players w (<[target_id := p1]> (players w)) (player_chunks w),
     TPlayer p1, died)
  | TNpc n =>
    let '(n1, died) := npc_apply_damage n damage in
    (with_npcs w (<[target_id := n1]> (npcs w)) (npc_chunks w)
       (next_npc_instance_id w),
     TNpc n1, died)
  end.

(** Write to one field of the player object registered under [cid]. *)
Definition modify_player (w : WorldManager) (cid : Z)
    (f : PlayerEntity → PlayerEntity) : WorldManager :=
  with_players w (alter f cid (players w)) (player_chunks w).

Definition modify_npc (w : WorldManager) (iid : Z)
    (f : NPCEntity → NPCEntity) : WorldManager :=
  with_npcs w (alter f iid (npcs w)) (npc_chunks w) (next_npc_instance_id w).

Record AttackResult : Type := {
  r_attacker_id : Z;
  r_target_id : Z;
  r_target_type : string;
  r_damage : Z;
  r_target_hp : Z;
  r_target_died : bool
}.

(** [basic_attack]; [current_time] is the value of [time.time()] and
    [variance] the draw inside [calculate_damage]. *)
Definition basic_attack (cs : CombatSystem) (attacker_id target_id : Z)
    (target_type : string) (current_time variance : Q)
    : CombatSystem * outcome (option AttackResult) :=
  match get_player (world cs) attacker_id with
  | None => (cs, Returned None)
  | Some attacker =>
    if is_dead attacker then (cs, Returned None) else
    if negb (can_attack attacker current_time ATTACK_COOLDOWN)
    then (cs, Returned None) else
    match lookup_target (world cs) target_id target_type with
    | None => (cs, Returned None)
    | Some None => (cs, Returned None)
    | Some (Some target) =>
      if distance_gt (position attacker) (target_position target) ATTACK_RANGE_MELEE
      then (cs, Returned None) else
      let attacker_stats := {| a_attack := attack attacker; a_level := level attacker |} in
      let target_stats :=
        {| d_defense := target_defense target; d_level := target_level target |} in
      match calculate_damage attacker_stats target_stats 1.0 PHYSICAL variance with
      | Raised e => (cs, Raised e)
      | Returned damage =>
        let '(w1, target1, target_died) :=
          target_apply_damage (world cs) target_id target damage in
        let w2 := modify_player w1 attacker_id
                    (λ a, player_set_last_attack_time a current_time) in
        ({| world := w2; active_cooldowns := active_cooldowns cs |},
         Returned (Some {| r_attacker_id := attacker_id;
                           r_target_id := target_id;
                           r_target_type := target_type;
                           r_damage := damage;
                           r_target_hp := target_hp target1;
                           r_target_died := target_died |}))
      end
    end
  end.

Definition _check_skill_cooldown (cs : CombatSystem) (cid skill_id : Z)
    (current_time : Q) : bool :=
  match active_cooldowns cs !! cid with
  | None => true
  | Some per_skill =>
    let cooldown_end := default 0%Q (per_skill !! skill_id) in
    Qle_bool cooldown_end current_time
  end.

Definition _set_skill_cooldown (cs : CombatSystem) (cid skill_id : Z)
    (current_time cd : Q) : CombatSystem :=
  let per_skill := default ∅ (active_cooldowns cs !! cid) in
  {| world := world cs;
     active_cooldowns :=
       <[cid := <[skill_id := (current_time + cd)%Q]> per_skill]> (active_cooldowns cs) |}.

(** One element of [targets_hit]: (id, damage, hp afterwards, died). *)
Definition Hit : Type := Z * Z * Z * bool.

Inductive SkillResult : Type :=
| HealResult (caster_id skill_id heal : Z) (caster_hp : Z)
| DamageResult (caster_id skill_id : Z) (targets_hit : list Hit) (caster_mp : Z).

(** The body of the AoE loop for one element of [nearby_npcs].  The list
    holds references to registry objects, so the NPC is read from and
    written back to the registry entry of its instance id. *)
Definition aoe_step (target_id damage : Z) (acc : WorldManager * list Hit)
    (npc_ref : NPCEntity) : WorldManager * list Hit :=
  let '(w, targets_hit) := acc in
  if decide (instance_id npc_ref ≠ target_id) then
    let npc := default npc_ref (npcs w !! instance_id npc_ref) in
    let aoe_damage := py_int (inject_Z damage * 0.7) in
    let '(npc1, died) := npc_apply_damage npc aoe_damage in
    (with_npcs w (<[instance_id npc_ref := npc1]> (npcs w)) (npc_chunks w)
       (next_npc_instance_id w),
     targets_hit ++ [(instance_id npc1, aoe_damage, npc_hp npc1, died)])
  else acc.

Definition use_skill (cs : CombatSystem) (caster_id skill_id : Z)
    (target_id : option Z) (target_type : string) (current_time variance : Q)
    : CombatSystem * outcome (option SkillResult) :=
  match get_player (world cs) caster_id with
  | None => (cs, Returned None)
  | Some caster =>
    if is_dead caster then (cs, Returned None) else
    match get_skill_data skill_id with
    | None => (cs, Returned None)
    | Some skill_data =>
      let cost := default 0 (mp_cost skill_data) in
      if mp caster <? cost then (cs, Returned None) else
      if negb (_check_skill_cooldown cs caster_id skill_id current_time)
      then (cs, Returned None) else
      let req := default 1 (required_level skill_data) in
      if level caster <? req then (cs, Returned None) else
      (* Consume MP *)
      let w1 := modify_player (world cs) caster_id (λ c, player_set_mp c (mp c - cost)) in
      (* Set cooldown *)
      let cs1 := _set_skill_cooldown {| world := w1; active_cooldowns := active_cooldowns cs |}
                   caster_id skill_id current_time (default 0%Q (cooldown skill_data)) in
      if decide (skill_id = HEAL) then
        let heal := default 100 (heal_amount skill_data) in
        let w2 := modify_player (world cs1) caster_id (λ c, player_heal c heal) in
        let caster_hp := default 0 (hp <$> players w2 !! caster_id) in
        ({| world := w2; active_cooldowns := active_cooldowns cs1 |},
         Returned (Some (HealResult caster_id skill_id heal caster_hp)))
      else
      match target_id with
      | None => (cs1, Returned None)
      | Some target_id =>
        match lookup_target (world cs1) target_id target_type with
        | None => (cs1, Returned None)
        | Some None => (cs1, Returned None)
        | Some (Some target) =>
          let rng := default ATTACK_RANGE_MELEE (skill_range skill_data) in
          if distance_gt (position caster) (target_position target) rng
          then (cs1, Returned None) else
          let mult := default 1.0%Q (damage_multiplier skill_data) in
          let dtype := default PHYSICAL (damage_type skill_data) in
          let caster_stats := {| a_attack := attack caster; a_level := level caster |} in
          let target_stats :=
            {| d_defense := target_defense target; d_level := target_level target |} in
          match calculate_damage caster_stats target_stats mult dtype variance with
          | Raised e => (cs1, Raised e)
          | Returned damage =>
            let '(w2, target1, target_died) :=
              target_apply_damage (world cs1) target_id target damage in
            let targets_hit := [(target_id, damage, target_hp target1, target_died)] in
            let aoe := default 0%Q (aoe_radius skill_data) in
            let '(w3, targets_hit) :=
              if negb (Qle_bool aoe 0) then
                foldl (aoe_step target_id damage) (w2, targets_hit)
                  (get_nearby_npcs w2 (target_position target1) aoe)
              else (w2, targets_hit) in
            let caster_mp := default 0 (mp <$> players w3 !! caster_id) in
            ({| world := w3; active_cooldowns := active_cooldowns cs1 |},
             Returned (Some (DamageResult caster_id skill_id targets_hit caster_mp)))
          end
        end
      end
    end
  end.

Definition handle_player_death (cs : CombatSystem) (cid : Z) : CombatSystem :=
  match get_player (world cs) cid with
  | None => cs
  | Some _ =>
    {| world := modify_player (world cs) cid
                  (λ p, player_set_hp (player_set_is_dead p true) 0);
       active_cooldowns := active_cooldowns cs |}
  end.

Definition respawn_player (cs : CombatSystem) (cid : Z) (spawn : Vec3)
    : CombatSystem * bool :=
  match get_player (world cs) cid with
  | None => (cs, false)
  | Some _ =>
    let w1 := modify_player (world cs) cid
      (λ p, let p1 := player_set_is_dead p false in
            let p2 := player_set_hp p1 (max_hp p1) in
            player_set_mp p2 (max_mp p2)) in
    let w2 := update_player_position w1 cid (px spawn) (py spawn) (pz spawn) 0.0 in
    ({| world := w2; active_cooldowns := active_cooldowns cs |}, true)
  end.

End Combat.

(* --------------------------------------------------------------------- *)
(** ** server/game_server/territory_system.py *)
(* --------------------------------------------------------------------- *)

Module Territory.
Import Constants Utils World.

Record TerritoryState : Type := {
  territory_id : Z;
  t_position : Vec3;
  radius : Q;
  capture_points_required : Z;
  controller_id : option Z;
  capture_points : Z;
  last_capture_time : Q;
  capturing_player_id : option Z;
  capture_start_time : Q
}.

(** [TerritoryState.__init__] on one entry of TERRITORY_DATABASE. *)
Definition TerritoryState_init (tid : Z) (pos : Vec3) (rad : Q) (req : Z)
    : TerritoryState :=
  {| territory_id := tid; t_position := pos; radius := rad;
     capture_points_required := req;
     controller_id := None; capture_points := 0; last_capture_time := 0.0;
     capturing_player_id := None; capture_start_time := 0.0 |}.

Definition is_being_captured (t : TerritoryState) : bool :=
  bool_decide (capturing_player_id t ≠ None).

Definition get_capture_progress (t : TerritoryState) (current_time : Q) : Q :=
  if negb (is_being_captured t) then 0.0%Q
  else
    let elapsed := (current_time - capture_start_time t)%Q in
    Qmin (elapsed / TERRITORY_CAPTURE_TIME) 1.0.

(** The calls made on the database manager. *)
Inductive DbCall : Type :=
| SetTerritoryControl (tid cid : Z)
| LogTerritoryCaptured (cid tid : Z) (previous_controller : option Z).

Definition _get_players_in_territory (all_players : list PlayerEntity)
    (t : TerritoryState) : list PlayerEntity :=
  filter (λ player, is_dead player = false ∧
                    distance_le (position player) (t_position t) (radius t) = true)
         all_players.

(** [_capture_territory]; [clock] is its own [time.time()] read. *)
Definition _capture_territory (t : TerritoryState) (cid : Z) (clock : Q)
    : TerritoryState * list DbCall :=
  ({| territory_id := territory_id t; t_position := t_position t;
      radius := radius t;
      capture_points_required := capture_points_required t;
      controller_id := Some cid;
      capture_points := capture_points_required t;
      last_capture_time := clock;
      capturing_player_id := None;
      capture_start_time := 0.0 |},
   [SetTerritoryControl (territory_id t) cid;
    LogTerritoryCaptured cid (territory_id t) (controller_id t)]).

Definition start_capture (t : TerritoryState) (cid : Z) (current_time : Q)
    : TerritoryState :=
  {| territory_id := territory_id t; t_position := t_position t;
     radius := radius t;
     capture_points_required := capture_points_required t;
     controller_id := controller_id t;
     capture_points := capture_points t;
     last_capture_time := last_capture_time t;
     capturing_player_id := Some cid;
     capture_start_time := current_time |}.

Definition reset_capture (t : TerritoryState) : TerritoryState :=
  {| territory_id := territory_id t; t_position := t_position t;
     radius := radius t;
     capture_points_required := capture_points_required t;
     controller_id := controller_id t;
     capture_points := capture_points t;
     last_capture_time := last_capture_time t;
     capturing_player_id := None;
     capture_start_time := 0.0 |}.

(** The body of [for player in players_in_territory]. *)
Definition player_step (current_time clock : Q)
    (acc : TerritoryState * list DbCall) (player : PlayerEntity)
    : TerritoryState * list DbCall :=
  let '(t, calls) := acc in
  if decide (Some (character_id player) = controller_id t) then acc
  else if negb (is_being_captured t) then
    (start_capture t (character_id player) current_time, calls)
  else if decide (capturing_player_id t = Some (character_id player)) then
    let progress := get_capture_progress t current_time in
    if Qle_bool 1.0 progress then
      let '(t1, cs) := _capture_territory t (character_id player) clock in
      (t1, calls ++ cs)
    else acc
  else acc.

(** The body of [for territory in self.territories.values()]:
    [all_players] is [self.world.get_all_players()], [current_time] the
    [time.time()] read at the top of [update]. *)
Definition update_territory (all_players : list PlayerEntity)
    (current_time clock : Q) (t : TerritoryState)
    : TerritoryState * list DbCall :=
  let players_in_territory := _get_players_in_territory all_players t in
  if decide (MIN_PLAYERS_TO_CAPTURE ≤ length players_in_territory)%nat then
    foldl (player_step current_time clock) (t, []) players_in_territory
  else if is_being_captured t then (reset_capture t, [])
  else (t, []).

Record TerritorySystem : Type := {
  territories : gmap Z TerritoryState;
  db_calls : list DbCall
}.

Definition update (sys : TerritorySystem) (w : WorldManager)
    (current_time clock : Q) : TerritorySystem :=
  let step := update_territory (get_all_players w) current_time clock in
  {| territories := (λ t, (step t).1) <$> territories sys;
     db_calls := db_calls sys ++
       mjoin ((λ kt, (step kt.2).2) <$> map_to_list (territories sys)) |}.

(** One scheduler tick as seen by a territory: the world's players and the
    two clock reads. *)
Record Tick : Type := {
  tick_players : list PlayerEntity;
  tick_time : Q;
  tick_clock : Q
}.

Definition tick_territory (t : TerritoryState) (k : Tick) : TerritoryState :=
  (update_territory (tick_players k) (tick_time k) (tick_clock k) t).1.

(** The territory after the ticks [ks], oldest first. *)
Definition run_ticks (t : TerritoryState) (ks : list Tick) : TerritoryState :=
  foldl tick_territory t ks.

(** The ids of the alive players inside the territory at a tick. *)
Definition present_ids (t : TerritoryState) (k : Tick) : list Z :=
  character_id <$> _get_players_in_territory (tick_players k) t.

End Territory.

(* --------------------------------------------------------------------- *)
(** ** server/game_server/reincarnation_system.py and
       DatabaseManager.reincarnate_character *)
(* --------------------------------------------------------------------- *)

Module Reincarnation.
Import Constants Utils.













End Reincarnation.

(* --------------------------------------------------------------------- *)
(** ** subjugate_online/shared/protocol.py *)
(* --------------------------------------------------------------------- *)

Module Protocol.

Definition bytes : Type := list byte.

(** class PacketType(enum.IntEnum) *)
Inductive PacketType : Type :=
| HANDSHAKE | LOGIN_REQUEST | LOGIN_RESPONSE | LOGOUT | REGISTER_REQUEST
| REGISTER_RESPONSE | PING | PONG | CHARACTER_LIST_REQUEST
| CHARACTER_LIST_RESPONSE | CHARACTER_CREATE | CHARACTER_DELETE
| CHARACTER_SELECT | CHARACTER_INFO | ENTER_WORLD | LEAVE_WORLD
| MOVE_REQUEST | MOVE_UPDATE | POSITION_SYNC | TELEPORT | ZONE_CHANGE
| ATTACK_REQUEST | ATTACK_RESPONSE | DAMAGE_DEALT | PLAYER_DIED
| PLAYER_KILLED | REINCARNATE | COMBAT_STATE | SKILL_USE | BUFF_APPLY
| BUFF_REMOVE | TERRITORY_INFO | TERRITORY_CLAIM | TERRITORY_DEFEND
| TERRITORY_BUFF | TERRITORY_UPDATE | GUILD_TERRITORY | INVENTORY_UPDATE
| ITEM_PICKUP | ITEM_DROP | ITEM_USE | EQUIPMENT_UPDATE | TRADE_REQUEST
| TRADE_UPDATE | CHAT_MESSAGE | WHISPER | GUILD_CHAT | WORLD_ANNOUNCEMENT
| PLAYER_LIST | LEVEL_UP | STAT_UPDATE | SKILL_LEARN | REINCARNATION_PERKS
| ACHIEVEMENT_UNLOCK | NPC_SPAWN | NPC_DESPAWN | OBJECT_SPAWN
| OBJECT_INTERACT | WEATHER_UPDATE | TIME_UPDATE | ADMIN_COMMAND
| SERVER_SHUTDOWN | KICK_PLAYER | BAN_PLAYER | ERROR_MESSAGE.

(** The integer value of an enum member. *)
Definition packet_type_value (t : PacketType) : Z :=
  match t with
  | HANDSHAKE => 0
  | LOGIN_REQUEST => 1
  | LOGIN_RESPONSE => 2
  | LOGOUT => 3
  | REGISTER_REQUEST => 4
  | REGISTER_RESPONSE => 5
  | PING => 6
  | PONG => 7
  | CHARACTER_LIST_REQUEST => 100
  | CHARACTER_LIST_RESPONSE => 101
  | CHARACTER_CREATE => 102
  | CHARACTER_DELETE => 103
  | CHARACTER_SELECT => 104
  | CHARACTER_INFO => 105
  | ENTER_WORLD => 200
  | LEAVE_WORLD => 201
  | MOVE_REQUEST => 202
  | MOVE_UPDATE => 203
  | POSITION_SYNC => 204
  | TELEPORT => 205
  | ZONE_CHANGE => 206
  | ATTACK_REQUEST => 300
  | ATTACK_RESPONSE => 301
  | DAMAGE_DEALT => 302
  | PLAYER_DIED => 303
  | PLAYER_KILLED => 304
  | REINCARNATE => 305
  | COMBAT_STATE => 306
  | SKILL_USE => 307
  | BUFF_APPLY => 308
  | BUFF_REMOVE => 309
  | TERRITORY_INFO => 400
  | TERRITORY_CLAIM => 401
  | TERRITORY_DEFEND => 402
  | TERRITORY_BUFF => 403
  | TERRITORY_UPDATE => 404
  | GUILD_TERRITORY => 405
  | INVENTORY_UPDATE => 500
  | ITEM_PICKUP => 501
  | ITEM_DROP => 502
  | ITEM_USE => 503
  | EQUIPMENT_UPDATE => 504
  | TRADE_REQUEST => 505
  | TRADE_UPDATE => 506
  | CHAT_MESSAGE => 600
  | WHISPER => 601
  | GUILD_CHAT => 602
  | WORLD_ANNOUNCEMENT => 603
  | PLAYER_LIST => 604
  | LEVEL_UP => 700
  | STAT_UPDATE => 701
  | SKILL_LEARN => 702
  | REINCARNATION_PERKS => 703
  | ACHIEVEMENT_UNLOCK => 704
  | NPC_SPAWN => 800
  | NPC_DESPAWN => 801
  | OBJECT_SPAWN => 802
  | OBJECT_INTERACT => 803
  | WEATHER_UPDATE => 804
  | TIME_UPDATE => 805
  | ADMIN_COMMAND => 900
  | SERVER_SHUTDOWN => 901
  | KICK_PLAYER => 902
  | BAN_PLAYER => 903
  | ERROR_MESSAGE => 999
  end.

(** All members, in declaration order. *)
Definition all_packet_types : list PacketType :=
  [HANDSHAKE; LOGIN_REQUEST; LOGIN_RESPONSE; LOGOUT;
   REGISTER_REQUEST; REGISTER_RESPONSE; PING; PONG;
   CHARACTER_LIST_REQUEST; CHARACTER_LIST_RESPONSE; CHARACTER_CREATE; CHARACTER_DELETE;
   CHARACTER_SELECT; CHARACTER_INFO; ENTER_WORLD; LEAVE_WORLD;
   MOVE_REQUEST; MOVE_UPDATE; POSITION_SYNC; TELEPORT;
   ZONE_CHANGE; ATTACK_REQUEST; ATTACK_RESPONSE; DAMAGE_DEALT;
   PLAYER_DIED; PLAYER_KILLED; REINCARNATE; COMBAT_STATE;
   SKILL_USE; BUFF_APPLY; BUFF_REMOVE; TERRITORY_INFO;
   TERRITORY_CLAIM; TERRITORY_DEFEND; TERRITORY_BUFF; TERRITORY_UPDATE;
   GUILD_TERRITORY; INVENTORY_UPDATE; ITEM_PICKUP; ITEM_DROP;
   ITEM_USE; EQUIPMENT_UPDATE; TRADE_REQUEST; TRADE_UPDATE;
   CHAT_MESSAGE; WHISPER; GUILD_CHAT; WORLD_ANNOUNCEMENT;
   PLAYER_LIST; LEVEL_UP; STAT_UPDATE; SKILL_LEARN;
   REINCARNATION_PERKS; ACHIEVEMENT_UNLOCK; NPC_SPAWN; NPC_DESPAWN;
   OBJECT_SPAWN; OBJECT_INTERACT; WEATHER_UPDATE; TIME_UPDATE;
   ADMIN_COMMAND; SERVER_SHUTDOWN; KICK_PLAYER; BAN_PLAYER;
   ERROR_MESSAGE].

(** [PacketType(v)]: the member with value [v]; [ValueError] when there is
    none. *)
Definition PacketType_of_value (v : Z) : outcome PacketType :=
  match find (λ t, bool_decide (packet_type_value t = v)) all_packet_types with
  | Some t => Returned t
  | None => Raised (ValueError "not a valid PacketType")
  end.

(** *** The [struct], [zlib] pieces the codec calls *)

Definition byte_of_Z (z : Z) : byte :=
  default x00 (Byte.of_N (Z.to_N (z mod 256))).
Definition Z_of_byte (b : byte) : Z := Z.of_N (Byte.to_N b).

(** Big-endian encoding of [v] on [n] bytes, and its inverse. *)
Fixpoint pack_be (n : nat) (v : Z) : bytes :=
  match n with
  | O => []
  | S n' => byte_of_Z (Z.shiftr v (8 * Z.of_nat n')) :: pack_be n' v
  end.

Definition unpack_be (bs : bytes) : Z :=
  foldl (λ acc b, acc * 256 + Z_of_byte b) 0 bs.

(** The format characters used by HEADER_FORMAT (after the ['!'] prefix:
    network byte order, standard sizes, no padding). *)
Inductive fmt_char : Type := fmt_H | fmt_I | fmt_B.

Definition fmt_size (c : fmt_char) : nat :=
  match c with fmt_H => 2 | fmt_I => 4 | fmt_B => 1 end%nat.

Definition calcsize (f : list fmt_char) : nat := sum_list (fmt_size <$> f).

(** [struct.pack]: [struct.error] on a value out of the field's range or
    on an argument count mismatch. *)
Fixpoint struct_pack (f : list fmt_char) (vs : list Z) : outcome bytes :=
  match f, vs with
  | [], [] => Returned []
  | c :: f', v :: vs' =>
    if bool_decide (0 ≤ v < 2 ^ (8 * Z.of_nat (fmt_size c))) then
      rest ← struct_pack f' vs';
      Returned (pack_be (fmt_size c) v ++ rest)
    else Raised StructError
  | _, _ => Raised StructError
  end.

Fixpoint unpack_fields (f : list fmt_char) (data : bytes) : list Z :=
  match f with
  | [] => []
  | c :: f' => unpack_be (take (fmt_size c) data) :: unpack_fields f' (drop (fmt_size c) data)
  end.

(** [struct.unpack]: the buffer must have exactly [calcsize] bytes. *)
Definition struct_unpack (f : list fmt_char) (data : bytes) : outcome (list Z) :=
  if bool_decide (length data = calcsize f) then Returned (unpack_fields f data)
  else Raised StructError.

(** The interface of [zlib] used by the codec. *)
Class Zlib : Type := {
  zlib_compress : bytes → bytes;
  zlib_decompress : bytes → option bytes
}.

(** zlib's [compressBound]. *)
Definition compressBound (n : Z) : Z :=
  n + n / 4096 + n / 16384 + n / 33554432 + 13.

(** What the codec relies on: inflate inverts deflate, and deflate output
    stays within [compressBound]. *)
Class ZlibSpec (Z : Zlib) : Prop := {
  zlib_decompress_compress : ∀ d, zlib_decompress (zlib_compress d) = Some d;
  zlib_compress_bound : ∀ d,
    Z.of_nat (length (zlib_compress d)) ≤ compressBound (Z.of_nat (length d))
}.

(** *** class Packet *)

Record Packet : Type := {
  packet_type : PacketType;
  payload : bytes;
  compressed : bool;
  encrypted : bool;
  sequence : Z
}.

(** [Packet(packet_type, payload)]: the dataclass defaults. *)
Definition Packet_new (t : PacketType) (data : bytes) : Packet :=
  {| packet_type := t; payload := data; compressed := false;
     encrypted := false; sequence := 0 |}.

(** '!HIHBB' *)
Definition HEADER_FORMAT : list fmt_char := [fmt_H; fmt_I; fmt_H; fmt_B; fmt_B].
Definition HEADER_SIZE : nat := calcsize HEADER_FORMAT.
Definition MAX_PAYLOAD_SIZE : Z := 65535.

Definition _calculate_checksum (data : bytes) : Z :=
  Z.land (foldr (λ b acc, Z_of_byte b + acc) 0 data) 255.

Definition set_compressed (p : Packet) (c : bool) : Packet :=
  {| packet_type := packet_type p; payload := payload p; compressed := c;
     encrypted := encrypted p; sequence := sequence p |}.

(** [serialize] sets [self.compressed] when it compresses: the packet
    afterwards is returned next to the outcome. *)
Definition serialize `{Zlib} (self : Packet) : Packet * outcome bytes :=
  let payload0 := payload self in
  let flags := 0 in
  let '(payload1, self1) :=
    if bool_decide (512 < length payload0)%nat && negb (compressed self)
    then (zlib_compress payload0, set_compressed self true)
    else (payload0, self) in
  let flags := if compressed self1 then Z.lor flags 1 else flags in
  let flags := if encrypted self1 then Z.lor flags 2 else flags in
  let checksum := _calculate_checksum payload1 in
  (self1,
   header ← struct_pack HEADER_FORMAT
     [packet_type_value (packet_type self1); Z.of_nat (length payload1);
      sequence self1; flags; checksum];
   Returned (header ++ payload1)).

Definition deserialize `{Zlib} (data : bytes) : outcome Packet :=
  if bool_decide (length data < HEADER_SIZE)%nat
  then Raised (ValueError "Insufficient data for packet header") else
  fields ← struct_unpack HEADER_FORMAT (take HEADER_SIZE data);
  match fields with
  | [ptype; payload_length; seq; flags; checksum] =>
    if bool_decide (Z.of_nat (length data) < Z.of_nat HEADER_SIZE + payload_length)
    then Raised (ValueError "Insufficient data for packet payload") else
    let payload1 := take (Z.to_nat payload_length) (drop HEADER_SIZE data) in
    if bool_decide (_calculate_checksum payload1 ≠ checksum)
    then Raised (ValueError "Packet checksum mismatch") else
    let is_compressed := bool_decide (Z.land flags 1 ≠ 0) in
    payload2 ← (if is_compressed
                then match zlib_decompress payload1 with
                     | Some d => Returned d
                     | None => Raised ZlibError
                     end
                else Returned payload1);
    t ← PacketType_of_value ptype;
    Returned {| packet_type := t;
                payload := payload2;
                compressed := is_compressed;
                encrypted := bool_decide (Z.land flags 2 ≠ 0);
                sequence := seq |}
  | _ => Raised StructError
  end.

End Protocol.

(** ** server/game_server/reincarnation_system.py: the preview *)

Module ReincarnationPreview.
Import Constants Utils Reincarnation.



End ReincarnationPreview.

(** ** subjugate_online/client/network_client.py *)

Module NetworkClient.
Import Protocol.

Section client.
Context `{Zlib}.

(** The fields of [NetworkClient] that [send_packet] and [_receive_loop]
    use; [socket_out] is what has been handed to [socket.sendall]. *)
Record NetworkClient : Type := {
  connected : bool;
  nc_sequence : Z;
  socket_out : list bytes;
  packet_queue : list Packet
}.

(** A client after [__init__] and a successful [connect]. *)
Definition NetworkClient_connected : NetworkClient :=
  {| connected := true; nc_sequence := 0; socket_out := []; packet_queue := [] |}.

Definition set_sequence (p : Packet) (s : Z) : Packet :=
  {| packet_type := packet_type p; payload := payload p;
     compressed := compressed p; encrypted := encrypted p; sequence := s |}.

(** [send_packet]: the client afterwards, the packet object afterwards and
    the returned flag.  Any exception of [serialize] is caught and
    disconnects the client. *)
Definition send_packet (self : NetworkClient) (packet : Packet)
    : NetworkClient * Packet * bool :=
  if negb (connected self) then (self, packet, false) else
  let packet1 := set_sequence packet (nc_sequence self) in
  let sequence1 := (nc_sequence self + 1) `mod` 4294967295 in
  let '(packet2, data) := serialize packet1 in
  match data with
  | Returned data =>
    ({| connected := true; nc_sequence := sequence1;
        socket_out := socket_out self ++ [data];
        packet_queue := packet_queue self |}, packet2, true)
  | Raised _ =>
    ({| connected := false; nc_sequence := sequence1;
        socket_out := socket_out self;
        packet_queue := packet_queue self |}, packet2, false)
  end.

(** The loop [while len(buffer) >= Packet.HEADER_SIZE] of [_receive_loop]:
    the buffer and the queue when the loop is left, and the exception that
    left it, if any.  Exceptions of [deserialize] are caught per packet.
    Every round removes at least the header from the buffer, so
    [length buffer] rounds are enough. *)
Fixpoint process_complete_packets (rounds : nat) (buffer : bytes)
    (queue : list Packet) : bytes * list Packet * option exn :=
  match rounds with
  | O => (buffer, queue, None)
  | S rounds' =>
    if bool_decide (HEADER_SIZE ≤ length buffer)%nat then
      let header := take HEADER_SIZE buffer in
      match struct_unpack HEADER_FORMAT header with
      | Returned [_; payload_length; _; _; _] =>
        let total_size := Z.of_nat HEADER_SIZE + payload_length in
        if bool_decide (Z.of_nat (length buffer) < total_size)
        then (buffer, queue, None) else
        let packet_data := take (Z.to_nat total_size) buffer in
        let buffer1 := drop (Z.to_nat total_size) buffer in
        let queue1 :=
          match deserialize packet_data with
          | Returned packet => queue ++ [packet]
          | Raised _ => queue
          end in
        process_complete_packets rounds' buffer1 queue1
      | Returned _ => (buffer, queue, Some (ValueError "unpack"))
      | Raised e => (buffer, queue, Some e)
      end
    else (buffer, queue, None)
  end.

(** [_receive_loop] over the successive results of [socket.recv]: the
    buffer, the queue and [self.connected] when the results are used up.
    An empty result (the server closed the connection) or an exception
    ends the loop and disconnects. *)
Fixpoint _receive_loop (received : list bytes) (buffer : bytes)
    (queue : list Packet) : bytes * list Packet * bool :=
  match received with
  | [] => (buffer, queue, true)
  | data :: received' =>
    if bool_decide (data = []) then (buffer, queue, false) else
    let buffer1 := buffer ++ data in
    match process_complete_packets (length buffer1) buffer1 queue with
    | (buffer2, queue2, None) => _receive_loop received' buffer2 queue2
    | (buffer2, queue2, Some _) => (buffer2, queue2, false)
    end
  end.

End client.

End NetworkClient.

(** ** subjugate_online/shared/protocol.py: strings, PacketBuilder and
    PacketParser *)

Module Payloads.
Import Protocol.

(** Python [str] with its UTF-8 codec: [encode] and [decode], the latter
    failing with [UnicodeDecodeError] (a [ValueError]) on [None]. *)
Class Utf8 : Type := {
  str : Type;
  utf8_encode : str → bytes;
  utf8_decode : bytes → option str
}.

Class Utf8Spec (U : Utf8) : Prop := {
  utf8_decode_encode : ∀ s : str, utf8_decode (utf8_encode s) = Some s
}.

(** The 'f' format of [struct]: four bytes per float, [OverflowError]
    reported as [struct.error]. *)
Class Float32 : Type := {
  pack_float : Q → outcome bytes;
  unpack_float : bytes → Q
}.

(** [data[a:b]] for non-negative indices. *)
Definition slice (data : bytes) (a b : nat) : bytes := take (b - a) (drop a data).

Section payloads.
Context `{Utf8} `{Float32}.

(** [struct.pack('!H', len(s.encode('utf-8'))) + s.encode('utf-8')] *)
Definition pack_string (s : str) : outcome bytes :=
  let encoded := utf8_encode s in
  prefix ← struct_pack [fmt_H] [Z.of_nat (length encoded)];
  Returned (prefix ++ encoded).

Definition unpack_string (data : bytes) (offset : nat) : outcome (str * nat) :=
  fields ← struct_unpack [fmt_H] (slice data offset (offset + 2));
  match fields with
  | [length] =>
    match utf8_decode (slice data (offset + 2) (offset + 2 + Z.to_nat length)) with
    | Some string => Returned (string, (offset + 2 + Z.to_nat length)%nat)
    | None => Raised (ValueError "utf-8")
    end
  | _ => Raised StructError
  end.

(** The '?' format: one byte, any non-zero byte reads as [True]. *)
Definition pack_bool (b : bool) : bytes := [if b then x01 else x00].

Definition unpack_bool (data : bytes) : outcome bool :=
  match data with
  | [b] => Returned (negb (Z_of_byte b =? 0))
  | _ => Raised StructError
  end.

(** *** class PacketBuilder *)

Definition login_request (username password_hash version : str) : outcome Packet :=
  u ← pack_string username;
  p ← pack_string password_hash;
  v ← pack_string version;
  Returned (Packet_new LOGIN_REQUEST ([] ++ u ++ p ++ v)).

Definition login_response (success : bool) (message session_token : str)
    : outcome Packet :=
  m ← pack_string message;
  let payload := pack_bool success ++ m in
  if success then
    t ← pack_string session_token;
    Returned (Packet_new LOGIN_RESPONSE (payload ++ t))
  else Returned (Packet_new LOGIN_RESPONSE payload).

(** The items of a format that mixes integers and floats, and the
    arguments handed to [struct.pack]. *)
Inductive fmt_item : Type := item_I | item_f.
Inductive pack_arg : Type := ArgInt (z : Z) | ArgFloat (x : Q).

Fixpoint pack_items (f : list fmt_item) (args : list pack_arg) : outcome bytes :=
  match f, args with
  | [], [] => Returned []
  | item_I :: f', ArgInt z :: args' =>
    b ← struct_pack [fmt_I] [z]; rest ← pack_items f' args'; Returned (b ++ rest)
  | item_f :: f', ArgFloat x :: args' =>
    b ← pack_float x; rest ← pack_items f' args'; Returned (b ++ rest)
  | item_f :: f', ArgInt z :: args' =>
    b ← pack_float (inject_Z z); rest ← pack_items f' args'; Returned (b ++ rest)
  | _, _ => Raised StructError
  end.

(** [struct.pack] compares the number of arguments with the number of
    items of the format before it packs anything. *)
Definition struct_pack_items (f : list fmt_item) (args : list pack_arg)
    : outcome bytes :=
  if bool_decide (length args ≠ length f) then Raised StructError
  else pack_items f args.

(** '!Iffffff' *)
Definition MOVE_UPDATE_FORMAT : list fmt_item :=
  [item_I; item_f; item_f; item_f; item_f; item_f; item_f].

Definition move_update (entity_id : Z)
    (x y z rotation velocity_x velocity_y velocity_z : Q) : outcome Packet :=
  payload ← struct_pack_items MOVE_UPDATE_FORMAT
    [ArgInt entity_id; ArgFloat x; ArgFloat y; ArgFloat z; ArgFloat rotation;
     ArgFloat velocity_x; ArgFloat velocity_y; ArgFloat velocity_z];
  Returned (Packet_new MOVE_UPDATE payload).

Definition attack_request (target_id skill_id : Z) : outcome Packet :=
  payload ← struct_pack [fmt_I; fmt_I] [target_id; skill_id];
  Returned (Packet_new ATTACK_REQUEST payload).

(** '!III??': the two flags follow the three unsigned integers. *)
Definition damage_dealt (attacker_id target_id damage : Z)
    (is_critical is_fatal : bool) : outcome Packet :=
  ints ← struct_pack [fmt_I; fmt_I; fmt_I] [attacker_id; target_id; damage];
  Returned (Packet_new DAMAGE_DEALT
              (ints ++ pack_bool is_critical ++ pack_bool is_fatal)).

Definition chat_message (sender message channel : str) : outcome Packet :=
  c ← pack_string channel;
  s ← pack_string sender;
  m ← pack_string message;
  Returned (Packet_new CHAT_MESSAGE ([] ++ c ++ s ++ m)).

(** *** class PacketParser *)

Definition parse_login_request (packet : Packet) : outcome (str * str * str) :=
  '(username, offset) ← unpack_string (payload packet) 0;
  '(password_hash, offset) ← unpack_string (payload packet) offset;
  '(version, offset) ← unpack_string (payload packet) offset;
  Returned (username, password_hash, version).

Definition parse_login_response (packet : Packet)
    : outcome (bool * str * option str) :=
  success ← unpack_bool (slice (payload packet) 0 1);
  '(message, offset) ← unpack_string (payload packet) 1;
  if success && bool_decide (offset < length (payload packet))%nat then
    '(session_token, _) ← unpack_string (payload packet) offset;
    Returned (success, message, Some session_token)
  else Returned (success, message, None).

Definition parse_attack_request (packet : Packet) : outcome (Z * Z) :=
  fields ← struct_unpack [fmt_I; fmt_I] (payload packet);
  match fields with
  | [target_id; skill_id] => Returned (target_id, skill_id)
  | _ => Raised StructError
  end.

Record DamageDealt : Type := {
  dd_attacker_id : Z;
  dd_target_id : Z;
  dd_damage : Z;
  dd_is_critical : bool;
  dd_is_fatal : bool
}.

Definition parse_damage_dealt (packet : Packet) : outcome DamageDealt :=
  if bool_decide (length (payload packet) ≠ 14%nat) then Raised StructError else
  fields ← struct_unpack [fmt_I; fmt_I; fmt_I] (take 12 (payload packet));
  is_critical ← unpack_bool (slice (payload packet) 12 13);
  is_fatal ← unpack_bool (slice (payload packet) 13 14);
  match fields with
  | [attacker_id; target_id; damage] =>
    Returned {| dd_attacker_id := attacker_id; dd_target_id := target_id;
                dd_damage := damage; dd_is_critical := is_critical;
                dd_is_fatal := is_fatal |}
  | _ => Raised StructError
  end.

Record ChatMessage : Type := {
  cm_channel : str;
  cm_sender : str;
  cm_message : str
}.

Definition parse_chat_message (packet : Packet) : outcome ChatMessage :=
  '(channel, offset) ← unpack_string (payload packet) 0;
  '(sender, offset) ← unpack_string (payload packet) offset;
  '(message, _) ← unpack_string (payload packet) offset;
  Returned {| cm_channel := channel; cm_sender := sender; cm_message := message |}.

(** '!Ifffffff': what [parse_move_update] hands to [struct.unpack]. *)
Definition PARSE_MOVE_UPDATE_SIZE : nat := 4 + 7 * 4.

Definition parse_move_update (packet : Packet) : outcome (Z * list Q) :=
  if bool_decide (length (payload packet) ≠ PARSE_MOVE_UPDATE_SIZE)
  then Raised StructError else
  let data := payload packet in
  Returned (unpack_be (take 4 data),
            (λ i, unpack_float (slice data (4 + 4 * i) (8 + 4 * i))) <$> seq 0 7).

End payloads.

End Payloads.

(** ** shared/utils.py: experience and levels *)

Module Levels.

(** [int(level ** 3 * 100)] on an [int]. *)
Definition calculate_xp_for_level (level : Z) : Z := level ^ 3 * 100.

(** The loop of [calculate_level_from_xp], from the current [level];
    [None] when [rounds] iterations were not enough to leave it. *)
Fixpoint level_loop (rounds : nat) (level xp : Z) : option Z :=
  match rounds with
  | O => None
  | S rounds' =>
    if calculate_xp_for_level (level + 1) <=? xp
    then level_loop rounds' (level + 1) xp
    else Some level
  end.

(** [calculate_level_from_xp]: the loop is left within [xp] iterations
    (one, when [xp] is not positive). *)
Definition calculate_level_from_xp (xp : Z) : option Z :=
  level_loop (S (Z.to_nat xp)) 1 xp.

End Levels.

(** ** server/game_server/npc_ai.py *)

Module NpcAi.
Import Constants Utils World Combat.

(** [math.sqrt] as [normalize_vector] uses it. *)
Class Sqrt : Type := { sqrt : Q → Q }.

Definition npc_set_state (n : NPCEntity) (v : AiState) : NPCEntity :=
  {| instance_id := instance_id n; npc_position := npc_position n;
     npc_rotation := npc_rotation n; npc_chunk_id := npc_chunk_id n;
     npc_id := npc_id n; npc_level := npc_level n; npc_hp := npc_hp n;
     npc_max_hp := npc_max_hp n; npc_attack := npc_attack n;
     npc_defense := npc_defense n; xp_reward := xp_reward n;
     aggro_range := aggro_range n; state := v;
     npc_target_id := npc_target_id n; spawn_position := spawn_position n;
     npc_last_attack_time := npc_last_attack_time n |}.

Definition npc_set_target_id (n : NPCEntity) (v : option Z) : NPCEntity :=
  {| instance_id := instance_id n; npc_position := npc_position n;
     npc_rotation := npc_rotation n; npc_chunk_id := npc_chunk_id n;
     npc_id := npc_id n; npc_level := npc_level n; npc_hp := npc_hp n;
     npc_max_hp := npc_max_hp n; npc_attack := npc_attack n;
     npc_defense := npc_defense n; xp_reward := xp_reward n;
     aggro_range := aggro_range n; state := state n;
     npc_target_id := v; spawn_position := spawn_position n;
     npc_last_attack_time := npc_last_attack_time n |}.

Definition npc_set_last_attack_time (n : NPCEntity) (v : Q) : NPCEntity :=
  {| instance_id := instance_id n; npc_position := npc_position n;
     npc_rotation := npc_rotation n; npc_chunk_id := npc_chunk_id n;
     npc_id := npc_id n; npc_level := npc_level n; npc_hp := npc_hp n;
     npc_max_hp := npc_max_hp n; npc_attack := npc_attack n;
     npc_defense := npc_defense n; xp_reward := xp_reward n;
     aggro_range := aggro_range n; state := state n;
     npc_target_id := npc_target_id n; spawn_position := spawn_position n;
     npc_last_attack_time := v |}.

(** The random numbers one update of one NPC may draw:
    [random.random()] in the idle and in the patrol state, the two
    [random.uniform(-1, 1)] of the random walk and the variance inside
    [calculate_damage]. *)
Record Draws : Type := {
  idle_roll : Q;
  patrol_roll : Q;
  wander_x : Q;
  wander_z : Q;
  damage_variance : Q
}.

Section ai.
Context `{Sqrt}.

Definition normalize_vector (vec : Vec3) : Vec3 :=
  let magnitude := sqrt (px vec * px vec + py vec * py vec + pz vec * pz vec)%Q in
  if Qeq_bool magnitude 0 then (0, 0, 0)%Q
  else (px vec / magnitude, py vec / magnitude, pz vec / magnitude)%Q.

(** The NPC object is the registry entry under [iid]: the functions read
    it as [npc] and write its fields to that entry. *)
Definition _ai_idle (w : WorldManager) (iid : Z) (npc : NPCEntity) (d : Draws)
    : WorldManager :=
  match get_nearby_players w (npc_position npc) (aggro_range npc) with
  | target :: _ =>
    modify_npc w iid
      (λ n, npc_set_state (npc_set_target_id n (Some (character_id target))) Chasing)
  | [] =>
    if negb (Qle_bool 0.1 (idle_roll d))
    then modify_npc w iid (λ n, npc_set_state n Patrolling)
    else w
  end.

Definition _ai_patrol (w : WorldManager) (iid : Z) (npc : NPCEntity)
    (delta_time : Q) (d : Draws) : WorldManager :=
  match get_nearby_players w (npc_position npc) (aggro_range npc) with
  | target :: _ =>
    modify_npc w iid
      (λ n, npc_set_state (npc_set_target_id n (Some (character_id target))) Chasing)
  | [] =>
    let max_wander_distance := 20.0%Q in
    let direction :=
      if distance_gt (npc_position npc) (spawn_position npc) max_wander_distance
      then (px (spawn_position npc) - px (npc_position npc), 0,
            pz (spawn_position npc) - pz (npc_position npc))%Q
      else (wander_x d, 0%Q, wander_z d) in
    let direction := normalize_vector direction in
    let move_speed := 2.0%Q in
    let new_x := (px (npc_position npc) + px direction * move_speed * delta_time)%Q in
    let new_y := py (npc_position npc) in
    let new_z := (pz (npc_position npc) + pz direction * move_speed * delta_time)%Q in
    let w1 := update_npc_position w (instance_id npc) new_x new_y new_z 0.0 in
    if negb (Qle_bool 0.05 (patrol_roll d))
    then modify_npc w1 iid (λ n, npc_set_state n Idle)
    else w1
  end.

Definition _ai_chase (w : WorldManager) (iid : Z) (npc : NPCEntity)
    (delta_time current_time : Q) : WorldManager :=
  match npc_target_id npc with
  | None => modify_npc w iid (λ n, npc_set_state n Idle)
  | Some target_id =>
    match get_player w target_id with
    | None =>
      modify_npc w iid (λ n, npc_set_state (npc_set_target_id n None) Idle)
    | Some target =>
      if is_dead target
      then modify_npc w iid (λ n, npc_set_state (npc_set_target_id n None) Idle)
      else
      let max_leash_distance := 50.0%Q in
      if distance_gt (npc_position npc) (spawn_position npc) max_leash_distance then
        let w1 := modify_npc w iid
          (λ n, npc_set_hp (npc_set_state (npc_set_target_id n None) Idle)
                  (npc_max_hp n)) in
        update_npc_position w1 (instance_id npc)
          (px (spawn_position npc)) (py (spawn_position npc))
          (pz (spawn_position npc)) 0.0
      else
      let attack_range := 2.5%Q in
      if distance_le (npc_position npc) (position target) attack_range
      then modify_npc w iid (λ n, npc_set_state n Attacking)
      else
      let direction :=
        (px (position target) - px (npc_position npc), 0,
         pz (position target) - pz (npc_position npc))%Q in
      let direction := normalize_vector direction in
      let move_speed := 4.0%Q in
      let new_x := (px (npc_position npc) + px direction * move_speed * delta_time)%Q in
      let new_y := py (npc_position npc) in
      let new_z := (pz (npc_position npc) + pz direction * move_speed * delta_time)%Q in
      update_npc_position w (instance_id npc) new_x new_y new_z 0.0
    end
  end.

(** [_npc_attack_player]; [target] is the [players] entry under
    [target_id]. *)
Definition _npc_attack_player (w : WorldManager) (iid : Z) (npc : NPCEntity)
    (target_id : Z) (target : PlayerEntity) (current_time : Q) (d : Draws)
    : WorldManager * outcome unit :=
  let attacker_stats := {| a_attack := npc_attack npc; a_level := npc_level npc |} in
  let defender_stats := {| d_defense := defense target; d_level := level target |} in
  match calculate_damage attacker_stats defender_stats 1.0 PHYSICAL
          (damage_variance d) with
  | Raised e => (w, Raised e)
  | Returned damage =>
    let w1 := modify_player w target_id (λ p, (player_apply_damage p damage).1) in
    (modify_npc w1 iid (λ n, npc_set_last_attack_time n current_time),
     Returned ())
  end.

Definition _ai_attack (w : WorldManager) (iid : Z) (npc : NPCEntity)
    (current_time : Q) (d : Draws) : WorldManager * outcome unit :=
  match npc_target_id npc with
  | None => (modify_npc w iid (λ n, npc_set_state n Idle), Returned ())
  | Some target_id =>
    match get_player w target_id with
    | None =>
      (modify_npc w iid (λ n, npc_set_state (npc_set_target_id n None) Idle),
       Returned ())
    | Some target =>
      if is_dead target
      then (modify_npc w iid (λ n, npc_set_state (npc_set_target_id n None) Idle),
            Returned ())
      else
      let attack_range := 2.5%Q in
      if distance_gt (npc_position npc) (position target) attack_range
      then (modify_npc w iid (λ n, npc_set_state n Chasing), Returned ())
      else
      let npc_attack_cooldown := 2.0%Q in
      if negb (Qle_bool npc_attack_cooldown
                 (current_time - npc_last_attack_time npc))
      then (w, Returned ())
      else _npc_attack_player w iid npc target_id target current_time d
    end
  end.

(** [_update_npc_ai] for the NPC registered under [iid]. *)
Definition _update_npc_ai (w : WorldManager) (iid : Z)
    (delta_time current_time : Q) (d : Draws) : WorldManager * outcome unit :=
  match npcs w !! iid with
  | None => (w, Returned ())
  | Some npc =>
    if npc_hp npc <=? 0 then (w, Returned ()) else
    match state npc with
    | Idle => (_ai_idle w iid npc d, Returned ())
    | Patrolling => (_ai_patrol w iid npc delta_time d, Returned ())
    | Chasing => (_ai_chase w iid npc delta_time current_time, Returned ())
    | Attacking => _ai_attack w iid npc current_time d
    end
  end.

End ai.

End NpcAi.

(* ===================================================================== *)
(** * Part II: vocabulary of the statements and sample inputs            *)
(* ===================================================================== *)

Section spatial_index_defs.
Import Constants Utils World.

(** Entity [eid] is filed under chunk [c]. *)
Definition indexed (chunk_dict : gmap (Z * Z) (gset Z)) (eid : Z) (c : Z * Z) : Prop :=
  ∃ s, chunk_dict !! c = Some s ∧ eid ∈ s.

(** Every registered entity records the chunk of its position and is filed
    under that chunk. *)
Definition players_indexed (w : WorldManager) : Prop :=
  ∀ cid e, players w !! cid = Some e →
    chunk_id e = get_chunk_id (position e) CHUNK_SIZE ∧
    indexed (player_chunks w) cid (chunk_id e).

Definition npcs_indexed (w : WorldManager) : Prop :=
  ∀ iid e, npcs w !! iid = Some e →
    npc_chunk_id e = get_chunk_id (npc_position e) CHUNK_SIZE ∧
    indexed (npc_chunks w) iid (npc_chunk_id e).

Definition world_indexed (w : WorldManager) : Prop :=
  players_indexed w ∧ npcs_indexed w.

End spatial_index_defs.

Section nearby_witness_defs.
Import Constants Utils World.
Local Open Scope Q_scope.

Definition snapshot_at (x y z : Q) : CharacterData :=
  {| cd_position_x := Some x; cd_position_y := Some y; cd_position_z := Some z;
     cd_level := None; cd_hp := None; cd_max_hp := None; cd_mp := None;
     cd_max_mp := None; cd_attack := None; cd_defense := None;
     cd_reincarnation_count := None |}.

Definition plain_npc : NpcData :=
  {| nd_id := Some 7%Z; nd_level := None; nd_hp := None; nd_attack := None;
     nd_defense := None; nd_xp_reward := None; nd_aggro_range := None |}.

(** A script that crosses the origin (negative coordinates) and re-files
    entities. *)
Definition sample_script : list world_op :=
  [ AddPlayer 1 (snapshot_at 100 0 100);
    AddPlayer 2 (snapshot_at (-130) 0 20);
    SpawnNpc plain_npc (260, 0, 260);
    UpdatePlayerPosition 2 (-10) 3 (-10) 0;
    SpawnNpc plain_npc (10, 0, 10);
    UpdateNpcPosition 2 60 0 (-20) 0;
    RemovePlayer 1;
    AddPlayer 3 (snapshot_at 49 0 (-49)) ].

End nearby_witness_defs.

Section basic_attack_facts_defs.
Import Constants Utils World GameData Combat.

(** The hit points of the registered entity a target reference denotes. *)
Definition registry_hp (w : WorldManager) (target_id : Z) (target_type : string)
    : option Z :=
  match lookup_target w target_id target_type with
  | Some (Some t) => Some (target_hp t)
  | _ => None
  end.

End basic_attack_facts_defs.

Section basic_attack_witness_defs.
Import Constants Utils World GameData Combat.

Definition frail_npc : NpcData :=
  {| nd_id := Some 7; nd_level := None; nd_hp := Some 5; nd_attack := None;
     nd_defense := None; nd_xp_reward := None; nd_aggro_range := None |}.

(** A default player next to an NPC with 5 hit points. *)
Definition duel : CombatSystem :=
  {| world := run_ops [AddPlayer 1 (snapshot_at 100 0 100);
                       SpawnNpc frail_npc (101%Q, 0%Q, 100%Q)] WorldManager_init;
     active_cooldowns := ∅ |}.

End basic_attack_witness_defs.

Section success_score_defs.
Import Constants Utils.
Local Open Scope Q_scope.

(** A life whose level went past MAX_LEVEL with the other four metrics at
    their caps. *)
Definition overlevelled_life : gmap string Z :=
  <["level" := 200%Z]>
  (<["total_kills" := 1000%Z]>
  (<["territory_control_time" := 360000%Z]>
  (<["boss_kills" := 50%Z]>
  (<["playtime" := 720000%Z]> ∅)))).

End success_score_defs.

Section reincarnation_defs.
Import Constants Utils Reincarnation.
Local Open Scope Q_scope.




End reincarnation_defs.

Section reincarnation_examples_defs.
Import Constants Utils Reincarnation.
Local Open Scope Q_scope.



End reincarnation_examples_defs.

Section damage_formula_defs.
Import Constants Utils.
Local Open Scope Q_scope.


End damage_formula_defs.

Section damage_formula_examples_defs.
Import Constants Utils.
Local Open Scope Q_scope.



End damage_formula_examples_defs.

Section player_bounds_defs.
Import Constants Utils World GameData Combat.




End player_bounds_defs.

Section player_bounds_examples_defs.
Import Constants Utils World GameData Combat.

(** A default player: hp 100/100, mp 50/50. *)
Definition hero : PlayerEntity := PlayerEntity_init 1 (snapshot_at 100 0 100).

End player_bounds_examples_defs.

Section use_skill_rejections_defs.
Import Constants Utils World GameData Combat.

(** The state [use_skill] has reached once the five leading checks passed:
    MP deducted, cooldown stamped. *)
Definition charged (cs : CombatSystem) (caster_id skill_id : Z) (sd : SkillData)
    (now : Q) : CombatSystem :=
  _set_skill_cooldown
    {| world := modify_player (world cs) caster_id
                  (λ c, player_set_mp c (mp c - default 0 (mp_cost sd)));
       active_cooldowns := active_cooldowns cs |}
    caster_id skill_id now (default 0%Q (cooldown sd)).

End use_skill_rejections_defs.

Section codec_examples_defs.
Import Protocol.

(** A minimal codec meeting [ZlibSpec]: the payload behind a two-byte
    zlib header, as in a stored (uncompressed) stream. *)
Definition stored_zlib : Zlib :=
  {| zlib_compress d := x78 :: x01 :: d;
     zlib_decompress d :=
       match d with
       | x78 :: x01 :: rest => Some rest
       | _ => None
       end |}.

(** What [serialize] puts after the header, and the flags field it packs,
    for a packet that is not yet marked compressed. *)
Definition frame_body `{Zlib} (data : bytes) : bytes :=
  if bool_decide (512 < length data)%nat then zlib_compress data else data.

Definition frame_flags (data : bytes) (enc : bool) : Z :=
  Z.lor (if bool_decide (512 < length data)%nat then 1 else 0)
        (if enc then 2 else 0).

Definition short_payload : bytes := [x68; x65; x6c; x6c; x6f].

Definition long_payload : bytes := replicate 600 x41.

End codec_examples_defs.

Section territory_step_defs.
Import Constants Utils World Territory.
Local Open Scope Q_scope.

(** The states the player loop of one tick can be in, relative to the
    territory [t] at the start of the tick; [seen] are the ids of the
    players processed so far. *)
Definition loop_state (t : TerritoryState) (now clock : Q) (seen : list Z)
    (s : TerritoryState) : Prop :=
  s = t ∨
  (capturing_player_id t = None ∧ ∃ j, j ∈ seen ∧ s = start_capture t j now) ∨
  (∃ i, capturing_player_id t = Some i ∧ i ∈ seen ∧
        Qle_bool 1.0 (get_capture_progress t now) = true ∧
        (s = (_capture_territory t i clock).1 ∨
         ∃ j, j ∈ seen ∧ s = start_capture (_capture_territory t i clock).1 j now)).

End territory_step_defs.

Section territory_trace_defs.
Import Constants Utils World Territory.
Local Open Scope Q_scope.

(** The history behind a standing attempt: it was started at some tick
    [k0] by its capturer, then present; the recorded start is that tick's
    time; and at every later tick the presence threshold was met. *)
Definition attempt_history (t0 : TerritoryState) (ks : list Tick) (i : Z) : Prop :=
  ∃ older k0 recent,
    ks = older ++ k0 :: recent ∧
    i ∈ present_ids t0 k0 ∧
    capturing_player_id (run_ticks t0 (older ++ [k0])) = Some i ∧
    capture_start_time (run_ticks t0 (older ++ [k0])) = tick_time k0 ∧
    capture_start_time (run_ticks t0 ks) = tick_time k0 ∧
    Forall (λ k', (MIN_PLAYERS_TO_CAPTURE ≤ length (present_ids t0 k'))%nat) recent.

End territory_trace_defs.

Section territory_examples_defs.
Import Constants Utils World Territory.
Local Open Scope Q_scope.

(** C2 as stated: the committing player was present at every tick between
    the start of the attempt and the commit. *)
Definition commit_needs_continuous_presence : Prop :=
  ∀ (t0 : TerritoryState) (ks : list Tick) (k : Tick),
    capturing_player_id t0 = None →
    let t := run_ticks t0 ks in
    let t' := tick_territory t k in
    controller_id t' ≠ controller_id t →
    ∃ i older k0 recent,
      ks = older ++ k0 :: recent ∧
      controller_id t' = Some i ∧
      capturing_player_id (run_ticks t0 (older ++ [k0])) = Some i ∧
      capture_start_time t = tick_time k0 ∧
      TERRITORY_CAPTURE_TIME <= tick_time k - tick_time k0 ∧
      Forall (λ k', i ∈ present_ids t0 k') recent.

(** Phoenix Castle, uncontrolled. *)
Definition castle : TerritoryState :=
  TerritoryState_init 0 (500.0, 0.0, 500.0) 50.0 1000.

Definition alice_inside : PlayerEntity := PlayerEntity_init 1 (snapshot_at 500 0 500).

Definition alice_away : PlayerEntity := PlayerEntity_init 1 (snapshot_at 900 0 900).

Definition bob_inside : PlayerEntity := PlayerEntity_init 2 (snapshot_at 510 0 500).

(** Alice starts the attempt at time 0, is outside the radius at time 30
    while Bob stays inside, and is back at time 60. *)
Definition tick_start : Tick :=
  {| tick_players := [alice_inside; bob_inside]; tick_time := 0; tick_clock := 0 |}.

Definition tick_alice_away : Tick :=
  {| tick_players := [alice_away; bob_inside]; tick_time := 30; tick_clock := 30 |}.

Definition tick_alice_back : Tick :=
  {| tick_players := [alice_inside; bob_inside]; tick_time := 60; tick_clock := 60 |}.

Definition tick_empty : Tick :=
  {| tick_players := [alice_away]; tick_time := 30; tick_clock := 30 |}.

End territory_examples_defs.

Section spatial_exact_defs.
Import Constants Utils World.

(** A script in which [add_player] is only called for a character id that
    is not registered at that moment (the duplicate-session guard is the
    caller's). *)
Fixpoint script_fresh (w : WorldManager) (ops : list world_op) : Prop :=
  match ops with
  | [] => True
  | op :: ops' =>
    match op with
    | AddPlayer cid _ => players w !! cid = None
    | _ => True
    end ∧ script_fresh (apply_op w op) ops'
  end.

(** Every bucket is non-empty and holds only ids of registered entities
    whose recorded chunk is that bucket. *)
Definition buckets_exact {E : Type} (chunk_of : E → Z * Z)
    (entities : gmap Z E) (chunk_dict : gmap (Z * Z) (gset Z)) : Prop :=
  ∀ c s, chunk_dict !! c = Some s →
    s ≠ ∅ ∧ ∀ eid, eid ∈ s → ∃ e, entities !! eid = Some e ∧ chunk_of e = c.

Definition world_exact (w : WorldManager) : Prop :=
  buckets_exact chunk_id (players w) (player_chunks w) ∧
  buckets_exact npc_chunk_id (npcs w) (npc_chunks w) ∧
  (∀ cid e, players w !! cid = Some e → character_id e = cid) ∧
  (∀ iid e, npcs w !! iid = Some e →
     instance_id e = iid ∧ 1 ≤ iid < next_npc_instance_id w) ∧
  1 ≤ next_npc_instance_id w.

End spatial_exact_defs.

Section npc_ids_defs.
Import World.

(** Number of [spawn_npc] calls in a script. *)
Fixpoint spawn_count (ops : list world_op) : Z :=
  match ops with
  | [] => 0
  | SpawnNpc _ _ :: ops' => 1 + spawn_count ops'
  | _ :: ops' => spawn_count ops'
  end.

(** Registry keys are the stored entities' ids, below the next id. *)
Definition npc_ids_ok (w : WorldManager) : Prop :=
  (∀ iid e, npcs w !! iid = Some e →
     instance_id e = iid ∧ (1 ≤ iid < next_npc_instance_id w)%Z) ∧
  (1 ≤ next_npc_instance_id w)%Z.

End npc_ids_defs.

Section combat_frame_defs.
Import Constants Utils World GameData Combat.

(** [w'] has the registry keys, the buckets and the entity placement
    (position, recorded chunk, instance id) of [w]. *)
Definition placement_kept (w w' : WorldManager) : Prop :=
  player_chunks w' = player_chunks w ∧
  npc_chunks w' = npc_chunks w ∧
  next_npc_instance_id w' = next_npc_instance_id w ∧
  dom (players w') =@{gset Z} dom (players w) ∧
  dom (npcs w') =@{gset Z} dom (npcs w) ∧
  (∀ cid e e', players w !! cid = Some e → players w' !! cid = Some e' →
     position e' = position e ∧ chunk_id e' = chunk_id e) ∧
  (∀ iid e e', npcs w !! iid = Some e → npcs w' !! iid = Some e' →
     npc_position e' = npc_position e ∧ npc_chunk_id e' = npc_chunk_id e ∧
     instance_id e' = instance_id e).



End combat_frame_defs.

Section territory_progress_defs.
Import Constants Utils World Territory.
Local Open Scope Q_scope.

Definition bob_away : PlayerEntity := PlayerEntity_init 2 (snapshot_at 900 0 900).

(** Alice alone in the castle at times 0, 30 and 75. *)
Definition lone_start : Tick :=
  {| tick_players := [alice_inside]; tick_time := 0; tick_clock := 0 |}.

Definition lone_wait : Tick :=
  {| tick_players := [alice_inside; bob_away]; tick_time := 30; tick_clock := 30 |}.

Definition lone_done : Tick :=
  {| tick_players := [alice_inside]; tick_time := 75; tick_clock := 76 |}.

End territory_progress_defs.

Section reincarnation_gate_defs.
Import Constants Utils Reincarnation.



End reincarnation_gate_defs.

Section stream_defs.
Import Protocol NetworkClient.
Context `{Zlib}.

(** The payload length announced by the header at the front of a buffer. *)
Definition declared_length (buffer : bytes) : Z :=
  unpack_be (take 4 (drop 2 (take HEADER_SIZE buffer))).

(** What one round of the receive loop does with an extracted frame. *)
Definition enqueue (packet_data : bytes) (queue : list Packet) : list Packet :=
  match deserialize packet_data with
  | Returned packet => queue ++ [packet]
  | Raised _ => queue
  end.

(** A buffer the receive loop leaves alone: no full header yet, or fewer
    bytes than the header announces. *)
Definition incomplete (buffer : bytes) : Prop :=
  (length buffer < HEADER_SIZE)%nat ∨
  Z.of_nat (length buffer) < Z.of_nat HEADER_SIZE + declared_length buffer.

(** The receive loop on everything received at once. *)
Definition drain (buffer : bytes) (queue : list Packet)
    : bytes * list Packet * option exn :=
  process_complete_packets (length buffer) buffer queue.

End stream_defs.

Section delivery_defs.
Import Protocol NetworkClient.
Context `{Zlib}.

(** [send_packet] for each packet in turn: the client afterwards and the
    returned flags. *)
Fixpoint send_all (self : NetworkClient) (packets : list Packet)
    : NetworkClient * list bool :=
  match packets with
  | [] => (self, [])
  | packet :: packets' =>
    let '(self1, _, ok) := send_packet self packet in
    let '(self2, oks) := send_all self1 packets' in
    (self2, ok :: oks)
  end.

(** A packet as built by [Packet(type, payload)] or [PacketBuilder], with
    a payload within MAX_PAYLOAD_SIZE. *)
Definition sendable (p : Packet) : Prop :=
  Z.of_nat (length (payload p)) ≤ MAX_PAYLOAD_SIZE ∧ compressed p = false.

(** The packet the receiver decodes when [p] is sent as number [s]. *)
Definition delivered (s : Z) (p : Packet) : Packet :=
  set_compressed (set_sequence p s) (bool_decide (512 < length (payload p))%nat).

Fixpoint deliveries (s : Z) (packets : list Packet) : list Packet :=
  match packets with
  | [] => []
  | p :: packets' => delivered s p :: deliveries (s + 1) packets'
  end.

(** A frame whose header announces its body and that decodes to [p]. *)
Definition frame_of (p : Packet) (frame : bytes) : Prop :=
  (HEADER_SIZE ≤ length frame)%nat ∧
  Z.of_nat (length frame) = Z.of_nat HEADER_SIZE + declared_length frame ∧
  deserialize frame = Returned p.

(** A chat packet cut in two by [recv], with the first bytes of the next
    frame behind it. *)
Definition hello_frame : bytes :=
  match (@serialize stored_zlib (Packet_new CHAT_MESSAGE short_payload)).2 with
  | Returned frame => frame
  | Raised _ => []
  end.

Definition hello_received : list bytes :=
  [take 3 hello_frame; drop 3 hello_frame ++ take 4 hello_frame].

End delivery_defs.

Section delivery_examples_defs.
Import Protocol NetworkClient.

Definition two_packets : list Packet :=
  [Packet_new CHAT_MESSAGE short_payload; Packet_new WORLD_ANNOUNCEMENT long_payload].

(** The bytes of [two_packets] on the wire, cut after the seventh byte. *)
Definition two_packets_received : list bytes :=
  let stream :=
    concat (socket_out (@send_all stored_zlib NetworkClient_connected two_packets).1) in
  [take 7 stream; drop 7 stream].

End delivery_examples_defs.

Section payload_defs.
Import Protocol Payloads.
Context `{Utf8}.

(** A packed string field: the two-byte length, then the encoding. *)
Definition field_of (s : str) : bytes :=
  pack_be 2 (Z.of_nat (length (utf8_encode s))) ++ utf8_encode s.

End payload_defs.

Section payload_examples_defs.
Import Protocol Payloads.

(** A stand-in codec for the examples: strings that are their own
    encoding. *)
Definition ascii_utf8 : Utf8 :=
  {| str := bytes; utf8_encode s := s; utf8_decode d := Some d |}.

Definition no_float32 : Float32 :=
  {| pack_float _ := Returned [x00; x00; x00; x00]; unpack_float _ := 0%Q |}.

Definition name_alice : bytes := [x61; x6c; x69; x63; x65].
Definition word_hi : bytes := [x68; x69].
Definition channel_global : bytes := [x67; x6c; x6f; x62; x61; x6c].

End payload_examples_defs.

Section npc_ai_examples_defs.
Import Constants Utils World Combat NpcAi.
Local Open Scope Q_scope.

(** A stand-in square root for the examples (the examples do not move
    along a normalised direction). *)
Definition unit_sqrt : Sqrt := {| sqrt _ := 1 |}.

Definition no_draws : Draws :=
  {| idle_roll := 1; patrol_roll := 1; wander_x := 0; wander_z := 0;
     damage_variance := 1 |}.

(** The NPC of [duel], chasing player 1 sixty units away from its spawn
    point. *)
Definition strayed : WorldManager :=
  modify_npc
    (update_npc_position
       (update_player_position (world duel) 1 165 0 100 0) 1 161 0 100 0)
    1 (λ n, npc_set_state (npc_set_target_id n (Some 1%Z)) Chasing).

(** The NPC of [duel], attacking player 1 next to it. *)
Definition engaged : WorldManager :=
  modify_npc (world duel) 1
    (λ n, npc_set_state (npc_set_target_id n (Some 1%Z)) Attacking).

End npc_ai_examples_defs.

Section game_script_defs.
Import Constants Utils World Combat NpcAi.
Context `{Sqrt}.






End game_script_defs.

(* ===================================================================== *)
(** * Part III: properties                                                *)
(* ===================================================================== *)

(** ** Truncation and exact arithmetic *)

Section py_int_facts.
Import Utils.
Local Open Scope Q_scope.

Lemma py_int_floor (x : Q) : 0 <= x → py_int x = Qfloor x.
Proof.
  destruct x as [n d]. unfold Qle, py_int, Qfloor. simpl. intros Hn.
  apply Z.quot_div_nonneg; lia.
Qed.

Lemma py_int_ceiling (x : Q) : x <= 0 → py_int x = Qceiling x.
Proof.
  destruct x as [n d]. unfold Qle, py_int, Qceiling, Qfloor. simpl. intros Hn.
  rewrite <- (Z.opp_involutive n) at 1.
  rewrite Z.quot_opp_l by lia.
  rewrite Z.quot_div_nonneg by lia. reflexivity.
Qed.

Lemma py_int_nonneg (x : Q) :
  0 <= x → inject_Z (py_int x) <= x ∧ x < inject_Z (py_int x + 1).
Proof.
  intros H. rewrite (py_int_floor x H). split; [apply Qfloor_le | apply Qlt_floor].
Qed.

Lemma py_int_nonpos (x : Q) :
  x <= 0 → inject_Z (py_int x - 1) < x ∧ x <= inject_Z (py_int x).
Proof.
  intros H. rewrite (py_int_ceiling x H). split; [apply Qceiling_lt | apply Qle_ceiling].
Qed.

Lemma py_int_sign_nonneg (x : Q) : 0 <= x → (0 ≤ py_int x)%Z.
Proof.
  intros H. rewrite (py_int_floor x H).
  change 0%Z with (Qfloor 0). by apply Qfloor_resp_le.
Qed.

Lemma py_int_sign_nonpos (x : Q) : x <= 0 → (py_int x ≤ 0)%Z.
Proof.
  intros H. rewrite (py_int_ceiling x H).
  change 0%Z with (Qceiling 0). by apply Qceiling_resp_le.
Qed.

(** [int] is monotone. *)
Lemma py_int_mono (x y : Q) : x <= y → (py_int x ≤ py_int y)%Z.
Proof.
  intros Hxy. destruct (Qlt_le_dec x 0) as [Hx|Hx], (Qlt_le_dec y 0) as [Hy|Hy].
  - rewrite !py_int_ceiling by lra. by apply Qceiling_resp_le.
  - pose proof (py_int_sign_nonpos x ltac:(lra)).
    pose proof (py_int_sign_nonneg y Hy). lia.
  - lra.
  - rewrite !py_int_floor by lra. by apply Qfloor_resp_le.
Qed.

Lemma py_int_comp (x y : Q) : x == y → py_int x = py_int y.
Proof.
  intros E. apply Z.le_antisymm; apply py_int_mono; lra.
Qed.

Lemma py_int_inject (z : Z) : py_int (inject_Z z) = z.
Proof. unfold py_int. simpl. apply Z.quot_1_r. Qed.

Lemma inject_Z_sub (a b : Z) : inject_Z (a - b) == inject_Z a - inject_Z b.
Proof.
  unfold Z.sub. rewrite inject_Z_plus, inject_Z_opp. reflexivity.
Qed.

(** An integer below [x + 1] is at most [int(x) + 1] when [x >= 0]. *)
Lemma Z_lt_py_int_succ (n : Z) (x : Q) :
  0 <= x → inject_Z n < x + 1 → (n ≤ py_int x + 1)%Z.
Proof.
  intros Hx Hn. destruct (py_int_nonneg x Hx) as [_ Hub].
  assert (inject_Z n < inject_Z (py_int x + 2)) as Hlt.
  { replace (py_int x + 2)%Z with ((py_int x + 1) + 1)%Z by lia.
    rewrite (inject_Z_plus (py_int x + 1) 1). change (inject_Z 1) with 1. lra. }
  rewrite <- Zlt_Qlt in Hlt. lia.
Qed.

(** Two coordinates at distance at most [r] fall in chunk columns at most
    [int(r) + 1] apart (all three measured in chunk widths). *)
Lemma py_int_close (a b r : Q) :
  0 <= r → a - b <= r → (py_int a - py_int b ≤ py_int r + 1)%Z.
Proof.
  intros Hr Hab. apply Z_lt_py_int_succ; [done|].
  rewrite inject_Z_sub.
  destruct (Qlt_le_dec a 0) as [Ha|Ha], (Qlt_le_dec b 0) as [Hb|Hb].
  - destruct (py_int_nonpos a ltac:(lra)) as [Ha1 _].
    destruct (py_int_nonpos b ltac:(lra)) as [_ Hb2].
    rewrite inject_Z_sub in Ha1. change (inject_Z 1) with 1 in Ha1. lra.
  - pose proof (py_int_sign_nonpos a ltac:(lra)) as Ha1.
    pose proof (py_int_sign_nonneg b Hb) as Hb1.
    rewrite Zle_Qle in Ha1, Hb1. change (inject_Z 0) with 0 in *. lra.
  - destruct (py_int_nonneg a Ha) as [Ha1 _].
    destruct (py_int_nonpos b ltac:(lra)) as [_ Hb2]. lra.
  - destruct (py_int_nonneg a Ha) as [Ha1 _].
    destruct (py_int_nonneg b Hb) as [_ Hb2].
    rewrite inject_Z_plus in Hb2. change (inject_Z 1) with 1 in Hb2. lra.
Qed.

End py_int_facts.

(** ** The spatial index (world_manager.py) *)

Section spatial_index.
Import Constants Utils World.

Lemma add_to_chunk_indexed c eid chunk_dict :
  indexed (_add_to_chunk c eid chunk_dict) eid c.
Proof.
  unfold indexed, _add_to_chunk. eexists. split; [apply lookup_insert_eq|].
  set_solver.
Qed.

Lemma add_to_chunk_keeps c eid chunk_dict eid' c' :
  indexed chunk_dict eid' c' → indexed (_add_to_chunk c eid chunk_dict) eid' c'.
Proof.
  intros (s & Hs & Hin). unfold indexed, _add_to_chunk.
  destruct (decide (c = c')) as [->|Hne].
  - rewrite Hs. eexists. split; [apply lookup_insert_eq|].
    rewrite Hs. simpl. set_solver.
  - exists s. split; [|done]. rewrite lookup_insert_ne by done.
    destruct (chunk_dict !! c); [done|]. by rewrite lookup_insert_ne.
Qed.

Lemma remove_from_chunk_keeps c eid chunk_dict eid' c' :
  eid' ≠ eid →
  indexed chunk_dict eid' c' → indexed (_remove_from_chunk c eid chunk_dict) eid' c'.
Proof.
  intros Hne (s & Hs & Hin). unfold indexed, _remove_from_chunk.
  destruct (chunk_dict !! c) as [s0|] eqn:Hc; [|by eauto].
  destruct (decide (c = c')) as [->|Hcc].
  - assert (s0 = s) as -> by congruence.
    case_decide as Hempty; [set_solver|].
    eexists. split; [apply lookup_insert_eq|]. set_solver.
  - exists s. split; [|done].
    case_decide; [by rewrite lookup_delete_ne | by rewrite lookup_insert_ne].
Qed.

Lemma init_indexed : world_indexed WorldManager_init.
Proof. split; intros ? ? H; simpl in H; by rewrite lookup_empty in H. Qed.

Lemma add_player_indexed w cid cd :
  world_indexed w → world_indexed (add_player w cid cd).1.
Proof.
  intros [Hp Hn]. split; [|exact Hn].
  intros cid' e. simpl. destruct (decide (cid = cid')) as [->|Hne].
  - rewrite lookup_insert_eq. intros [= <-]. split; [done|].
    apply add_to_chunk_indexed.
  - rewrite lookup_insert_ne by done. intros He.
    destruct (Hp _ _ He) as [? ?]. split; [done|]. by apply add_to_chunk_keeps.
Qed.

Lemma remove_player_indexed w cid :
  world_indexed w → world_indexed (remove_player w cid).
Proof.
  intros [Hp Hn]. unfold remove_player.
  destruct (players w !! cid) as [p|] eqn:Hcid; [|done].
  split; [|exact Hn].
  intros cid' e. simpl. destruct (decide (cid = cid')) as [->|Hne].
  - by rewrite lookup_delete_eq.
  - rewrite lookup_delete_ne by done. intros He.
    destruct (Hp _ _ He) as [? ?]. split; [done|].
    by apply remove_from_chunk_keeps.
Qed.

Lemma update_player_position_indexed w cid x y z rot :
  world_indexed w → world_indexed (update_player_position w cid x y z rot).
Proof.
  intros [Hp Hn]. unfold update_player_position.
  destruct (players w !! cid) as [p|] eqn:Hcid; [|done].
  split; [|exact Hn].
  intros cid' e. simpl. destruct (decide (cid = cid')) as [->|Hne].
  - rewrite lookup_insert_eq. intros [= <-]. split; [done|]. simpl.
    case_decide as Hch.
    + apply add_to_chunk_indexed.
    + simpl in Hch. rewrite Hch.
      by destruct (Hp _ _ Hcid).
  - rewrite lookup_insert_ne by done. intros He.
    destruct (Hp _ _ He) as [? ?]. split; [done|].
    case_decide; [|done].
    by apply add_to_chunk_keeps, remove_from_chunk_keeps.
Qed.

Lemma spawn_npc_indexed w nd pos :
  world_indexed w → world_indexed (spawn_npc w nd pos).1.
Proof.
  intros [Hp Hn]. split; [exact Hp|].
  intros iid e. simpl.
  destruct (decide (next_npc_instance_id w = iid)) as [<-|Hne].
  - rewrite lookup_insert_eq. intros [= <-]. split; [done|].
    apply add_to_chunk_indexed.
  - rewrite lookup_insert_ne by done. intros He.
    destruct (Hn _ _ He) as [? ?]. split; [done|]. by apply add_to_chunk_keeps.
Qed.

Lemma remove_npc_indexed w iid :
  world_indexed w → world_indexed (remove_npc w iid).
Proof.
  intros [Hp Hn]. unfold remove_npc.
  destruct (npcs w !! iid) as [n|] eqn:Hiid; [|done].
  split; [exact Hp|].
  intros iid' e. simpl. destruct (decide (iid = iid')) as [->|Hne].
  - by rewrite lookup_delete_eq.
  - rewrite lookup_delete_ne by done. intros He.
    destruct (Hn _ _ He) as [? ?]. split; [done|].
    by apply remove_from_chunk_keeps.
Qed.

Lemma update_npc_position_indexed w iid x y z rot :
  world_indexed w → world_indexed (update_npc_position w iid x y z rot).
Proof.
  intros [Hp Hn]. unfold update_npc_position.
  destruct (npcs w !! iid) as [n|] eqn:Hiid; [|done].
  split; [exact Hp|].
  intros iid' e. simpl. destruct (decide (iid = iid')) as [->|Hne].
  - rewrite lookup_insert_eq. intros [= <-]. split; [done|]. simpl.
    case_decide as Hch.
    + apply add_to_chunk_indexed.
    + simpl in Hch. rewrite Hch.
      by destruct (Hn _ _ Hiid).
  - rewrite lookup_insert_ne by done. intros He.
    destruct (Hn _ _ He) as [? ?]. split; [done|].
    case_decide; [|done].
    by apply add_to_chunk_keeps, remove_from_chunk_keeps.
Qed.

Lemma apply_op_indexed w op : world_indexed w → world_indexed (apply_op w op).
Proof.
  intros Hw. destruct op; simpl.
  - by apply add_player_indexed.
  - by apply remove_player_indexed.
  - by apply update_player_position_indexed.
  - by apply spawn_npc_indexed.
  - by apply remove_npc_indexed.
  - by apply update_npc_position_indexed.
Qed.

Lemma run_ops_indexed ops w : world_indexed w → world_indexed (run_ops ops w).
Proof.
  revert w. induction ops as [|op ops IH]; intros w Hw; [done|].
  simpl. apply IH. by apply apply_op_indexed.
Qed.

End spatial_index.

(** ** Proximity queries never miss an entity within the radius *)

Section nearby.
Import Constants Utils World.
Local Open Scope Q_scope.

Lemma elem_of_range (lo hi k : Z) : k ∈ range lo hi ↔ (lo ≤ k < hi)%Z.
Proof. unfold range. rewrite elem_of_seqZ. lia. Qed.

Lemma elem_of_get_surrounding_chunks (c c' : Z * Z) (n : Z) :
  c' ∈ get_surrounding_chunks c n ↔
  (- n ≤ c'.1 - c.1 ≤ n)%Z ∧ (- n ≤ c'.2 - c.2 ≤ n)%Z.
Proof.
  unfold get_surrounding_chunks. rewrite list_elem_of_bind. split.
  - intros (dx & Hin & Hdx). apply list_elem_of_bind in Hin as (dz & Hin & Hdz).
    apply list_elem_of_singleton in Hin as ->.
    apply elem_of_range in Hdx, Hdz. simpl. lia.
  - intros [Hx Hz]. exists (c'.1 - c.1)%Z. split; [|apply elem_of_range; lia].
    apply list_elem_of_bind. exists (c'.2 - c.2)%Z.
    split; [|apply elem_of_range; lia].
    apply list_elem_of_singleton. destruct c, c'; simpl. f_equal; lia.
Qed.

(** A point within exact distance [r] differs by at most [r] on each axis. *)
Lemma distance_sq_axes (p q : Vec3) (r : Q) :
  0 <= r → calculate_distance_sq p q <= r * r →
  (px p - px q <= r ∧ px q - px p <= r) ∧ (pz p - pz q <= r ∧ pz q - pz p <= r).
Proof.
  unfold calculate_distance_sq. cbv zeta. intros Hr Hd.
  set (dx := px p - px q) in *. set (dy := py p - py q) in *.
  set (dz := pz p - pz q) in *.
  assert (px q - px p == - dx) as -> by (unfold dx; ring).
  assert (pz q - pz p == - dz) as -> by (unfold dz; ring).
  assert (0 <= dx * dx) by nra. assert (0 <= dy * dy) by nra.
  assert (0 <= dz * dz) by nra.
  repeat split; nra.
Qed.

Lemma chunk_axis_close (a b r : Q) :
  0 <= r → a - b <= r →
  (py_int (a / CHUNK_SIZE) - py_int (b / CHUNK_SIZE) ≤ py_int (r / CHUNK_SIZE) + 1)%Z.
Proof.
  intros Hr Hab. unfold Qdiv.
  set (k := / CHUNK_SIZE). assert (0 < k) as Hk by reflexivity.
  apply py_int_close; nra.
Qed.

(** The chunk of a point within distance [r] lies in the scanned ring. *)
Lemma chunk_in_ring (p q : Vec3) (r : Q) :
  0 <= r → calculate_distance_sq p q <= r * r →
  get_chunk_id q CHUNK_SIZE ∈
    get_surrounding_chunks (get_chunk_id p CHUNK_SIZE) (py_int (r / CHUNK_SIZE) + 1).
Proof.
  intros Hr Hd. destruct (distance_sq_axes p q r Hr Hd) as [[Hx1 Hx2] [Hz1 Hz2]].
  apply elem_of_get_surrounding_chunks. unfold get_chunk_id. simpl.
  pose proof (chunk_axis_close _ _ _ Hr Hx1).
  pose proof (chunk_axis_close _ _ _ Hr Hx2).
  pose proof (chunk_axis_close _ _ _ Hr Hz1).
  pose proof (chunk_axis_close _ _ _ Hr Hz2).
  lia.
Qed.

Lemma distance_le_true (p q : Vec3) (r : Q) :
  0 <= r → calculate_distance_sq p q <= r * r → distance_le p q r = true.
Proof.
  intros Hr Hd. unfold distance_le.
  apply andb_true_intro. split; by apply Qle_bool_iff.
Qed.

Lemma get_nearby_players_complete w pos r cid e :
  players_indexed w → 0 <= r →
  players w !! cid = Some e →
  calculate_distance_sq pos (position e) <= r * r →
  e ∈ get_nearby_players w pos r.
Proof.
  intros Hinv Hr He Hd. destruct (Hinv _ _ He) as [Hch (s & Hs & Hin)].
  unfold get_nearby_players. apply list_elem_of_bind.
  exists (chunk_id e). split; [|rewrite Hch; by apply chunk_in_ring].
  apply list_elem_of_bind. exists cid. split.
  - rewrite He, (distance_le_true _ _ _ Hr Hd). apply list_elem_of_singleton; done.
  - rewrite Hs. simpl. by apply elem_of_elements.
Qed.

Lemma get_nearby_npcs_complete w pos r iid e :
  npcs_indexed w → 0 <= r →
  npcs w !! iid = Some e →
  calculate_distance_sq pos (npc_position e) <= r * r →
  e ∈ get_nearby_npcs w pos r.
Proof.
  intros Hinv Hr He Hd. destruct (Hinv _ _ He) as [Hch (s & Hs & Hin)].
  unfold get_nearby_npcs. apply list_elem_of_bind.
  exists (npc_chunk_id e). split; [|rewrite Hch; by apply chunk_in_ring].
  apply list_elem_of_bind. exists iid. split.
  - rewrite He, (distance_le_true _ _ _ Hr Hd). apply list_elem_of_singleton; done.
  - rewrite Hs. simpl. by apply elem_of_elements.
Qed.


End nearby.

Section nearby_witness.
Import Constants Utils World.
Local Open Scope Q_scope.


End nearby_witness.

(** ** Basic attacks (combat_system.py) *)

Section basic_attack_facts.
Import Constants Utils World GameData Combat.

Lemma player_apply_damage_spec p damage p1 died :
  player_apply_damage p damage = (p1, died) →
  hp p1 = Z.max 0 (hp p - damage) ∧ (died = true ↔ hp p1 = 0).
Proof.
  unfold player_apply_damage. simpl.
  destruct (Z.max 0 (hp p - damage) =? 0) eqn:E; intros [= <- <-]; simpl.
  - apply Z.eqb_eq in E. by rewrite E.
  - apply Z.eqb_neq in E. split; [done|]. split; [done|]. intros; lia.
Qed.

Lemma target_apply_damage_spec w target_id target_type t damage w1 t1 died :
  lookup_target w target_id target_type = Some (Some t) →
  target_apply_damage w target_id t damage = (w1, t1, died) →
  lookup_target w1 target_id target_type = Some (Some t1) ∧
  target_hp t1 = Z.max 0 (target_hp t - damage) ∧
  (died = true ↔ target_hp t1 = 0).
Proof.
  unfold lookup_target, get_player, get_npc. intros Hl Ha.
  repeat case_decide; try done.
  - destruct (players w !! target_id) as [p|] eqn:Hp; [|done].
    injection Hl as <-. simpl in Ha.
    destruct (player_apply_damage p damage) as [p1 d] eqn:Hd.
    injection Ha as <- <- <-. simpl. rewrite lookup_insert_eq.
    split; [done|]. by apply player_apply_damage_spec.
  - destruct (npcs w !! target_id) as [n|] eqn:Hn; [|done].
    injection Hl as <-. simpl in Ha.
    injection Ha as <- <- <-. simpl. rewrite lookup_insert_eq.
    split; [done|]. split; [done|]. apply Z.eqb_eq.
Qed.

(** Stamping the attacker's cooldown leaves every hit-point value alone. *)
Lemma registry_hp_set_last_attack_time w cid now target_id target_type :
  registry_hp (modify_player w cid (λ a, player_set_last_attack_time a now))
    target_id target_type
  = registry_hp w target_id target_type.
Proof.
  unfold registry_hp, lookup_target, get_player, get_npc, modify_player. simpl.
  repeat case_decide; try done.
  rewrite lookup_alter. case_decide as E; [|done].
  subst. by destruct (players w !! target_id).
Qed.

(** C5.  When [basic_attack] returns a result, the target's hit points
    in the registry afterwards are the reported [target_hp], they are
    [max(0, hp_before - damage)] and hence never negative and exactly 0 when
    the damage reaches the remaining hit points, and [target_died] is true
    iff they are 0. *)
Theorem basic_attack_hp_floor cs attacker_id target_id target_type now variance cs' res :
  basic_attack cs attacker_id target_id target_type now variance
    = (cs', Returned (Some res)) →
  ∃ hp_before,
    registry_hp (world cs) target_id target_type = Some hp_before ∧
    registry_hp (world cs') target_id target_type = Some (r_target_hp res) ∧
    0 ≤ r_target_hp res ∧
    (hp_before ≤ r_damage res → r_target_hp res = 0) ∧
    (r_target_died res = true ↔ r_target_hp res = 0).
Proof.
  unfold basic_attack. intros H.
  destruct (get_player (world cs) attacker_id) as [attacker|]; [|done].
  destruct (is_dead attacker); [done|].
  destruct (negb (can_attack attacker now ATTACK_COOLDOWN)); [done|].
  destruct (lookup_target (world cs) target_id target_type) as [[target|]|] eqn:Hl;
    [|done|done].
  destruct (distance_gt _ _ _); [done|].
  destruct (calculate_damage _ _ _ _ _) as [damage|] eqn:Hdmg; [|done].
  destruct (target_apply_damage (world cs) target_id target damage)
    as [[w1 t1] died] eqn:Ha.
  injection H as <- <-. simpl.
  destruct (target_apply_damage_spec _ _ _ _ _ _ _ _ Hl Ha) as (Hl1 & Hhp & Hdied).
  exists (target_hp target). split; [unfold registry_hp; by rewrite Hl|].
  rewrite registry_hp_set_last_attack_time.
  split; [unfold registry_hp; by rewrite Hl1|].
  split; [lia|]. split; [lia|done].
Qed.

End basic_attack_facts.

Section basic_attack_witness.
Import Constants Utils World GameData Combat.

Lemma basic_attack_hp_floor_witness :
  ∃ cs' res,
    basic_attack duel 1 1 "npc" 10%Q 1%Q = (cs', Returned (Some res)) ∧
    r_damage res = 9 ∧ r_target_hp res = 0 ∧ r_target_died res = true ∧
    ∃ hp_before,
      registry_hp (world duel) 1 "npc" = Some hp_before ∧
      registry_hp (world cs') 1 "npc" = Some (r_target_hp res) ∧
      0 ≤ r_target_hp res ∧
      (hp_before ≤ r_damage res → r_target_hp res = 0) ∧
      (r_target_died res = true ↔ r_target_hp res = 0).
Proof.
  eexists; eexists. split; [vm_compute; reflexivity|].
  split; [reflexivity|]. split; [reflexivity|]. split; [reflexivity|].
  apply (basic_attack_hp_floor duel 1 1 "npc" 10%Q 1%Q).
  vm_compute; reflexivity.
Defined.

End basic_attack_witness.

(** ** The success score (utils.py, calculate_success_score) *)

Section success_score.
Import Constants Utils.
Local Open Scope Q_scope.

(** The five weights add up to one. *)
Lemma success_weights_sum :
  LEVEL_WEIGHT + KILLS_WEIGHT + TERRITORY_WEIGHT + BOSS_KILLS_WEIGHT
    + PLAYTIME_WEIGHT == 1.
Proof. reflexivity. Qed.

Lemma Qmin_le_r_1 (x : Q) : Qmin x 1.0 <= 1.
Proof.
  pose proof (Q.le_min_r x 1.0) as H.
  assert (1.0 == 1) as E by reflexivity. by rewrite E in H at 2.
Qed.

Lemma Qmin_nonneg_1 (x : Q) : 0 <= x → 0 <= Qmin x 1.0.
Proof. intros H. apply Q.min_glb; [done|by vm_compute]. Qed.

Lemma inject_Z_div_nonneg (z : Z) (k : Q) : (0 ≤ z)%Z → 0 < k → 0 <= inject_Z z / k.
Proof.
  intros Hz Hk. apply Qle_shift_div_l; [done|].
  rewrite Zle_Qle in Hz. change (inject_Z 0) with 0 in Hz. lra.
Qed.

(** With the level inside [0, MAX_LEVEL] and the four counters
    non-negative, the score is in [0, 1]. *)
Lemma success_score_bounded (d : gmap string Z) :
  (0 ≤ dict_get d "level" 1 ≤ MAX_LEVEL)%Z →
  (0 ≤ dict_get d "total_kills" 0)%Z →
  (0 ≤ dict_get d "territory_control_time" 0)%Z →
  (0 ≤ dict_get d "boss_kills" 0)%Z →
  (0 ≤ dict_get d "playtime" 0)%Z →
  0 <= calculate_success_score d <= 1.
Proof.
  intros [Hl0 Hl1] Hk Ht Hb Hp. unfold calculate_success_score. cbv zeta.
  set (lv := inject_Z (dict_get d "level" 1) / inject_Z MAX_LEVEL).
  assert (0 <= lv <= 1) as Hlv.
  { unfold lv. split.
    - apply inject_Z_div_nonneg; [done|reflexivity].
    - apply Qle_shift_div_r; [reflexivity|].
      rewrite Zle_Qle in Hl1. lra. }
  pose proof (Qmin_le_r_1 (inject_Z (dict_get d "total_kills" 0) / 1000)).
  pose proof (Qmin_le_r_1 (inject_Z (dict_get d "territory_control_time" 0) / 360000)).
  pose proof (Qmin_le_r_1 (inject_Z (dict_get d "boss_kills" 0) / 50)).
  pose proof (Qmin_le_r_1 (inject_Z (dict_get d "playtime" 0) / 720000)).
  pose proof (Qmin_nonneg_1 _ (inject_Z_div_nonneg _ 1000 Hk eq_refl)).
  pose proof (Qmin_nonneg_1 _ (inject_Z_div_nonneg _ 360000 Ht eq_refl)).
  pose proof (Qmin_nonneg_1 _ (inject_Z_div_nonneg _ 50 Hb eq_refl)).
  pose proof (Qmin_nonneg_1 _ (inject_Z_div_nonneg _ 720000 Hp eq_refl)).
  unfold LEVEL_WEIGHT, KILLS_WEIGHT, TERRITORY_WEIGHT, BOSS_KILLS_WEIGHT,
    PLAYTIME_WEIGHT.
  split; lra.
Qed.

(** C8.  The level metric is the only one of the five that is not
    clamped: on [overlevelled_life] the score is 1.1, outside [0, 1]. *)
Theorem success_score_level_not_clamped :
  calculate_success_score overlevelled_life == 11 # 10 ∧
  ¬ calculate_success_score overlevelled_life <= 1.
Proof. split; by vm_compute. Qed.

End success_score.

(** ** Reincarnation perks (reincarnation_system.py) *)

Section reincarnation.
Import Constants Utils Reincarnation.
Local Open Scope Q_scope.







End reincarnation.

Section reincarnation_examples.
Import Constants Utils Reincarnation.
Local Open Scope Q_scope.



End reincarnation_examples.

(** ** The damage formula (utils.py, calculate_damage) *)

Section damage_formula.
Import Constants Utils.
Local Open Scope Q_scope.










End damage_formula.

Section damage_formula_examples.
Import Constants Utils.
Local Open Scope Q_scope.



End damage_formula_examples.

(** ** Hit-point and mana bounds of players *)

Section player_bounds.
Import Constants Utils World GameData Combat.













End player_bounds.

Section player_bounds_examples.
Import Constants Utils World GameData Combat.





End player_bounds_examples.

(** ** Skill use: rejections (combat_system.py, use_skill) *)

Section use_skill_rejections.
Import Constants Utils World GameData Combat.

(** The leading validations (caster missing or dead, unknown skill, MP
    below the cost, skill on cooldown, level below the requirement) return
    [None] and leave the combat system as it was. *)
Lemma use_skill_early_rejection cs caster_id skill_id target_id target_type now variance :
  (get_player (world cs) caster_id = None ∨
   ∃ caster, get_player (world cs) caster_id = Some caster ∧
     (is_dead caster = true ∨
      get_skill_data skill_id = None ∨
      ∃ sd, get_skill_data skill_id = Some sd ∧
        (mp caster < default 0 (mp_cost sd) ∨
         _check_skill_cooldown cs caster_id skill_id now = false ∨
         level caster < default 1 (required_level sd)))) →
  use_skill cs caster_id skill_id target_id target_type now variance
  = (cs, Returned None).
Proof.
  unfold use_skill. intros [->|(caster & -> & H)]; [done|].
  destruct (is_dead caster); [done|].
  destruct H as [?|[->|(sd & -> & H)]]; [done|done|].
  destruct (mp caster <? default 0 (mp_cost sd)) eqn:Hmp; [done|].
  apply Z.ltb_ge in Hmp.
  destruct H as [?|[->|H]]; [lia|done|].
  destruct (negb _); [done|].
  apply Z.ltb_lt in H. by rewrite H.
Qed.

(** Every [None] of [use_skill] is one of two states: untouched, or
    charged (the target checks come after the MP deduction). *)
Lemma use_skill_rejection_states cs caster_id skill_id target_id target_type now variance cs' :
  use_skill cs caster_id skill_id target_id target_type now variance
  = (cs', Returned None) →
  cs' = cs ∨ ∃ sd, get_skill_data skill_id = Some sd ∧
                   cs' = charged cs caster_id skill_id sd now.
Proof.
  unfold use_skill. intros H.
  destruct (get_player (world cs) caster_id) as [caster|]; [|left; congruence].
  destruct (is_dead caster); [left; congruence|].
  destruct (get_skill_data skill_id) as [sd|]; [|left; congruence].
  destruct (mp caster <? _); [left; congruence|].
  destruct (negb _); [left; congruence|].
  destruct (level caster <? _); [left; congruence|].
  right. exists sd. split; [done|]. fold (charged cs caster_id skill_id sd now) in H.
  case_decide; [done|].
  destruct target_id as [tid|]; [|congruence].
  destruct (lookup_target _ _ _) as [[target|]|]; [|congruence|congruence].
  destruct (distance_gt _ _ _); [congruence|].
  destruct (calculate_damage _ _ _ _ _); [|done].
  destruct (target_apply_damage _ _ _ _) as [[? ?] ?].
  destruct (negb _); [|done].
  by destruct (foldl _ _ _).
Qed.

(** C3.  A cast of Slash with no target by the default player of [duel]
    (mp 50, no cooldown running) is rejected with [None], yet the caster's
    mp has dropped to 40 and a cooldown entry for Slash now ends at 13. *)
Theorem use_skill_rejection_charges_caster :
  ∃ cs',
    use_skill duel 1 SLASH None "npc" 10%Q 1%Q = (cs', Returned None) ∧
    mp <$> players (world duel) !! 1 = Some 50 ∧
    mp <$> players (world cs') !! 1 = Some 40 ∧
    active_cooldowns duel !! 1 = None ∧
    ∃ cooldown_end,
      (active_cooldowns cs' !! 1 ≫= λ per_skill, per_skill !! SLASH)
        = Some cooldown_end ∧
      (cooldown_end == 13)%Q.
Proof.
  eexists. split; [vm_compute; reflexivity|].
  split; [reflexivity|]. split; [reflexivity|]. split; [reflexivity|].
  eexists. split; [vm_compute; reflexivity|]. reflexivity.
Qed.

End use_skill_rejections.

(** ** The packet codec (protocol.py) *)

Section codec_bytes.
Import Protocol.

Lemma Z_of_byte_range (b : byte) : 0 ≤ Z_of_byte b < 256.
Proof.
  unfold Z_of_byte. pose proof (Byte.to_N_bounded b). lia.
Qed.

Lemma Z_of_byte_of_Z (z : Z) : Z_of_byte (byte_of_Z z) = z mod 256.
Proof.
  unfold Z_of_byte, byte_of_Z.
  assert (0 ≤ z mod 256 < 256) as Hr by (apply Z.mod_pos_bound; lia).
  destruct (Byte.of_N (Z.to_N (z mod 256))) as [b|] eqn:E.
  - simpl. apply Byte.to_of_N in E. rewrite E. lia.
  - apply Byte.of_N_None_iff in E. lia.
Qed.

Lemma length_pack_be (n : nat) (v : Z) : length (pack_be n v) = n.
Proof. induction n as [|n IH]; simpl; [done|by rewrite IH]. Qed.

Lemma unpack_be_acc (acc : Z) (bs : bytes) :
  foldl (λ acc b, acc * 256 + Z_of_byte b) acc bs
  = acc * 256 ^ Z.of_nat (length bs) + unpack_be bs.
Proof.
  unfold unpack_be. revert acc. induction bs as [|b bs IH]; intros acc.
  - simpl. lia.
  - cbn [foldl length]. rewrite IH, (IH (0 * 256 + Z_of_byte b)).
    rewrite Nat2Z.inj_succ, Z.pow_succ_r by lia. lia.
Qed.

Lemma unpack_be_cons (b : byte) (bs : bytes) :
  unpack_be (b :: bs) = Z_of_byte b * 256 ^ Z.of_nat (length bs) + unpack_be bs.
Proof.
  unfold unpack_be at 1. cbn [foldl]. rewrite unpack_be_acc. lia.
Qed.

(** Big-endian packing keeps the low [8n] bits. *)
Lemma unpack_pack_be (n : nat) (v : Z) :
  unpack_be (pack_be n v) = v mod 2 ^ (8 * Z.of_nat n).
Proof.
  induction n as [|n IH].
  - simpl. by rewrite Z.mod_1_r.
  - cbn [pack_be]. rewrite unpack_be_cons, length_pack_be, IH, Z_of_byte_of_Z.
    rewrite Z.shiftr_div_pow2 by lia.
    replace (8 * Z.of_nat (S n)) with (8 * Z.of_nat n + 8) by lia.
    rewrite Z.pow_add_r by lia. change (2 ^ 8) with 256.
    rewrite Z.rem_mul_r by lia.
    replace (256 ^ Z.of_nat n) with (2 ^ (8 * Z.of_nat n)); [lia|].
    rewrite Z.pow_mul_r by lia. reflexivity.
Qed.

Lemma unpack_pack_be_small (n : nat) (v : Z) :
  0 ≤ v < 2 ^ (8 * Z.of_nat n) → unpack_be (pack_be n v) = v.
Proof. intros H. rewrite unpack_pack_be. by apply Z.mod_small. Qed.

(** [struct.unpack] inverts [struct.pack], and the packed buffer has
    [calcsize] bytes. *)
Lemma struct_pack_unpack (f : list fmt_char) (vs : list Z) (bs : bytes) :
  struct_pack f vs = Returned bs →
  length bs = calcsize f ∧ unpack_fields f bs = vs.
Proof.
  revert vs bs. induction f as [|c f IH]; intros [|v vs] bs H; simpl in H; try done.
  - by injection H as <-.
  - case_bool_decide as Hv; [|done].
    destruct (struct_pack f vs) as [rest|] eqn:E; [|done].
    injection H as <-. destruct (IH _ _ E) as [Hlen Hun].
    split.
    + rewrite length_app, length_pack_be, Hlen. reflexivity.
    + cbn [unpack_fields].
      rewrite take_app_length' by (by rewrite length_pack_be).
      rewrite drop_app_length' by (by rewrite length_pack_be).
      rewrite unpack_pack_be_small by done. by rewrite Hun.
Qed.

Lemma struct_pack_in_range (f : list fmt_char) (vs : list Z) :
  Forall2 (λ c v, 0 ≤ v < 2 ^ (8 * Z.of_nat (fmt_size c))) f vs →
  ∃ bs, struct_pack f vs = Returned bs.
Proof.
  induction 1 as [|c v f vs Hv _ [rest IH]]; simpl; [by eexists|].
  rewrite bool_decide_true by done. rewrite IH. by eexists.
Qed.

Lemma checksum_range (data : bytes) : 0 ≤ _calculate_checksum data < 256.
Proof.
  unfold _calculate_checksum. change 255 with (Z.ones 8).
  rewrite Z.land_ones by lia. apply Z.mod_pos_bound. lia.
Qed.

Lemma packet_type_value_range (t : PacketType) : 0 ≤ packet_type_value t < 65536.
Proof. destruct t; simpl; lia. Qed.

Lemma PacketType_of_value_value (t : PacketType) :
  PacketType_of_value (packet_type_value t) = Returned t.
Proof. destruct t; reflexivity. Qed.

Lemma header_size : HEADER_SIZE = 10%nat.
Proof. reflexivity. Qed.

End codec_bytes.

Section codec_roundtrip.
Import Protocol.
Context {zlib : Zlib} {zlib_spec : ZlibSpec zlib}.

(** Decoding a frame whose header packs the five fields. *)
Lemma deserialize_frame (t : PacketType) (payload1 : bytes) (seq flags : Z)
    (header : bytes) :
  struct_pack HEADER_FORMAT
    [packet_type_value t; Z.of_nat (length payload1); seq; flags;
     _calculate_checksum payload1] = Returned header →
  deserialize (header ++ payload1)
  = (payload2 ← (if bool_decide (Z.land flags 1 ≠ 0)
                 then match zlib_decompress payload1 with
                      | Some d => Returned d
                      | None => Raised ZlibError
                      end
                 else Returned payload1);
     Returned {| packet_type := t; payload := payload2;
                 compressed := bool_decide (Z.land flags 1 ≠ 0);
                 encrypted := bool_decide (Z.land flags 2 ≠ 0);
                 sequence := seq |}).
Proof.
  intros Hpack. destruct (struct_pack_unpack _ _ _ Hpack) as [Hlen Hfields].
  fold HEADER_SIZE in Hlen. unfold deserialize.
  rewrite bool_decide_false by (rewrite length_app; lia).
  rewrite take_app_length' by done.
  unfold struct_unpack. rewrite bool_decide_true by done.
  rewrite Hfields. cbn [mbind outcome_bind].
  rewrite bool_decide_false by (rewrite length_app; lia).
  rewrite drop_app_length' by done.
  rewrite Nat2Z.id, firstn_all.
  rewrite bool_decide_false by (intros H; by apply H).
  rewrite PacketType_of_value_value.
  destruct (bool_decide (Z.land flags 1 ≠ 0)); [|done].
  by destruct (zlib_decompress payload1).
Qed.

Lemma compressed_length_fits (data : bytes) :
  Z.of_nat (length data) ≤ MAX_PAYLOAD_SIZE →
  0 ≤ Z.of_nat (length (zlib_compress data)) < 2 ^ 32.
Proof.
  unfold MAX_PAYLOAD_SIZE. intros H.
  pose proof (zlib_compress_bound data) as Hb. unfold compressBound in Hb.
  set (n := Z.of_nat (length data)) in *.
  pose proof (Z.div_le_mono n 65535 4096 ltac:(lia) ltac:(lia)).
  pose proof (Z.div_le_mono n 65535 16384 ltac:(lia) ltac:(lia)).
  pose proof (Z.div_le_mono n 65535 33554432 ltac:(lia) ltac:(lia)).
  change (65535 / 4096) with 15 in *. change (65535 / 16384) with 3 in *.
  change (65535 / 33554432) with 0 in *. change (2 ^ 32) with 4294967296.
  lia.
Qed.

(** A packet that is not yet marked compressed, with a 16-bit sequence
    number and a payload within MAX_PAYLOAD_SIZE, serializes to the packed
    header followed by [frame_body], and the frame decodes to the packet as
    [serialize] left it: same type, payload, encryption flag and sequence,
    [compressed] set exactly when the payload was longer than 512 bytes. *)
Lemma deserialize_serialize (p : Packet) :
  Z.of_nat (length (payload p)) ≤ MAX_PAYLOAD_SIZE →
  compressed p = false →
  0 ≤ sequence p < 65536 →
  let body := frame_body (payload p) in
  let p1 := set_compressed p (bool_decide (512 < length (payload p))%nat) in
  ∃ header,
    struct_pack HEADER_FORMAT
      [packet_type_value (packet_type p); Z.of_nat (length body); sequence p;
       frame_flags (payload p) (encrypted p); _calculate_checksum body]
      = Returned header ∧
    serialize p = (p1, Returned (header ++ body)) ∧
    deserialize (header ++ body) = Returned p1.
Proof.
  intros Hlen Hc Hseq. destruct p as [t pl c e s]. simpl in Hlen, Hc, Hseq.
  subst c. cbv zeta.
  unfold serialize, frame_body, frame_flags.
  cbn [payload compressed encrypted packet_type sequence negb].
  rewrite andb_true_r.
  pose proof (packet_type_value_range t) as Ht.
  destruct (bool_decide (512 < length pl)%nat) eqn:Hlong;
    cbn [compressed encrypted set_compressed packet_type payload sequence].
  - assert ((if e then Z.lor (Z.lor 0 1) 2 else Z.lor 0 1)
            = Z.lor 1 (if e then 2 else 0)) as -> by (by destruct e).
    destruct (struct_pack_in_range HEADER_FORMAT
      [packet_type_value t; Z.of_nat (length (zlib_compress pl)); s;
       Z.lor 1 (if e then 2 else 0);
       _calculate_checksum (zlib_compress pl)]) as [header Hh].
    { constructor; [exact Ht|].
      constructor; [by apply compressed_length_fits|].
      constructor; [exact Hseq|].
      constructor; [by destruct e; vm_compute|].
      constructor; [apply checksum_range|]. constructor. }
    exists header. rewrite Hh. split; [done|]. split; [done|].
    rewrite (deserialize_frame _ _ _ _ _ Hh).
    rewrite zlib_decompress_compress. by destruct e.
  - assert ((if e then Z.lor 0 2 else 0)
            = Z.lor 0 (if e then 2 else 0)) as -> by (by destruct e).
    destruct (struct_pack_in_range HEADER_FORMAT
      [packet_type_value t; Z.of_nat (length pl); s;
       Z.lor 0 (if e then 2 else 0);
       _calculate_checksum pl]) as [header Hh].
    { unfold MAX_PAYLOAD_SIZE in Hlen.
      constructor; [exact Ht|].
      constructor;
        [change (2 ^ (8 * Z.of_nat (fmt_size fmt_I))) with 4294967296; lia|].
      constructor; [exact Hseq|].
      constructor; [by destruct e; vm_compute|].
      constructor; [apply checksum_range|]. constructor. }
    exists header. rewrite Hh. split; [done|]. split; [done|].
    rewrite (deserialize_frame _ _ _ _ _ Hh). by destruct e.
Qed.

(** C4.  For every packet type and every payload of at most
    MAX_PAYLOAD_SIZE bytes, [Packet(type, payload).serialize()] returns a
    frame that [deserialize] decodes to a packet of the same type with the
    same payload bytes.  The frame is a header of HEADER_SIZE bytes followed
    by the body; when the payload is longer than 512 bytes the body is the
    zlib-compressed payload and the flags field is 1 (bit 0 set), otherwise
    the body is the payload itself and the flags field is 0. *)
Theorem packet_roundtrip (t : PacketType) (data : bytes) :
  Z.of_nat (length data) ≤ MAX_PAYLOAD_SIZE →
  ∃ header body p',
    (serialize (Packet_new t data)).2 = Returned (header ++ body) ∧
    deserialize (header ++ body) = Returned p' ∧
    packet_type p' = t ∧
    payload p' = data ∧
    length header = HEADER_SIZE ∧
    body = (if bool_decide (512 < length data)%nat then zlib_compress data else data) ∧
    unpack_fields HEADER_FORMAT header
    = [packet_type_value t; Z.of_nat (length body); 0;
       if bool_decide (512 < length data)%nat then 1 else 0;
       _calculate_checksum body] ∧
    compressed p' = bool_decide (512 < length data)%nat.
Proof.
  intros Hlen.
  destruct (deserialize_serialize (Packet_new t data) Hlen eq_refl ltac:(simpl; lia))
    as (header & Hh & Hs & Hd).
  destruct (struct_pack_unpack _ _ _ Hh) as [Hsize Hfields].
  exists header, (frame_body data),
    (set_compressed (Packet_new t data) (bool_decide (512 < length data)%nat)).
  cbn [payload Packet_new] in *.
  rewrite Hs. split; [done|]. split; [done|]. split; [done|]. split; [done|].
  split; [done|]. split; [done|]. split; [|done].
  rewrite Hfields. unfold frame_flags. cbn [encrypted packet_type sequence].
  by case_bool_decide.
Qed.

(** C6.  The header format is '!HIHBB': ten bytes, with a 2-byte
    sequence field.  A packet whose sequence number is 65536, below 2^32,
    does not serialize: [struct.pack] raises. *)
Theorem sequence_field_is_16_bit :
  HEADER_SIZE = 10%nat ∧
  fmt_size <$> HEADER_FORMAT = [2; 4; 2; 1; 1]%nat ∧
  (serialize {| packet_type := PING; payload := []; compressed := false;
                encrypted := false; sequence := 65536 |}).2
  = Raised StructError.
Proof. repeat split. Qed.

End codec_roundtrip.

Section codec_examples.
Import Protocol.

Lemma stored_zlib_spec : ZlibSpec stored_zlib.
Proof.
  split; [done|]. intros d. unfold compressBound. simpl.
  set (n := Z.of_nat (length d)).
  assert (0 ≤ n) by lia.
  pose proof (Z.div_pos n 4096 ltac:(lia) ltac:(lia)).
  pose proof (Z.div_pos n 16384 ltac:(lia) ltac:(lia)).
  pose proof (Z.div_pos n 33554432 ltac:(lia) ltac:(lia)).
  lia.
Qed.

Lemma packet_roundtrip_witness :
  (∃ header body p',
     (@serialize stored_zlib (Packet_new CHAT_MESSAGE short_payload)).2
       = Returned (header ++ body) ∧
     @deserialize stored_zlib (header ++ body) = Returned p' ∧
     packet_type p' = CHAT_MESSAGE ∧
     payload p' = short_payload ∧
     length header = HEADER_SIZE ∧
     body = (if bool_decide (512 < length short_payload)%nat
             then @zlib_compress stored_zlib short_payload else short_payload) ∧
     unpack_fields HEADER_FORMAT header
     = [packet_type_value CHAT_MESSAGE; Z.of_nat (length body); 0;
        if bool_decide (512 < length short_payload)%nat then 1 else 0;
        _calculate_checksum body] ∧
     compressed p' = bool_decide (512 < length short_payload)%nat) ∧
  (∃ header body p',
     (@serialize stored_zlib (Packet_new WORLD_ANNOUNCEMENT long_payload)).2
       = Returned (header ++ body) ∧
     @deserialize stored_zlib (header ++ body) = Returned p' ∧
     packet_type p' = WORLD_ANNOUNCEMENT ∧
     payload p' = long_payload ∧
     length header = HEADER_SIZE ∧
     body = (if bool_decide (512 < length long_payload)%nat
             then @zlib_compress stored_zlib long_payload else long_payload) ∧
     unpack_fields HEADER_FORMAT header
     = [packet_type_value WORLD_ANNOUNCEMENT; Z.of_nat (length body); 0;
        if bool_decide (512 < length long_payload)%nat then 1 else 0;
        _calculate_checksum body] ∧
     compressed p' = bool_decide (512 < length long_payload)%nat).
Proof.
  split.
  - apply (@packet_roundtrip stored_zlib stored_zlib_spec CHAT_MESSAGE short_payload).
    by vm_compute.
  - apply (@packet_roundtrip stored_zlib stored_zlib_spec WORLD_ANNOUNCEMENT long_payload).
    by vm_compute.
Defined.

End codec_examples.

(** ** Territory capture (territory_system.py) *)

Section territory_step.
Import Constants Utils World Territory.
Local Open Scope Q_scope.

(** An attempt whose clock started at [now] has made no progress. *)
Lemma fresh_attempt_incomplete (t : TerritoryState) (now : Q) :
  capture_start_time t == now →
  Qle_bool 1.0 (get_capture_progress t now) = false.
Proof.
  intros Hs. apply not_true_is_false. intros H. apply Qle_bool_iff in H.
  unfold get_capture_progress in H.
  destruct (negb (is_being_captured t)); [by vm_compute in H|].
  pose proof (Q.le_min_l ((now - capture_start_time t) / TERRITORY_CAPTURE_TIME) 1.0) as Hm.
  unfold Qdiv in *. change (/ TERRITORY_CAPTURE_TIME) with (1 # 60) in *.
  set (m := Qmin ((now - capture_start_time t) * (1 # 60)) 1.0) in *.
  assert (1.0 == 1) as E by reflexivity. rewrite E in H. lra.
Qed.

(** Full progress means the capture time has elapsed since the recorded
    start. *)
Lemma full_progress_elapsed (t : TerritoryState) (now : Q) :
  Qle_bool 1.0 (get_capture_progress t now) = true →
  TERRITORY_CAPTURE_TIME <= now - capture_start_time t.
Proof.
  intros H. apply Qle_bool_iff in H. unfold get_capture_progress in H.
  destruct (negb (is_being_captured t)); [by vm_compute in H|].
  pose proof (Q.le_min_l ((now - capture_start_time t) / TERRITORY_CAPTURE_TIME) 1.0) as Hm.
  unfold Qdiv in *. change (/ TERRITORY_CAPTURE_TIME) with (1 # 60) in *.
  set (m := Qmin ((now - capture_start_time t) * (1 # 60)) 1.0) in *.
  assert (1.0 == 1) as E by reflexivity. rewrite E in H.
  unfold TERRITORY_CAPTURE_TIME. lra.
Qed.

Lemma loop_state_mono t now clock seen seen' s :
  seen ⊆ seen' → loop_state t now clock seen s → loop_state t now clock seen' s.
Proof.
  intros Hsub [->|[(Hn & j & Hj & ->)|(i & Hi & Hin & Hp & Hs)]].
  - by left.
  - right; left. split; [done|]. exists j. split; [by apply Hsub|done].
  - right; right. exists i. split; [done|]. split; [by apply Hsub|].
    split; [done|]. destruct Hs as [->|(j & Hj & ->)]; [by left|].
    right. exists j. split; [by apply Hsub|done].
Qed.

(** A started attempt is not touched by the rest of the loop. *)
Lemma player_step_started (now clock : Q) (t : TerritoryState) (j : Z) calls p :
  (player_step now clock (start_capture t j now, calls) p).1 = start_capture t j now.
Proof.
  unfold player_step. case_decide; [done|].
  assert (is_being_captured (start_capture t j now) = true) as ->
    by (by apply bool_decide_eq_true).
  cbn [negb]. case_decide; [|done].
  rewrite fresh_attempt_incomplete; [done|]. simpl. reflexivity.
Qed.

Lemma player_step_loop_state t now clock seen s calls p :
  loop_state t now clock seen s →
  loop_state t now clock (seen ++ [character_id p])
    (player_step now clock (s, calls) p).1.
Proof.
  intros Hs.
  assert (character_id p ∈ seen ++ [character_id p]) as Hin
    by (apply elem_of_app; right; by apply list_elem_of_singleton).
  assert (seen ⊆ seen ++ [character_id p]) as Hsub
    by (intros x Hx; apply elem_of_app; by left).
  destruct Hs as [->|[(Hn & j & Hj & ->)|(i & Hi & Hiin & Hp & [->|(j & Hj & ->)])]].
  - unfold player_step. case_decide; [by left|].
    destruct (negb (is_being_captured t)) eqn:Hcap.
    + right; left. apply negb_true_iff, bool_decide_eq_false in Hcap.
      split; [by destruct (capturing_player_id t); [exfalso; apply Hcap|]|].
      by exists (character_id p).
    + case_decide as Hme; [|by left].
      destruct (Qle_bool 1.0 (get_capture_progress t now)) eqn:Hprog; [|by left].
      right; right. exists (character_id p). repeat split; try done. by left.
  - rewrite player_step_started. eapply loop_state_mono; [exact Hsub|].
    right; left. split; [done|]. by exists j.
  - unfold player_step. case_decide.
    + eapply loop_state_mono; [exact Hsub|].
      right; right. exists i. repeat split; try done. by left.
    + assert (is_being_captured (_capture_territory t i clock).1 = false) as ->
        by (apply bool_decide_eq_false; intros H'; by apply H').
      cbn [negb fst].
      right; right. exists i. split; [done|]. split; [by apply Hsub|].
      split; [done|]. right. by exists (character_id p).
  - rewrite player_step_started. eapply loop_state_mono; [exact Hsub|].
    right; right. exists i. repeat split; try done. right. by exists j.
Qed.

Lemma player_loop_state t now clock l seen s calls :
  loop_state t now clock seen s →
  loop_state t now clock (seen ++ (character_id <$> l))
    (foldl (player_step now clock) (s, calls) l).1.
Proof.
  revert seen s calls. induction l as [|p l IH]; intros seen s calls Hs.
  - simpl. by rewrite app_nil_r.
  - cbn [foldl fmap list_fmap].
    destruct (player_step now clock (s, calls) p) as [s1 calls1] eqn:E.
    replace (seen ++ character_id p :: (character_id <$> l))
      with ((seen ++ [character_id p]) ++ (character_id <$> l))
      by (by rewrite <- app_assoc).
    apply IH. change s1 with (s1, calls1).1. rewrite <- E.
    by apply player_step_loop_state.
Qed.

(** The state after one tick, by cases. *)
Lemma tick_territory_cases (t : TerritoryState) (k : Tick) :
  let now := tick_time k in
  let present := present_ids t k in
  ((MIN_PLAYERS_TO_CAPTURE ≤ length present)%nat ∧
   loop_state t now (tick_clock k) present (tick_territory t k)) ∨
  ((length present < MIN_PLAYERS_TO_CAPTURE)%nat ∧
   tick_territory t k = (if is_being_captured t then reset_capture t else t)).
Proof.
  intros now present. unfold tick_territory, update_territory.
  assert (length present = length (_get_players_in_territory (tick_players k) t)) as Hlen
    by (unfold present, present_ids; by rewrite length_fmap).
  case_decide as Hmin.
  - left. split; [lia|].
    apply (player_loop_state t now (tick_clock k) _ [] t []). by left.
  - right. split; [lia|]. by destruct (is_being_captured t).
Qed.

End territory_step.

Section territory_trace.
Import Constants Utils World Territory.
Local Open Scope Q_scope.

Lemma not_captured_None (t : TerritoryState) :
  is_being_captured t = false → capturing_player_id t = None.
Proof.
  unfold is_being_captured. intros H%bool_decide_eq_false.
  destruct (capturing_player_id t); [by exfalso; apply H|done].
Qed.

Lemma loop_state_geometry t now clock seen s :
  loop_state t now clock seen s →
  t_position s = t_position t ∧ radius s = radius t.
Proof.
  intros [->|[(_ & j & _ & ->)|(i & _ & _ & _ & [->|(j & _ & ->)])]]; done.
Qed.

Lemma tick_territory_geometry t k :
  t_position (tick_territory t k) = t_position t ∧
  radius (tick_territory t k) = radius t.
Proof.
  destruct (tick_territory_cases t k) as [[_ Hs]|[_ ->]].
  - by eapply loop_state_geometry.
  - by destruct (is_being_captured t).
Qed.

Lemma run_ticks_geometry t ks :
  t_position (run_ticks t ks) = t_position t ∧
  radius (run_ticks t ks) = radius t.
Proof.
  revert t. induction ks as [|k ks IH]; intros t; [done|].
  change (run_ticks t (k :: ks)) with (run_ticks (tick_territory t k) ks).
  destruct (IH (tick_territory t k)) as [-> ->].
  apply tick_territory_geometry.
Qed.

(** Who is present depends on the territory's geometry only. *)
Lemma present_ids_run t ks k : present_ids (run_ticks t ks) k = present_ids t k.
Proof.
  unfold present_ids, _get_players_in_territory.
  by destruct (run_ticks_geometry t ks) as [-> ->].
Qed.

Lemma run_ticks_snoc t ks k :
  run_ticks t (ks ++ [k]) = tick_territory (run_ticks t ks) k.
Proof. unfold run_ticks. by rewrite foldl_app. Qed.

(** A tick changes the controller only by committing the attempt that was
    running when the tick began, for its own capturer, present at this
    tick, after the capture time. *)
Lemma tick_commit (t : TerritoryState) (k : Tick) :
  controller_id (tick_territory t k) ≠ controller_id t →
  ∃ i, capturing_player_id t = Some i ∧
       controller_id (tick_territory t k) = Some i ∧
       i ∈ present_ids t k ∧
       TERRITORY_CAPTURE_TIME <= tick_time k - capture_start_time t.
Proof.
  intros Hch. destruct (tick_territory_cases t k) as [[_ Hs]|[_ E]].
  - destruct Hs as [E|[(_ & j & _ & E)|(i & Hi & Hin & Hp & Hs)]].
    + by rewrite E in Hch.
    + by rewrite E in Hch.
    + exists i. split; [done|]. split; [|split; [done|by apply full_progress_elapsed]].
      by destruct Hs as [->|(j & _ & ->)].
  - rewrite E in Hch. by destruct (is_being_captured t).
Qed.

(** An attempt standing after a tick was either standing before it, with
    enough players present at the tick, or was started at this tick by a
    present player. *)
Lemma tick_attempt (t : TerritoryState) (k : Tick) (i : Z) :
  capturing_player_id (tick_territory t k) = Some i →
  (capturing_player_id t = Some i ∧
   capture_start_time (tick_territory t k) = capture_start_time t ∧
   (MIN_PLAYERS_TO_CAPTURE ≤ length (present_ids t k))%nat) ∨
  (i ∈ present_ids t k ∧ capture_start_time (tick_territory t k) = tick_time k).
Proof.
  intros Hc. destruct (tick_territory_cases t k) as [[Hmin Hs]|[_ E]].
  - destruct Hs as [E|[(_ & j & Hj & E)|(i' & _ & _ & _ & [E|(j & Hj & E)])]];
      rewrite E in Hc |- *; simpl in Hc.
    + by left.
    + right. by injection Hc as <-.
    + done.
    + right. by injection Hc as <-.
  - rewrite E in Hc. destruct (is_being_captured t) eqn:Hb; [done|].
    apply not_captured_None in Hb. congruence.
Qed.

(** Too few players present: the attempt is cleared, its progress is zero,
    the controller stays. *)
Lemma tick_reset (t : TerritoryState) (k : Tick) :
  (length (present_ids t k) < MIN_PLAYERS_TO_CAPTURE)%nat →
  capturing_player_id (tick_territory t k) = None ∧
  (∀ now, get_capture_progress (tick_territory t k) now = 0.0) ∧
  controller_id (tick_territory t k) = controller_id t.
Proof.
  intros Hfew. destruct (tick_territory_cases t k) as [[Hmin _]|[_ E]]; [lia|].
  assert (capturing_player_id (tick_territory t k) = None) as Hnone.
  { rewrite E. destruct (is_being_captured t) eqn:Hb; [done|].
    by apply not_captured_None. }
  split; [done|]. split.
  - intros now. unfold get_capture_progress, is_being_captured.
    rewrite Hnone. by rewrite bool_decide_false by (intros H; by apply H).
  - rewrite E. by destruct (is_being_captured t).
Qed.

Lemma run_ticks_attempt_history (t0 : TerritoryState) (ks : list Tick) (i : Z) :
  capturing_player_id t0 = None →
  capturing_player_id (run_ticks t0 ks) = Some i →
  attempt_history t0 ks i.
Proof.
  intros H0. revert i. induction ks as [|k ks IH] using rev_ind; intros i Hc.
  - simpl in Hc. congruence.
  - rewrite run_ticks_snoc in Hc.
    destruct (tick_attempt _ _ _ Hc) as [(Hprev & Hstart & Hmin)|[Hin Hstart]].
    + destruct (IH _ Hprev) as (older & k0 & recent & -> & Hin & Hc0 & Hs0 & Hs & Hall).
      exists older, k0, (recent ++ [k]).
      split; [by rewrite <- app_assoc|]. split; [done|]. split; [done|].
      split; [done|]. split.
      * rewrite run_ticks_snoc, Hstart. exact Hs.
      * apply Forall_app. split; [done|]. constructor; [|done].
        by rewrite present_ids_run in Hmin.
    + exists ks, k, []. split; [done|].
      rewrite present_ids_run in Hin. split; [done|].
      rewrite run_ticks_snoc. split; [done|]. split; [done|]. split; [done|].
      constructor.
Qed.

(** C2 (amended).  Starting from a territory with no attempt in
    progress and for every sequence of ticks: a tick changes the controller
    only to a player [i] who is among the alive players in the radius at that
    tick, whose attempt was started at an earlier tick [k0] when [i] was
    present, with at least TERRITORY_CAPTURE_TIME seconds between the
    recorded start (the time of [k0]) and the committing tick, and with at
    least MIN_PLAYERS_TO_CAPTURE alive players in the radius at every tick
    in between; and whenever fewer than MIN_PLAYERS_TO_CAPTURE alive players
    are in the radius at a tick, the attempt is cleared, its progress is
    zero and the controller is unchanged. *)
Theorem territory_capture_commit (t0 : TerritoryState) (ks : list Tick) (k : Tick) :
  capturing_player_id t0 = None →
  let t := run_ticks t0 ks in
  let t' := tick_territory t k in
  (controller_id t' ≠ controller_id t →
   ∃ i older k0 recent,
     ks = older ++ k0 :: recent ∧
     controller_id t' = Some i ∧
     i ∈ present_ids t0 k0 ∧
     capturing_player_id (run_ticks t0 (older ++ [k0])) = Some i ∧
     capture_start_time (run_ticks t0 (older ++ [k0])) = tick_time k0 ∧
     capturing_player_id t = Some i ∧
     capture_start_time t = tick_time k0 ∧
     TERRITORY_CAPTURE_TIME <= tick_time k - tick_time k0 ∧
     i ∈ present_ids t0 k ∧
     Forall (λ k', (MIN_PLAYERS_TO_CAPTURE ≤ length (present_ids t0 k'))%nat) recent) ∧
  ((length (present_ids t0 k) < MIN_PLAYERS_TO_CAPTURE)%nat →
   capturing_player_id t' = None ∧
   (∀ now, get_capture_progress t' now = 0.0) ∧
   controller_id t' = controller_id t).
Proof.
  intros H0 t t'. split.
  - intros Hch. destruct (tick_commit t k Hch) as (i & Hc & Hctrl & Hin & Hel).
    destruct (run_ticks_attempt_history t0 ks i H0 Hc)
      as (older & k0 & recent & Hks & Hin0 & Hc0 & Hs0 & Hs & Hall).
    exists i, older, k0, recent. fold t in Hs.
    unfold t in Hin. rewrite present_ids_run in Hin.
    rewrite Hs in Hel. repeat (split; [done|]). done.
  - intros Hfew. apply tick_reset. unfold t. by rewrite present_ids_run.
Qed.

End territory_trace.

Section territory_examples.
Import Constants Utils World Territory.
Local Open Scope Q_scope.

(** C2, as stated, fails: on [tick_start; tick_alice_away; tick_alice_back]
    the third tick makes Alice (id 1) the controller although she was not
    in the radius at the second tick. *)
Lemma commit_after_absence : ¬ commit_needs_continuous_presence.
Proof.
  intros H.
  assert (controller_id (tick_territory (run_ticks castle [tick_start; tick_alice_away])
                           tick_alice_back) = Some 1%Z) as Eafter
    by (vm_compute; reflexivity).
  assert (controller_id (run_ticks castle [tick_start; tick_alice_away]) = None)
    as Ebefore by (vm_compute; reflexivity).
  assert (capture_start_time (run_ticks castle [tick_start; tick_alice_away]) = 0)
    as Estart by (vm_compute; reflexivity).
  assert (present_ids castle tick_alice_away = [2%Z]) as Epresent
    by (vm_compute; reflexivity).
  specialize (H castle [tick_start; tick_alice_away] tick_alice_back eq_refl).
  cbv zeta in H. rewrite Eafter, Ebefore, Estart in H.
  destruct H as (i & older & k0 & recent & Hks & Hctrl & _ & Hstart & _ & Hall);
    [done|].
  injection Hctrl as <-.
  destruct older as [|k1 [|k2 older]].
  - injection Hks as <- <-. apply Forall_cons in Hall as [Hin _].
    rewrite Epresent in Hin. apply list_elem_of_singleton in Hin. discriminate.
  - injection Hks as <- <- <-. discriminate Hstart.
  - injection Hks as _ _ Hks. by destruct older.
Qed.

Lemma territory_capture_commit_witness :
  (∃ i older k0 recent,
     [tick_start; tick_alice_away] = older ++ k0 :: recent ∧
     controller_id (tick_territory (run_ticks castle [tick_start; tick_alice_away])
                      tick_alice_back) = Some i ∧
     i ∈ present_ids castle k0 ∧
     capturing_player_id (run_ticks castle (older ++ [k0])) = Some i ∧
     capture_start_time (run_ticks castle (older ++ [k0])) = tick_time k0 ∧
     capturing_player_id (run_ticks castle [tick_start; tick_alice_away]) = Some i ∧
     capture_start_time (run_ticks castle [tick_start; tick_alice_away]) = tick_time k0 ∧
     TERRITORY_CAPTURE_TIME <= tick_time tick_alice_back - tick_time k0 ∧
     i ∈ present_ids castle tick_alice_back ∧
     Forall (λ k', (MIN_PLAYERS_TO_CAPTURE ≤ length (present_ids castle k'))%nat) recent) ∧
  (capturing_player_id (tick_territory (run_ticks castle [tick_start]) tick_empty) = None ∧
   (∀ now, get_capture_progress
             (tick_territory (run_ticks castle [tick_start]) tick_empty) now = 0.0) ∧
   controller_id (tick_territory (run_ticks castle [tick_start]) tick_empty)
   = controller_id (run_ticks castle [tick_start])).
Proof.
  split.
  - destruct (territory_capture_commit castle [tick_start; tick_alice_away]
                tick_alice_back eq_refl) as [Hcommit _].
    apply Hcommit. vm_compute. discriminate.
  - destruct (territory_capture_commit castle [tick_start] tick_empty eq_refl)
      as [_ Hreset].
    apply Hreset. vm_compute. constructor.
Defined.

End territory_examples.

(* ===================================================================== *)
(** * Part IV: further properties of the embedded code                    *)
(* ===================================================================== *)

(** ** The chunk ring (utils.py, get_surrounding_chunks) *)

Section chunk_ring.
Import Constants Utils World.

Lemma range_nodup (lo hi : Z) : NoDup (range lo hi).
Proof. apply NoDup_seqZ. Qed.

Lemma length_range (lo hi : Z) : length (range lo hi) = Z.to_nat (hi - lo).
Proof. unfold range. apply length_seqZ. Qed.

Lemma length_bind_const {A B} (f : A → list B) (l : list A) (n : nat) :
  (∀ x, length (f x) = n) → length (l ≫= f) = (length l * n)%nat.
Proof.
  intros Hf. induction l as [|x l IH]; [done|].
  cbn [mbind list_bind]. change (list_bind _ _ f l) with (l ≫= f).
  rewrite length_app, Hf, IH. simpl. lia.
Qed.

Lemma get_surrounding_chunks_nodup (c : Z * Z) (r : Z) :
  NoDup (get_surrounding_chunks c r).
Proof.
  unfold get_surrounding_chunks. apply NoDup_bind; [| |apply range_nodup].
  - intros dx1 dx2 c' _ _ H1 H2.
    apply list_elem_of_bind in H1 as (dz1 & H1 & _).
    apply list_elem_of_bind in H2 as (dz2 & H2 & _).
    apply list_elem_of_singleton in H1, H2. subst c'.
    injection H2 as H2 _. lia.
  - intros dx _. apply NoDup_bind; [| |apply range_nodup].
    + intros dz1 dz2 c' _ _ H1 H2.
      apply list_elem_of_singleton in H1, H2. subst c'.
      injection H2 as H2. lia.
    + intros dz _. apply NoDup_singleton.
Qed.

(** X1.  [get_surrounding_chunks(c, r)] lists the chunks of the square of
    side [2r + 1] centred on [c]: for [r >= 0] it has [(2r+1)^2] entries,
    no entry twice, and a chunk is listed iff both its coordinates are
    within [r] of the centre; for [r < 0] the list is empty. *)
Theorem get_surrounding_chunks_square (c : Z * Z) (r : Z) :
  NoDup (get_surrounding_chunks c r) ∧
  (∀ c', c' ∈ get_surrounding_chunks c r ↔
         (- r ≤ c'.1 - c.1 ≤ r) ∧ (- r ≤ c'.2 - c.2 ≤ r)) ∧
  (0 ≤ r → length (get_surrounding_chunks c r)
           = (Z.to_nat (2 * r + 1) * Z.to_nat (2 * r + 1))%nat) ∧
  (r < 0 → get_surrounding_chunks c r = []).
Proof.
  split; [apply get_surrounding_chunks_nodup|split; [|split]].
  - intros c'. apply elem_of_get_surrounding_chunks.
  - intros Hr. unfold get_surrounding_chunks.
    rewrite (length_bind_const _ _ (Z.to_nat (2 * r + 1))).
    + rewrite length_range. f_equal. f_equal. lia.
    + intros dx. rewrite (length_bind_const _ _ 1%nat) by done.
      rewrite length_range. replace (r + 1 - - r) with (2 * r + 1) by lia. lia.
  - intros Hr. unfold get_surrounding_chunks, range.
    replace (seqZ (- r) (r + 1 - - r)) with (@nil Z); [done|].
    unfold seqZ. replace (Z.to_nat (r + 1 - - r)) with 0%nat by lia. done.
Qed.

End chunk_ring.

Lemma get_surrounding_chunks_square_witness :
  length (Utils.get_surrounding_chunks (3, -2) 2) = 25%nat ∧
  Utils.get_surrounding_chunks (3, -2) (-1) = [].
Proof.
  destruct (get_surrounding_chunks_square (3, -2) 2) as (_ & _ & Hlen & _).
  destruct (get_surrounding_chunks_square (3, -2) (-1)) as (_ & _ & _ & Hneg).
  split; [apply Hlen; lia | apply Hneg; lia].
Defined.

(** ** Proximity queries return registered entities in range, once *)

Section nearby_soundness.
Import Constants Utils World.
Local Open Scope Q_scope.






End nearby_soundness.

Section spatial_exact.
Import Constants Utils World.

Lemma buckets_exact_add {E} (chunk_of : E → Z * Z) ents ch eid e :
  buckets_exact chunk_of ents ch → ents !! eid = None →
  buckets_exact chunk_of (<[eid := e]> ents) (_add_to_chunk (chunk_of e) eid ch).
Proof.
  intros Hex Hfresh c s Hs.
  assert (∀ s0 x, ch !! c = Some s0 → x ∈ s0 →
            ∃ e0, <[eid := e]> ents !! x = Some e0 ∧ chunk_of e0 = c) as Hold.
  { intros s0 x Hs0 Hx. destruct (Hex _ _ Hs0) as [_ Hm].
    destruct (Hm _ Hx) as (e0 & He0 & Hc0). exists e0. split; [|done].
    rewrite lookup_insert_ne; [done|]. intros ->. congruence. }
  unfold _add_to_chunk in Hs. destruct (decide (chunk_of e = c)) as [Hc|Hc].
  - subst c. rewrite lookup_insert_eq in Hs. injection Hs as <-.
    split; [set_solver|]. intros x Hx.
    apply elem_of_union in Hx as [Hx|Hx].
    + destruct (ch !! chunk_of e) as [s0|] eqn:Hs0.
      * rewrite Hs0 in Hx. simpl in Hx. by eapply Hold.
      * rewrite lookup_insert_eq in Hx. simpl in Hx. set_solver.
    + apply elem_of_singleton in Hx as ->. exists e.
      by rewrite lookup_insert_eq.
  - rewrite lookup_insert_ne in Hs by done.
    assert (ch !! c = Some s) as Hs0.
    { destruct (ch !! chunk_of e); [done|]. by rewrite lookup_insert_ne in Hs. }
    split; [by destruct (Hex _ _ Hs0)|]. intros x Hx. by eapply Hold.
Qed.

Lemma buckets_exact_remove {E} (chunk_of : E → Z * Z) ents ch eid e :
  buckets_exact chunk_of ents ch → ents !! eid = Some e →
  buckets_exact chunk_of (delete eid ents) (_remove_from_chunk (chunk_of e) eid ch).
Proof.
  intros Hex He c s Hs.
  assert (∀ s0 x, ch !! c = Some s0 → x ∈ s0 → x ≠ eid →
            ∃ e0, delete eid ents !! x = Some e0 ∧ chunk_of e0 = c) as Hold.
  { intros s0 x Hs0 Hx Hne. destruct (Hex _ _ Hs0) as [_ Hm].
    destruct (Hm _ Hx) as (e0 & He0 & Hc0). exists e0.
    by rewrite lookup_delete_ne. }
  assert (∀ s0, ch !! c = Some s0 → eid ∈ s0 → c = chunk_of e) as Honly.
  { intros s0 Hs0 Hin. destruct (Hex _ _ Hs0) as [_ Hm].
    destruct (Hm _ Hin) as (e0 & He0 & Hc0). congruence. }
  unfold _remove_from_chunk in Hs.
  destruct (ch !! chunk_of e) as [s1|] eqn:Hs1.
  - destruct (decide (c = chunk_of e)) as [->|Hc].
    + case_decide as Hempty; [by rewrite lookup_delete_eq in Hs|].
      rewrite lookup_insert_eq in Hs. injection Hs as <-.
      split; [done|]. intros x Hx.
      apply elem_of_difference in Hx as [Hx Hne].
      apply (Hold s1 x Hs1 Hx). set_solver.
    + assert (ch !! c = Some s) as Hs0.
      { case_decide; [by rewrite lookup_delete_ne in Hs
                     |by rewrite lookup_insert_ne in Hs]. }
      split; [by destruct (Hex _ _ Hs0)|]. intros x Hx.
      apply (Hold s x Hs0 Hx). intros ->. apply Hc. by eapply Honly.
  - split; [by destruct (Hex _ _ Hs)|]. intros x Hx.
    apply (Hold s x Hs Hx). intros ->.
    pose proof (Honly s Hs Hx) as ->. congruence.
Qed.

Lemma buckets_exact_replace {E} (chunk_of : E → Z * Z) ents ch eid e e' :
  buckets_exact chunk_of ents ch → ents !! eid = Some e →
  chunk_of e' = chunk_of e →
  buckets_exact chunk_of (<[eid := e']> ents) ch.
Proof.
  intros Hex He Hc c s Hs. destruct (Hex _ _ Hs) as [Hne Hm].
  split; [done|]. intros x Hx. destruct (Hm _ Hx) as (e0 & He0 & Hc0).
  destruct (decide (eid = x)) as [->|Hx'].
  - exists e'. rewrite lookup_insert_eq. split; [done|]. congruence.
  - exists e0. by rewrite lookup_insert_ne.
Qed.

Lemma buckets_exact_move {E} (chunk_of : E → Z * Z) ents ch eid e e' :
  buckets_exact chunk_of ents ch → ents !! eid = Some e →
  buckets_exact chunk_of (<[eid := e']> ents)
    (if decide (chunk_of e' ≠ chunk_of e)
     then _add_to_chunk (chunk_of e') eid (_remove_from_chunk (chunk_of e) eid ch)
     else ch).
Proof.
  intros Hex He. case_decide as Hc.
  - rewrite <- insert_delete_eq. apply buckets_exact_add.
    + by apply buckets_exact_remove.
    + apply lookup_delete_eq.
  - by eapply buckets_exact_replace.
Qed.

Lemma init_exact : world_exact WorldManager_init.
Proof.
  repeat split; try done; intros ? ?; simpl; by rewrite ?lookup_empty.
Qed.

Lemma apply_op_exact w op :
  world_exact w →
  match op with AddPlayer cid _ => players w !! cid = None | _ => True end →
  world_exact (apply_op w op).
Proof.
  intros (Hp & Hn & Hpid & Hnid & Hnext) Hfresh. destruct op; simpl.
  - split; [|split; [done|split; [|by split]]].
    + by apply (buckets_exact_add chunk_id).
    + intros cid' e. simpl. destruct (decide (cid = cid')) as [->|Hne].
      * rewrite lookup_insert_eq. by intros [= <-].
      * rewrite lookup_insert_ne by done. apply Hpid.
  - unfold remove_player. destruct (players w !! cid) as [p|] eqn:Hc; [|done].
    split; [|split; [done|split; [|by split]]].
    + by apply (buckets_exact_remove chunk_id).
    + intros cid' e. simpl. destruct (decide (cid = cid')) as [->|Hne].
      * by rewrite lookup_delete_eq.
      * rewrite lookup_delete_ne by done. apply Hpid.
  - unfold update_player_position.
    destruct (players w !! cid) as [p|] eqn:Hc; [|done].
    split; [|split; [done|split; [|by split]]].
    + apply (buckets_exact_move chunk_id _ _ _ p); done.
    + intros cid' e. simpl. destruct (decide (cid = cid')) as [->|Hne].
      * rewrite lookup_insert_eq. intros [= <-]. simpl. by apply Hpid.
      * rewrite lookup_insert_ne by done. apply Hpid.
  - assert (npcs w !! next_npc_instance_id w = None) as Hnew.
    { destruct (npcs w !! next_npc_instance_id w) as [n|] eqn:E; [|done].
      destruct (Hnid _ _ E). lia. }
    split; [done|]. split; [|split; [done|split]].
    + by apply (buckets_exact_add npc_chunk_id).
    + intros iid e. simpl.
      destruct (decide (next_npc_instance_id w = iid)) as [<-|Hne].
      * rewrite lookup_insert_eq. intros [= <-]. simpl. lia.
      * rewrite lookup_insert_ne by done. intros He.
        destruct (Hnid _ _ He). lia.
    + simpl. lia.
  - unfold remove_npc. destruct (npcs w !! iid) as [n|] eqn:Hc; [|done].
    split; [done|]. split; [|split; [done|split; [|done]]].
    + by apply (buckets_exact_remove npc_chunk_id).
    + intros iid' e. simpl. destruct (decide (iid = iid')) as [->|Hne].
      * by rewrite lookup_delete_eq.
      * rewrite lookup_delete_ne by done. apply Hnid.
  - unfold update_npc_position.
    destruct (npcs w !! iid) as [n|] eqn:Hc; [|done].
    split; [done|]. split; [|split; [done|split; [|done]]].
    + apply (buckets_exact_move npc_chunk_id _ _ _ n); done.
    + intros iid' e. simpl. destruct (decide (iid = iid')) as [->|Hne].
      * rewrite lookup_insert_eq. intros [= <-]. simpl. by apply Hnid.
      * rewrite lookup_insert_ne by done. apply Hnid.
Qed.

Lemma run_ops_exact ops w :
  world_exact w → script_fresh w ops → world_exact (run_ops ops w).
Proof.
  revert w. induction ops as [|op ops IH]; intros w Hw Hf; [done|].
  destruct Hf as [Hop Hf]. simpl. apply IH; [|done]. by apply apply_op_exact.
Qed.

Lemma nearby_nodup_aux {E} (chunk_of : E → Z * Z) (key_of : E → Z)
    (keep : E → bool) (ents : gmap Z E) (ch : gmap (Z * Z) (gset Z))
    (chunks : list (Z * Z)) :
  buckets_exact chunk_of ents ch →
  (∀ eid e, ents !! eid = Some e → key_of e = eid) →
  NoDup chunks →
  NoDup (c ← chunks;
         eid ← elements (default (∅ : gset Z) (ch !! c));
         match ents !! eid with
         | Some e => if keep e then [e] else []
         | None => []
         end).
Proof.
  intros Hex Hkey Hnd.
  assert (∀ eid e,
    e ∈ (match ents !! eid with
         | Some e => if keep e then [e] else []
         | None => []
         end) → ents !! eid = Some e) as Hin.
  { intros eid e He. destruct (ents !! eid) as [e0|]; [|by apply elem_of_nil in He].
    destruct (keep e0); [|by apply elem_of_nil in He].
    by apply list_elem_of_singleton in He as ->. }
  assert (∀ c e, e ∈ (eid ← elements (default (∅ : gset Z) (ch !! c));
                      match ents !! eid with
                      | Some e => if keep e then [e] else []
                      | None => []
                      end) → chunk_of e = c) as Hchunk.
  { intros c e He. apply list_elem_of_bind in He as (eid & He & Hid).
    apply Hin in He. destruct (ch !! c) as [s|] eqn:Hs;
      [|simpl in Hid; by rewrite elements_empty in Hid; apply elem_of_nil in Hid].
    simpl in Hid. apply elem_of_elements in Hid.
    destruct (Hex _ _ Hs) as [_ Hm]. destruct (Hm _ Hid) as (e0 & He0 & Hc0).
    congruence. }
  apply NoDup_bind; [| |done].
  - intros c1 c2 e _ _ H1 H2. apply Hchunk in H1, H2. congruence.
  - intros c _. apply NoDup_bind; [| |apply NoDup_elements].
    + intros id1 id2 e _ _ H1 H2. apply Hin in H1, H2.
      apply Hkey in H1, H2. congruence.
    + intros eid _. destruct (ents !! eid) as [e0|]; [|apply NoDup_nil_2].
      destruct (keep e0); [apply NoDup_singleton | apply NoDup_nil_2].
Qed.

(** X3.  After a script in which [add_player] is never called for an id
    that is currently registered, every bucket of the index holds exactly
    the registered entities of that chunk, and the lists returned by
    [get_nearby_players] and [get_nearby_npcs] contain no entity twice. *)
Theorem nearby_no_duplicates (ops : list world_op) (pos : Vec3) (r : Q) :
  script_fresh WorldManager_init ops →
  let w := run_ops ops WorldManager_init in
  world_exact w ∧
  NoDup (get_nearby_players w pos r) ∧
  NoDup (get_nearby_npcs w pos r).
Proof.
  intros Hf w.
  assert (world_exact w) as Hw by (by apply run_ops_exact; [apply init_exact|]).
  split; [done|]. destruct Hw as (Hp & Hn & Hpid & Hnid & _).
  pose proof (get_surrounding_chunks_nodup (get_chunk_id pos CHUNK_SIZE)
                (py_int (r / CHUNK_SIZE) + 1)) as Hnd.
  split.
  - apply (nearby_nodup_aux chunk_id character_id
             (λ e, distance_le pos (position e) r)); done.
  - apply (nearby_nodup_aux npc_chunk_id instance_id
             (λ e, distance_le pos (npc_position e) r)); [done| |done].
    intros iid e He. by destruct (Hnid _ _ He).
Qed.

Lemma nearby_no_duplicates_witness :
  let w := run_ops sample_script WorldManager_init in
  world_exact w ∧
  NoDup (get_nearby_players w (40, 0, 40)%Q 75) ∧
  NoDup (get_nearby_npcs w (40, 0, 40)%Q 75).
Proof.
  apply (nearby_no_duplicates sample_script (40, 0, 40)%Q 75).
  vm_compute. repeat split.
Defined.

End spatial_exact.

Section add_player_twice.
Import Constants Utils World.
Local Open Scope Q_scope.




End add_player_twice.

Section npc_ids.
Import Constants Utils World.

Lemma spawn_count_cons op ops :
  spawn_count (op :: ops) =
  ((match op with SpawnNpc _ _ => 1 | _ => 0 end) + spawn_count ops)%Z.
Proof. by destruct op. Qed.

Lemma apply_op_npc_ids w op :
  npc_ids_ok w →
  npc_ids_ok (apply_op w op) ∧
  next_npc_instance_id (apply_op w op) =
    (next_npc_instance_id w + match op with SpawnNpc _ _ => 1 | _ => 0 end)%Z.
Proof.
  intros [Hnid Hnext]. destruct op; simpl.
  - split; [done|lia].
  - unfold remove_player. destruct (players w !! cid); simpl; (split; [done|lia]).
  - unfold update_player_position.
    destruct (players w !! cid); simpl; (split; [done|lia]).
  - split; [|done]. split; [|simpl; lia]. intros iid e. simpl.
    destruct (decide (next_npc_instance_id w = iid)) as [<-|Hne].
    + rewrite lookup_insert_eq. intros [= <-]. simpl. lia.
    + rewrite lookup_insert_ne by done. intros He. destruct (Hnid _ _ He). lia.
  - unfold remove_npc. destruct (npcs w !! iid) as [n|] eqn:Hc; simpl;
      [|split; [done|lia]].
    split; [|lia]. split; [|done]. intros iid' e. simpl.
    destruct (decide (iid = iid')) as [->|Hne].
    + by rewrite lookup_delete_eq.
    + rewrite lookup_delete_ne by done. apply Hnid.
  - unfold update_npc_position. destruct (npcs w !! iid) as [n|] eqn:Hc; simpl;
      [|split; [done|lia]].
    split; [|lia]. split; [|done]. intros iid' e. simpl.
    destruct (decide (iid = iid')) as [->|Hne].
    + rewrite lookup_insert_eq. intros [= <-]. simpl. by apply Hnid.
    + rewrite lookup_insert_ne by done. apply Hnid.
Qed.

Lemma run_ops_npc_ids ops w :
  npc_ids_ok w →
  npc_ids_ok (run_ops ops w) ∧
  next_npc_instance_id (run_ops ops w) = (next_npc_instance_id w + spawn_count ops)%Z.
Proof.
  revert w. induction ops as [|op ops IH]; intros w Hw.
  - split; [done|]. simpl. lia.
  - destruct (apply_op_npc_ids w op Hw) as [Hw1 Hn1].
    destruct (IH _ Hw1) as [Hw2 Hn2]. rewrite spawn_count_cons.
    change (run_ops (op :: ops) w) with (run_ops ops (apply_op w op)).
    split; [done|]. rewrite Hn2, Hn1. lia.
Qed.

(** X5.  NPC instance ids are handed out consecutively from 1 and never
    reused: after any script the registry keys are the [instance_id]s of
    the entities stored under them, all of them at most the number of
    [spawn_npc] calls made so far, and the next [spawn_npc] returns an
    entity whose id is that number plus one, was not registered before
    (even if NPCs were removed in between) and leaves every other
    registry entry as it was. *)
Theorem npc_instance_ids_never_reused (ops : list world_op) (nd : NpcData)
    (pos : Vec3) :
  let w := run_ops ops WorldManager_init in
  let w' := (spawn_npc w nd pos).1 in
  let npc := (spawn_npc w nd pos).2 in
  (∀ iid e, npcs w !! iid = Some e →
     instance_id e = iid ∧ (1 ≤ iid ≤ spawn_count ops)%Z) ∧
  instance_id npc = (spawn_count ops + 1)%Z ∧
  npcs w !! instance_id npc = None ∧
  npcs w' !! instance_id npc = Some npc ∧
  (∀ iid, iid ≠ instance_id npc → npcs w' !! iid = npcs w !! iid).
Proof.
  intros w w' npc.
  destruct (run_ops_npc_ids ops WorldManager_init) as [[Hnid Hnext] Hn].
  { split; [|done]. intros ? ? H. simpl in H. by rewrite lookup_empty in H. }
  fold w in Hnid, Hnext, Hn. simpl in Hn.
  assert (instance_id npc = next_npc_instance_id w) as Hid by done.
  split; [|split; [|split; [|split]]].
  - intros iid e He. destruct (Hnid _ _ He). split; [done|lia].
  - rewrite Hid. lia.
  - rewrite Hid. destruct (npcs w !! next_npc_instance_id w) as [n|] eqn:E; [|done].
    destruct (Hnid _ _ E). lia.
  - rewrite Hid. apply lookup_insert_eq.
  - intros iid Hne. rewrite Hid in Hne. simpl. by rewrite lookup_insert_ne.
Qed.

Lemma npc_instance_ids_never_reused_witness :
  let w := run_ops sample_script WorldManager_init in
  instance_id (spawn_npc w plain_npc (0, 0, 0)%Q).2 = 3 ∧
  npcs w !! 3 = None.
Proof.
  intros w.
  destruct (npc_instance_ids_never_reused sample_script plain_npc (0, 0, 0)%Q)
    as (_ & Hid & Hfresh & _).
  fold w in Hid, Hfresh. rewrite Hid in Hfresh. split; [exact Hid|exact Hfresh].
Defined.

End npc_ids.

Section visible_players.
Import Constants Utils World.
Local Open Scope Q_scope.

Lemma calculate_distance_sq_self (p : Vec3) : calculate_distance_sq p p == 0.
Proof. unfold calculate_distance_sq. cbv zeta. ring. Qed.



End visible_players.

(** ** Combat: refusals, cooldowns and the spatial index *)

Section combat_refusals.
Import Constants Utils World GameData Combat.
Local Open Scope Q_scope.

(** X7.  [basic_attack] changes the combat system only when it returns a
    result: every [None] leaves the registry, the index and the cooldown
    table exactly as they were, and the only exception it can raise is the
    division by zero of the damage formula, again before anything has been
    written. *)
Theorem basic_attack_refusal_changes_nothing (cs : CombatSystem)
    (attacker_id target_id : Z) (target_type : string) (now variance : Q) :
  match basic_attack cs attacker_id target_id target_type now variance with
  | (cs', Returned (Some res)) =>
    active_cooldowns cs' = active_cooldowns cs ∧
    r_attacker_id res = attacker_id ∧ r_target_id res = target_id ∧
    (1 ≤ r_damage res)%Z
  | (cs', Returned None) => cs' = cs
  | (cs', Raised e) =>
    cs' = cs ∧ e = ZeroDivisionError ∧
    ∃ t, lookup_target (world cs) target_id target_type = Some (Some t) ∧
         target_defense t = (-100)%Z
  end.
Proof.
  unfold basic_attack.
  destruct (get_player (world cs) attacker_id) as [attacker|]; [|done].
  destruct (is_dead attacker); [done|].
  destruct (negb (can_attack attacker now ATTACK_COOLDOWN)); [done|].
  destruct (lookup_target (world cs) target_id target_type) as [[target|]|] eqn:Hl;
    [|done|done].
  destruct (distance_gt _ _ _); [done|].
  destruct (calculate_damage _ _ _ _ _) as [damage|e] eqn:Hdmg.
  - destruct (target_apply_damage (world cs) target_id target damage)
      as [[w1 t1] died] eqn:Ha.
    simpl. split; [done|]. split; [done|]. split; [done|].
    unfold calculate_damage in Hdmg. simpl in Hdmg.
    destruct (Qeq_bool _ _); [done|]. injection Hdmg as <-. lia.
  - split; [done|]. unfold calculate_damage in Hdmg. simpl in Hdmg.
    destruct (Qeq_bool _ _) eqn:E; [|done]. injection Hdmg as <-.
    split; [done|]. exists target. split; [done|].
    apply Qeq_bool_eq in E.
    assert (inject_Z (target_defense target) == inject_Z (-100)) as H
      by (change (inject_Z (-100)) with (-100); lra).
    unfold Qeq in H. simpl in H. lia.
Qed.

(** X8.  After a basic attack that returned a result at time [now], every
    further basic attack of the same attacker before [now + ATTACK_COOLDOWN]
    is refused, whatever its target, and changes nothing. *)
Theorem basic_attack_cooldown_blocks (cs cs1 : CombatSystem)
    (attacker_id target_id : Z) (target_type : string) (now variance : Q)
    (res : AttackResult) (now' : Q) :
  basic_attack cs attacker_id target_id target_type now variance
    = (cs1, Returned (Some res)) →
  now' - now < ATTACK_COOLDOWN →
  ∀ target_id' target_type' variance',
    basic_attack cs1 attacker_id target_id' target_type' now' variance'
    = (cs1, Returned None).
Proof.
  unfold basic_attack at 1. intros H Hlt.
  destruct (get_player (world cs) attacker_id) as [attacker|]; [|done].
  destruct (is_dead attacker); [done|].
  destruct (negb (can_attack attacker now ATTACK_COOLDOWN)); [done|].
  destruct (lookup_target (world cs) target_id target_type) as [[target|]|];
    [|done|done].
  destruct (distance_gt _ _ _); [done|].
  destruct (calculate_damage _ _ _ _ _) as [damage|]; [|done].
  destruct (target_apply_damage (world cs) target_id target damage)
    as [[w1 t1] died].
  injection H as <- _. intros target_id' target_type' variance'.
  unfold basic_attack, get_player, modify_player. simpl.
  rewrite lookup_alter, decide_True by done.
  destruct (players w1 !! attacker_id) as [a1|]; [|done]. simpl.
  destruct (is_dead a1); [done|].
  unfold can_attack. simpl.
  destruct (Qle_bool ATTACK_COOLDOWN (now' - now)) eqn:E; [|done].
  apply Qle_bool_iff in E. lra.
Qed.

Lemma basic_attack_cooldown_blocks_witness :
  ∃ cs1 res,
    basic_attack duel 1 1 "npc" 10 1 = (cs1, Returned (Some res)) ∧
    basic_attack cs1 1 1 "npc" 11 1 = (cs1, Returned None).
Proof.
  eexists; eexists. split; [vm_compute; reflexivity|].
  eapply (basic_attack_cooldown_blocks duel _ 1 1 "npc" 10 1 _ 11).
  - vm_compute; reflexivity.
  - reflexivity.
Defined.

Lemma use_skill_success_cooldown cs caster_id skill_id target_id target_type
    now variance cs1 res :
  use_skill cs caster_id skill_id target_id target_type now variance
    = (cs1, Returned (Some res)) →
  ∃ sd, get_skill_data skill_id = Some sd ∧
    active_cooldowns cs1 =
      <[caster_id := <[skill_id := now + default 0 (cooldown sd)]>
                       (default ∅ (active_cooldowns cs !! caster_id))]>
        (active_cooldowns cs).
Proof.
  unfold use_skill. intros H.
  destruct (get_player (world cs) caster_id) as [caster|]; [|done].
  destruct (is_dead caster); [done|].
  destruct (get_skill_data skill_id) as [sd|]; [|done].
  destruct (mp caster <? _)%Z; [done|].
  destruct (negb _); [done|].
  destruct (level caster <? _)%Z; [done|].
  exists sd. split; [done|].
  case_decide; [by injection H as <- _|].
  destruct target_id as [tid|]; [|done].
  destruct (lookup_target _ _ _) as [[target|]|]; [|done|done].
  destruct (distance_gt _ _ _); [done|].
  destruct (calculate_damage _ _ _ _ _); [|done].
  destruct (target_apply_damage _ _ _ _) as [[? ?] ?].
  destruct (negb _); [|by injection H as <- _].
  destruct (foldl _ _ _). by injection H as <- _.
Qed.

(** X9.  After a skill cast that returned a result at time [now], every
    further cast of the same skill by the same caster before
    [now + cooldown] is refused before anything is deducted: it returns
    [None] and leaves the combat system as it is. *)
Theorem use_skill_cooldown_blocks (cs cs1 : CombatSystem)
    (caster_id skill_id : Z) (target_id : option Z) (target_type : string)
    (now variance : Q) (res : SkillResult) (sd : SkillData) (now' : Q) :
  use_skill cs caster_id skill_id target_id target_type now variance
    = (cs1, Returned (Some res)) →
  get_skill_data skill_id = Some sd →
  now' < now + default 0 (cooldown sd) →
  ∀ target_id' target_type' variance',
    use_skill cs1 caster_id skill_id target_id' target_type' now' variance'
    = (cs1, Returned None).
Proof.
  intros H Hsd Hlt target_id' target_type' variance'.
  apply use_skill_success_cooldown in H as (sd' & Hsd' & Hcd).
  assert (sd' = sd) as -> by congruence.
  unfold use_skill. destruct (get_player (world cs1) caster_id) as [c1|]; [|done].
  destruct (is_dead c1); [done|]. rewrite Hsd.
  destruct (mp c1 <? _)%Z; [done|].
  unfold _check_skill_cooldown. rewrite Hcd, lookup_insert_eq.
  rewrite lookup_insert_eq. simpl.
  destruct (Qle_bool (now + default 0 (cooldown sd)) now') eqn:E; [|done].
  apply Qle_bool_iff in E. lra.
Qed.

Lemma use_skill_cooldown_blocks_witness :
  ∃ cs1 res,
    use_skill duel 1 SLASH (Some 1%Z) "npc" 10 1 = (cs1, Returned (Some res)) ∧
    use_skill cs1 1 SLASH (Some 1%Z) "npc" 12 1 = (cs1, Returned None).
Proof.
  eexists; eexists. split; [vm_compute; reflexivity|].
  eapply (use_skill_cooldown_blocks duel _ 1 SLASH (Some 1%Z) "npc" 10 1 _ _ 12).
  - vm_compute; reflexivity.
  - reflexivity.
  - reflexivity.
Defined.

End combat_refusals.

Section combat_index.
Import Constants Utils World GameData Combat.
Local Open Scope Q_scope.

Lemma placement_kept_refl w : placement_kept w w.
Proof.
  repeat (split; [done|]). split.
  - intros cid e e' H1 H2. by assert (e' = e) as -> by congruence.
  - intros iid e e' H1 H2. by assert (e' = e) as -> by congruence.
Qed.

Lemma placement_kept_trans w1 w2 w3 :
  placement_kept w1 w2 → placement_kept w2 w3 → placement_kept w1 w3.
Proof.
  intros (Hpc & Hnc & Hnx & Hdp & Hdn & Hp & Hn)
         (Hpc' & Hnc' & Hnx' & Hdp' & Hdn' & Hp' & Hn').
  split; [congruence|]. split; [congruence|]. split; [congruence|].
  split; [congruence|]. split; [congruence|]. split.
  - intros cid e e'' H1 H3.
    assert (is_Some (players w2 !! cid)) as [e' H2].
    { apply elem_of_dom. rewrite Hdp. apply elem_of_dom. eauto. }
    destruct (Hp _ _ _ H1 H2) as [? ?]. destruct (Hp' _ _ _ H2 H3) as [? ?].
    split; congruence.
  - intros iid e e'' H1 H3.
    assert (is_Some (npcs w2 !! iid)) as [e' H2].
    { apply elem_of_dom. rewrite Hdn. apply elem_of_dom. eauto. }
    destruct (Hn _ _ _ H1 H2) as (? & ? & ?).
    destruct (Hn' _ _ _ H2 H3) as (? & ? & ?).
    split; [congruence|]. split; congruence.
Qed.

Lemma placement_kept_indexed w w' :
  placement_kept w w' → world_indexed w → world_indexed w'.
Proof.
  intros (Hpc & Hnc & _ & Hdp & Hdn & Hp & Hn) [Hip Hin]. split.
  - intros cid e' H'.
    assert (is_Some (players w !! cid)) as [e H].
    { apply elem_of_dom. rewrite <- Hdp. apply elem_of_dom. eauto. }
    destruct (Hp _ _ _ H H') as [-> ->]. rewrite Hpc. by apply Hip.
  - intros iid e' H'.
    assert (is_Some (npcs w !! iid)) as [e H].
    { apply elem_of_dom. rewrite <- Hdn. apply elem_of_dom. eauto. }
    destruct (Hn _ _ _ H H') as (-> & -> & _). rewrite Hnc. by apply Hin.
Qed.

Lemma placement_kept_npc_ids w w' :
  placement_kept w w' → npc_ids_ok w → npc_ids_ok w'.
Proof.
  intros (_ & _ & Hnx & _ & Hdn & _ & Hn) [Hid Hnext]. split; [|by rewrite Hnx].
  intros iid e' H'.
  assert (is_Some (npcs w !! iid)) as [e H].
  { apply elem_of_dom. rewrite <- Hdn. apply elem_of_dom. eauto. }
  destruct (Hn _ _ _ H H') as (_ & _ & ->). rewrite Hnx. by apply Hid.
Qed.

Lemma modify_player_placement w cid f :
  (∀ p, position (f p) = position p ∧ chunk_id (f p) = chunk_id p) →
  placement_kept w (modify_player w cid f).
Proof.
  intros Hf. unfold modify_player. repeat (split; [done|]).
  split; [apply dom_alter_L|]. split; [done|]. split.
  - intros cid' e e' H. simpl. rewrite lookup_alter. case_decide as E.
    + subst cid'. rewrite H. simpl. intros [= <-]. apply Hf.
    + rewrite H. by intros [= <-].
  - intros iid e e' H1 H2. simpl in H2. by assert (e' = e) as -> by congruence.
Qed.







(** X11.  Death and respawn compose: for a registered player,
    [handle_player_death] leaves it dead with 0 hit points, in which state
    its basic attacks and skill casts are refused without effect;
    [respawn_player] then returns [True] and leaves it alive with full
    hit points and mana at the spawn position, where a proximity query
    finds it. *)
Theorem death_then_respawn (cs : CombatSystem) (cid : Z) (p : PlayerEntity)
    (spawn : Vec3) :
  world_indexed (world cs) →
  players (world cs) !! cid = Some p →
  let cs1 := handle_player_death cs cid in
  let cs2 := (respawn_player cs1 cid spawn).1 in
  (∃ p1, players (world cs1) !! cid = Some p1 ∧
         is_dead p1 = true ∧ hp p1 = 0%Z) ∧
  (∀ t ty now v, basic_attack cs1 cid t ty now v = (cs1, Returned None)) ∧
  (∀ sk t ty now v, use_skill cs1 cid sk t ty now v = (cs1, Returned None)) ∧
  (respawn_player cs1 cid spawn).2 = true ∧
  ∃ p2, players (world cs2) !! cid = Some p2 ∧
        is_dead p2 = false ∧ hp p2 = max_hp p ∧ mp p2 = max_mp p ∧
        max_hp p2 = max_hp p ∧ max_mp p2 = max_mp p ∧
        position p2 = (px spawn, py spawn, pz spawn) ∧
        p2 ∈ get_nearby_players (world cs2) spawn 0.
Proof.
  intros Hi Hp cs1 cs2.
  assert (players (world cs1) !! cid
          = Some (player_set_hp (player_set_is_dead p true) 0)) as H1.
  { unfold cs1, handle_player_death, get_player. rewrite Hp. simpl.
    rewrite lookup_alter, decide_True by done. by rewrite Hp. }
  split; [eexists; split; [exact H1|done]|].
  split; [intros; unfold basic_attack, get_player; by rewrite H1|].
  split; [intros; unfold use_skill, get_player; by rewrite H1|].
  assert (world_indexed (world cs1)) as Hi1.
  { unfold cs1, handle_player_death, get_player. rewrite Hp. simpl.
    eapply placement_kept_indexed; [|exact Hi]. by apply modify_player_placement. }
  unfold cs2, respawn_player, get_player. rewrite H1. simpl.
  split; [done|].
  match goal with |- context [update_player_position ?w _ _ _ _ _] =>
    set (w1 := w) end.
  assert (world_indexed w1) as Hi2.
  { eapply placement_kept_indexed; [|exact Hi1]. by apply modify_player_placement. }
  assert (players w1 !! cid =
          Some (player_set_mp
                  (player_set_hp
                     (player_set_is_dead
                        (player_set_hp (player_set_is_dead p true) 0) false)
                     (max_hp p)) (max_mp p))) as Hw1.
  { unfold w1, modify_player. simpl.
    rewrite lookup_alter, decide_True by done. by rewrite H1. }
  pose proof (update_player_position_indexed w1 cid (px spawn) (py spawn)
                (pz spawn) 0.0 Hi2) as [Hi3 _].
  unfold update_player_position in *. rewrite Hw1 in *. simpl in *.
  eexists. split; [apply lookup_insert_eq|]. simpl.
  repeat (split; [done|]).
  eapply get_nearby_players_complete; [exact Hi3|done|apply lookup_insert_eq|].
  simpl. destruct spawn as [[x y] z]. simpl.
  rewrite calculate_distance_sq_self. done.
Qed.

Lemma death_then_respawn_witness :
  let cs1 := handle_player_death duel 1 in
  let cs2 := (respawn_player cs1 1 (3, 0, 3)).1 in
  basic_attack cs1 1 1 "npc" 10 1 = (cs1, Returned None) ∧
  ∃ p2, players (world cs2) !! 1%Z = Some p2 ∧ position p2 = (3, 0, 3) ∧
        hp p2 = 100%Z.
Proof.
  intros cs1 cs2.
  destruct (death_then_respawn duel 1 hero (3, 0, 3))
    as (_ & Hatk & _ & _ & p2 & Hp2 & _ & Hhp & _ & _ & _ & Hpos & _).
  - apply run_ops_indexed, init_indexed.
  - reflexivity.
  - split; [apply Hatk|]. exists p2. split; [exact Hp2|]. split; [exact Hpos|].
    exact Hhp.
Defined.

End combat_index.

Section damage_bounds.
Import Constants Utils.
Local Open Scope Q_scope.




End damage_bounds.

(** ** Territory: a lone challenger's capture *)

Section territory_progress.
Import Constants Utils World Territory.
Local Open Scope Q_scope.

Lemma tick_lone (t : TerritoryState) (k : Tick) (i : Z) :
  present_ids t k = [i] →
  ∃ p, character_id p = i ∧
       tick_territory t k = (player_step (tick_time k) (tick_clock k) (t, []) p).1.
Proof.
  unfold present_ids, tick_territory, update_territory. intros H.
  destruct (_get_players_in_territory (tick_players k) t) as [|p [|q l]];
    try discriminate H.
  injection H as Hi. exists p. split; [done|].
  rewrite decide_True by (unfold MIN_PLAYERS_TO_CAPTURE; simpl; lia). done.
Qed.

Lemma elapsed_full_progress (t : TerritoryState) (now : Q) :
  is_being_captured t = true →
  TERRITORY_CAPTURE_TIME <= now - capture_start_time t →
  Qle_bool 1.0 (get_capture_progress t now) = true.
Proof.
  intros Hc Hel. apply Qle_bool_iff. unfold get_capture_progress.
  rewrite Hc. cbn [negb]. apply Q.min_glb; [|done].
  unfold Qdiv. change (/ TERRITORY_CAPTURE_TIME) with (1 # 60).
  unfold TERRITORY_CAPTURE_TIME in Hel.
  assert (1.0 == 1) as -> by reflexivity. lra.
Qed.

Lemma early_no_progress (t : TerritoryState) (now : Q) :
  now - capture_start_time t < TERRITORY_CAPTURE_TIME →
  Qle_bool 1.0 (get_capture_progress t now) = false.
Proof.
  intros Hel. apply not_true_is_false. intros H.
  apply full_progress_elapsed in H. lra.
Qed.

Lemma lone_challenger_states (t0 : TerritoryState) (k0 : Tick) (ks : list Tick)
    (i : Z) :
  capturing_player_id t0 = None →
  controller_id t0 ≠ Some i →
  present_ids t0 k0 = [i] →
  Forall (λ k, present_ids t0 k = [i]) ks →
  let t := run_ticks t0 (k0 :: ks) in
  capture_points_required t = capture_points_required t0 ∧
  ((controller_id t = controller_id t0 ∧ capturing_player_id t = Some i ∧
    capture_start_time t = tick_time k0 ∧
    Forall (λ k, tick_time k - tick_time k0 < TERRITORY_CAPTURE_TIME) ks) ∨
   (controller_id t = Some i ∧ capturing_player_id t = None ∧
    capture_points t = capture_points_required t0 ∧
    Exists (λ k, TERRITORY_CAPTURE_TIME <= tick_time k - tick_time k0) ks)).
Proof.
  intros Hnone Hctrl Hk0. induction ks as [|k ks IH] using rev_ind; intros Hall t.
  - unfold t. simpl. destruct (tick_lone t0 k0 i Hk0) as (p & Hp & ->).
    unfold player_step. rewrite Hp.
    rewrite decide_False by congruence.
    assert (is_being_captured t0 = false) as ->
      by (apply bool_decide_eq_false; intros H; by apply H).
    simpl. split; [done|]. left. repeat (split; [done|]). constructor.
  - apply Forall_app in Hall as [Hall Hk]. apply Forall_cons in Hk as [Hk _].
    destruct (IH Hall) as [Hreq Hst]. clear IH.
    unfold t. rewrite app_comm_cons, run_ticks_snoc.
    set (s := run_ticks t0 (k0 :: ks)) in *.
    assert (present_ids s k = [i]) as Hk'
      by (unfold s; by rewrite present_ids_run).
    destruct (tick_lone s k i Hk') as (p & Hp & ->).
    unfold player_step. rewrite Hp.
    destruct Hst as [(Hc & Hcap & Hstart & Hearly)|(Hc & Hcap & Hpts & Hlate)].
    + rewrite decide_False by congruence.
      assert (is_being_captured s = true) as Hbeing
        by (apply bool_decide_eq_true; congruence).
      rewrite Hbeing. cbn [negb]. rewrite decide_True by done.
      destruct (Qlt_le_dec (tick_time k - tick_time k0) TERRITORY_CAPTURE_TIME)
        as [He|Hl].
      * rewrite early_no_progress by (by rewrite Hstart).
        simpl. split; [done|]. left. repeat (split; [done|]).
        apply Forall_app. split; [done|]. by constructor.
      * rewrite elapsed_full_progress by (done || by rewrite Hstart).
        simpl. split; [done|]. right. repeat (split; [done|]).
        apply Exists_app. right. by constructor.
    + rewrite decide_True by done. simpl. split; [done|]. right.
      repeat (split; [done|]). apply Exists_app. by left.
Qed.

(** X13.  A lone challenger succeeds.  From a territory with no attempt
    running, let [i], who is not the controller, be the only alive player
    in the radius at tick [k0] and at every later tick.  As long as no tick
    is 60 seconds or more after [k0], the controller is unchanged and the
    attempt is [i]'s, started at the time of [k0]; as soon as some tick is
    at least TERRITORY_CAPTURE_TIME after [k0], [i] controls the territory,
    no attempt is left and the capture points are at the required value. *)
Theorem lone_challenger_captures (t0 : TerritoryState) (k0 : Tick)
    (ks : list Tick) (i : Z) :
  capturing_player_id t0 = None →
  controller_id t0 ≠ Some i →
  present_ids t0 k0 = [i] →
  Forall (λ k, present_ids t0 k = [i]) ks →
  let t := run_ticks t0 (k0 :: ks) in
  (Forall (λ k, tick_time k - tick_time k0 < TERRITORY_CAPTURE_TIME) ks →
   controller_id t = controller_id t0 ∧ capturing_player_id t = Some i ∧
   capture_start_time t = tick_time k0) ∧
  (Exists (λ k, TERRITORY_CAPTURE_TIME <= tick_time k - tick_time k0) ks →
   controller_id t = Some i ∧ capturing_player_id t = None ∧
   capture_points t = capture_points_required t0).
Proof.
  intros Hnone Hctrl Hk0 Hall t.
  destruct (lone_challenger_states t0 k0 ks i Hnone Hctrl Hk0 Hall)
    as [_ [(Hc & Hcap & Hstart & Hearly)|(Hc & Hcap & Hpts & Hlate)]];
    fold t in Hc, Hcap.
  - split; [done|]. intros Hlate. exfalso.
    apply Exists_exists in Hlate as (k & Hin & Hl).
    rewrite Forall_forall in Hearly. specialize (Hearly k Hin). lra.
  - split; [|done]. intros Hearly. exfalso.
    apply Exists_exists in Hlate as (k & Hin & Hl).
    rewrite Forall_forall in Hearly. specialize (Hearly k Hin). lra.
Qed.

Lemma lone_challenger_captures_witness :
  controller_id (run_ticks castle [lone_start; lone_wait]) = None ∧
  controller_id (run_ticks castle [lone_start; lone_wait; lone_done]) = Some 1%Z.
Proof.
  split.
  - destruct (lone_challenger_captures castle lone_start [lone_wait] 1)
      as [H _]; [done|done|by vm_compute| |].
    + constructor; [by vm_compute|constructor].
    + apply H. constructor; [by vm_compute|constructor].
  - destruct (lone_challenger_captures castle lone_start [lone_wait; lone_done] 1)
      as [_ H]; [done|done|by vm_compute| |].
    + constructor; [by vm_compute|]. constructor; [by vm_compute|constructor].
    + apply H. right. left. by vm_compute.
Defined.

End territory_progress.

(** ** Reincarnation: admission, the cap and the preview *)

Section reincarnation_gate.
Import Constants Utils Reincarnation ReincarnationPreview.
Local Open Scope Q_scope.










End reincarnation_gate.

(** ** The client's receive loop: stream reassembly *)

Section stream_reassembly.
Import Protocol NetworkClient.
Context {zlib : Zlib}.

Lemma unpack_be_nonneg (bs : bytes) : 0 ≤ unpack_be bs.
Proof.
  induction bs as [|b bs IH]; [done|].
  rewrite unpack_be_cons. pose proof (Z_of_byte_range b).
  assert (0 ≤ 256 ^ Z.of_nat (length bs)) by (apply Z.pow_nonneg; lia). nia.
Qed.

Lemma declared_length_nonneg (buffer : bytes) : 0 ≤ declared_length buffer.
Proof. apply unpack_be_nonneg. Qed.

(** One round of the loop, without the fuel. *)
Lemma process_complete_packets_round (n : nat) (buffer : bytes) (queue : list Packet) :
  process_complete_packets (S n) buffer queue =
  if bool_decide (HEADER_SIZE ≤ length buffer)%nat then
    if bool_decide (Z.of_nat (length buffer)
                    < Z.of_nat HEADER_SIZE + declared_length buffer)
    then (buffer, queue, None)
    else process_complete_packets n
           (drop (Z.to_nat (Z.of_nat HEADER_SIZE + declared_length buffer)) buffer)
           (enqueue (take (Z.to_nat (Z.of_nat HEADER_SIZE + declared_length buffer))
                       buffer) queue)
  else (buffer, queue, None).
Proof.
  cbn [process_complete_packets]. case_bool_decide as Hlen; [|done].
  unfold struct_unpack. rewrite bool_decide_true; [done|].
  rewrite length_take. change (calcsize HEADER_FORMAT) with HEADER_SIZE. lia.
Qed.

Lemma process_complete_packets_fuel (n m : nat) (buffer : bytes) (queue : list Packet) :
  (length buffer ≤ n)%nat → (length buffer ≤ m)%nat →
  process_complete_packets n buffer queue = process_complete_packets m buffer queue.
Proof.
  revert m buffer queue. induction n as [|n IH]; intros m buffer queue Hn Hm.
  - destruct buffer; [|simpl in Hn; lia]. by destruct m.
  - destruct m as [|m].
    + destruct buffer; [done|simpl in Hm; lia].
    + rewrite !process_complete_packets_round.
      case_bool_decide as Hlen; [|done]. case_bool_decide as Hfull; [done|].
      pose proof (declared_length_nonneg buffer). rewrite header_size in *.
      apply IH; rewrite length_drop; lia.
Qed.

Lemma drain_round (buffer : bytes) (queue : list Packet) :
  drain buffer queue =
  if bool_decide (HEADER_SIZE ≤ length buffer)%nat then
    if bool_decide (Z.of_nat (length buffer)
                    < Z.of_nat HEADER_SIZE + declared_length buffer)
    then (buffer, queue, None)
    else drain (drop (Z.to_nat (Z.of_nat HEADER_SIZE + declared_length buffer)) buffer)
           (enqueue (take (Z.to_nat (Z.of_nat HEADER_SIZE + declared_length buffer))
                       buffer) queue)
  else (buffer, queue, None).
Proof.
  unfold drain. destruct (length buffer) as [|n] eqn:Hn.
  - by rewrite bool_decide_false by (rewrite header_size; lia).
  - rewrite process_complete_packets_round, Hn.
    case_bool_decide as Hlen; [|done]. case_bool_decide as Hfull; [done|].
    pose proof (declared_length_nonneg buffer). rewrite header_size in *.
    apply process_complete_packets_fuel; rewrite ?length_drop; lia.
Qed.

Lemma declared_length_app (a b : bytes) :
  (HEADER_SIZE ≤ length a)%nat → declared_length (a ++ b) = declared_length a.
Proof.
  intros Ha. unfold declared_length. by rewrite take_app_le.
Qed.

(** The loop never raises and stops on an incomplete buffer. *)
Lemma drain_stops (buffer : bytes) (queue : list Packet) :
  (drain buffer queue).2 = None ∧ incomplete (drain buffer queue).1.1.
Proof.
  remember (length buffer) as n eqn:Hn. revert buffer queue Hn.
  induction (lt_wf n) as [n _ IH]. intros buffer queue ->.
  rewrite drain_round. case_bool_decide as Hlen.
  - case_bool_decide as Hfull; [split; [done|by right]|].
    pose proof (declared_length_nonneg buffer). rewrite header_size in *.
    eapply IH; [|reflexivity]. rewrite length_drop. lia.
  - split; [done|]. left. simpl. lia.
Qed.

(** Receiving more bytes continues where the loop had stopped. *)
Lemma drain_app (a b : bytes) (queue : list Packet) :
  drain (a ++ b) queue =
  drain ((drain a queue).1.1 ++ b) (drain a queue).1.2.
Proof.
  remember (length a) as n eqn:Hn. revert a queue Hn.
  induction (lt_wf n) as [n _ IH]. intros a queue ->.
  rewrite (drain_round a). case_bool_decide as Hlen; [|done].
  case_bool_decide as Hfull; [done|].
  pose proof (declared_length_nonneg a). rewrite header_size in *.
  rewrite (drain_round (a ++ b)).
  rewrite bool_decide_true by (rewrite length_app, header_size; lia).
  rewrite declared_length_app by (rewrite header_size; lia).
  rewrite bool_decide_false by (rewrite length_app, header_size; lia).
  rewrite header_size.
  rewrite take_app_le, drop_app_le by lia.
  eapply IH; [|reflexivity]. rewrite length_drop. lia.
Qed.

Lemma receive_loop_drain (received : list bytes) (buffer : bytes)
    (queue : list Packet) :
  Forall (λ data, data ≠ []) received →
  incomplete buffer ∨ buffer = [] →
  _receive_loop received buffer queue =
  ((drain (buffer ++ concat received) queue).1, true).
Proof.
  revert buffer queue. induction received as [|data received IH];
    intros buffer queue Hne Hinc.
  - simpl. rewrite app_nil_r.
    assert (drain buffer queue = (buffer, queue, None)) as ->; [|done].
    rewrite drain_round. case_bool_decide as Hlen; [|done].
    rewrite bool_decide_true; [done|].
    destruct Hinc as [[?|?]| ->]; [lia|done|].
    rewrite header_size in Hlen. simpl in Hlen. lia.
  - apply Forall_cons in Hne as [Hdata Hne].
    cbn [_receive_loop concat]. rewrite bool_decide_false by done.
    fold (drain (buffer ++ data) queue).
    destruct (drain_stops (buffer ++ data) queue) as [Hnone Hstop].
    destruct (drain (buffer ++ data) queue) as [[buffer2 queue2] e] eqn:E.
    simpl in Hnone, Hstop. subst e.
    rewrite IH by (done || by left).
    rewrite app_assoc, (drain_app (buffer ++ data)), E. done.
Qed.

(** X17.  The receive loop reassembles the byte stream whatever way
    [recv] cuts it: for every sequence of non-empty [recv] results the
    buffer and the queue at the end are those of one pass over the
    concatenated stream.  The loop itself never raises and never
    disconnects, and what it leaves in the buffer is an incomplete frame:
    shorter than a header, or shorter than its header announces. *)
Theorem receive_loop_chunking (received : list bytes) :
  Forall (λ data, data ≠ []) received →
  ∃ buffer queue,
    _receive_loop received [] [] = (buffer, queue, true) ∧
    drain (concat received) [] = (buffer, queue, None) ∧
    incomplete buffer.
Proof.
  intros Hne. rewrite (receive_loop_drain received [] []) by (done || by right).
  simpl. destruct (drain_stops (concat received) []) as [Hnone Hstop].
  destruct (drain (concat received) []) as [[buffer queue] e].
  simpl in *. subst e. by exists buffer, queue.
Qed.

End stream_reassembly.

Section stream_examples.
Import Protocol NetworkClient.

Lemma receive_loop_chunking_witness :
  ∃ buffer queue,
    @_receive_loop stored_zlib hello_received [] [] = (buffer, queue, true) ∧
    @drain stored_zlib (concat hello_received) [] = (buffer, queue, None) ∧
    incomplete buffer.
Proof.
  apply (@receive_loop_chunking stored_zlib hello_received).
  repeat constructor; by vm_compute.
Defined.

End stream_examples.

(** ** Sending and receiving, end to end *)

Section delivery.
Import Protocol NetworkClient.
Context {zlib : Zlib} {zlib_spec : ZlibSpec zlib}.

Lemma serialize_frame_of (p : Packet) :
  sendable p → 0 ≤ sequence p < 65536 →
  ∃ frame, serialize p = (delivered (sequence p) p, Returned frame) ∧
           frame_of (delivered (sequence p) p) frame.
Proof.
  intros [Hlen Hc] Hseq.
  destruct (deserialize_serialize p Hlen Hc Hseq) as (header & Hh & Hs & Hd).
  destruct (struct_pack_unpack _ _ _ Hh) as [Hsize Hfields].
  change (calcsize HEADER_FORMAT) with HEADER_SIZE in Hsize.
  assert (delivered (sequence p) p
          = set_compressed p (bool_decide (512 < length (payload p))%nat)) as ->
    by (by destruct p).
  exists (header ++ frame_body (payload p)). split; [done|].
  split; [rewrite length_app; lia|]. split; [|done].
  unfold declared_length. rewrite take_app_length' by done.
  assert (unpack_be (take 4 (drop 2 header))
          = Z.of_nat (length (frame_body (payload p)))) as ->.
  { cbn [unpack_fields HEADER_FORMAT fmt_size] in Hfields.
    by injection Hfields as _ -> _. }
  rewrite length_app. lia.
Qed.

Lemma drain_frame (p : Packet) (frame rest : bytes) (queue : list Packet) :
  frame_of p frame →
  drain (frame ++ rest) queue = drain rest (queue ++ [p]).
Proof.
  intros (Hlen & Hsize & Hd). rewrite drain_round.
  rewrite bool_decide_true by (rewrite length_app; lia).
  rewrite declared_length_app by done.
  pose proof (declared_length_nonneg frame).
  rewrite bool_decide_false by (rewrite length_app; lia).
  rewrite <- Hsize, Nat2Z.id.
  rewrite take_app_length, drop_app_length. unfold enqueue. by rewrite Hd.
Qed.

Lemma drain_frames (ps : list Packet) (frames : list bytes) (queue : list Packet) :
  Forall2 frame_of ps frames →
  drain (concat frames) queue = ([], queue ++ ps, None).
Proof.
  intros Hfs. revert queue. induction Hfs as [|p frame ps frames Hf _ IH];
    intros queue.
  - simpl. by rewrite app_nil_r.
  - cbn [concat]. rewrite (drain_frame p) by done.
    rewrite IH. by rewrite <- app_assoc.
Qed.

Lemma send_all_frames (self : NetworkClient) (packets : list Packet) :
  connected self = true →
  0 ≤ nc_sequence self →
  nc_sequence self + Z.of_nat (length packets) ≤ 65536 →
  Forall sendable packets →
  ∃ frames,
    send_all self packets =
      ({| connected := true;
          nc_sequence := nc_sequence self + Z.of_nat (length packets);
          socket_out := socket_out self ++ frames;
          packet_queue := packet_queue self |},
       replicate (length packets) true) ∧
    Forall2 frame_of (deliveries (nc_sequence self) packets) frames.
Proof.
  revert self. induction packets as [|p packets IH]; intros self Hc Hs0 Hs Hall.
  - exists []. split; [|constructor]. simpl. rewrite app_nil_r, Z.add_0_r.
    destruct self; simpl in *; by subst.
  - apply Forall_cons in Hall as [Hp Hall]. simpl length in Hs.
    destruct (serialize_frame_of (set_sequence p (nc_sequence self)))
      as (frame & Hser & Hframe); [done|simpl; lia|].
    cbn [send_all]. unfold send_packet. rewrite Hc. cbn [negb].
    rewrite Hser.
    rewrite Z.mod_small by lia.
    match goal with |- context [send_all ?s packets] =>
      destruct (IH s) as (frames & -> & Hframes); [done|simpl; lia|simpl; lia|done|]
    end.
    exists (frame :: frames). cbn [nc_sequence socket_out packet_queue].
    split.
    + simpl length. rewrite <- app_assoc. simpl.
      replace (nc_sequence self + 1 + Z.of_nat (length packets))
        with (nc_sequence self + Z.of_nat (S (length packets))) by lia.
      done.
    + constructor; [|done].
      replace (delivered (nc_sequence self) p)
        with (delivered (sequence (set_sequence p (nc_sequence self)))
                (set_sequence p (nc_sequence self))) by (by destruct p).
      exact Hframe.
Qed.

(** X18.  What a connected client sends arrives.  For up to 65536
    packets with payloads within MAX_PAYLOAD_SIZE, sent one after the other
    by a freshly connected client: every [send_packet] returns [True]; the
    packets carry the sequence numbers 0, 1, 2, ...; and a receive loop fed
    the bytes written to the socket, cut by [recv] in any way, ends with an
    empty buffer and a queue holding every packet in order, each with its
    type, payload and sequence number (and [compressed] set for payloads
    over 512 bytes). *)
Theorem sent_packets_are_received (packets : list Packet) (received : list bytes) :
  Forall sendable packets →
  Z.of_nat (length packets) ≤ 65536 →
  let self := (send_all NetworkClient_connected packets).1 in
  Forall (λ data, data ≠ []) received →
  concat received = concat (socket_out self) →
  (send_all NetworkClient_connected packets).2 = replicate (length packets) true ∧
  connected self = true ∧
  nc_sequence self = Z.of_nat (length packets) ∧
  _receive_loop received [] [] = ([], deliveries 0 packets, true) ∧
  Forall2 (λ p q, packet_type q = packet_type p ∧ payload q = payload p)
    packets (deliveries 0 packets).
Proof.
  intros Hall Hn self Hne Hcat.
  destruct (send_all_frames NetworkClient_connected packets)
    as (frames & Hsend & Hframes); [done|done|simpl; lia|done|].
  unfold self in *. rewrite Hsend in *. simpl in Hcat |- *.
  split; [done|]. split; [done|]. split; [done|]. split.
  - rewrite (receive_loop_drain received [] []) by (done || by right).
    simpl. rewrite Hcat. by rewrite (drain_frames _ _ [] Hframes).
  - clear. generalize 0. induction packets as [|p packets IH]; intros s;
      constructor; [done|apply IH].
Qed.

End delivery.

Section delivery_examples.
Import Protocol NetworkClient.

Lemma sent_packets_are_received_witness :
  @_receive_loop stored_zlib two_packets_received [] []
  = ([], deliveries 0 two_packets, true).
Proof.
  apply (@sent_packets_are_received stored_zlib stored_zlib_spec two_packets
           two_packets_received).
  - repeat constructor; by vm_compute.
  - by vm_compute.
  - repeat constructor; by vm_compute.
  - vm_compute. reflexivity.
Defined.

End delivery_examples.

Section sequence_exhaustion.
Import Protocol NetworkClient.
Context {zlib : Zlib} {zlib_spec : ZlibSpec zlib}.

Lemma header_pack_overflow (a b s f k : Z) :
  65536 ≤ s → struct_pack HEADER_FORMAT [a; b; s; f; k] = Raised StructError.
Proof.
  intros Hs. unfold HEADER_FORMAT. cbn [struct_pack].
  do 2 (case_bool_decide; [|done]).
  rewrite (bool_decide_false (0 ≤ s < _)); [done|].
  change (2 ^ (8 * Z.of_nat (fmt_size fmt_H))) with 65536. lia.
Qed.

Lemma serialize_sequence_overflow (p : Packet) :
  65536 ≤ sequence p →
  (serialize p).2 = Raised StructError.
Proof.
  destruct p as [t pl c e s]. cbn [sequence]. intros Hs. unfold serialize.
  cbn [payload compressed encrypted packet_type sequence].
  destruct (bool_decide _ && negb c);
    cbn [snd set_compressed payload compressed encrypted packet_type sequence];
    by rewrite header_pack_overflow.
Qed.

Lemma send_packet_overflow (self : NetworkClient) (p : Packet) :
  connected self = true → 65536 ≤ nc_sequence self →
  ∃ self' p2, send_packet self p = (self', p2, false) ∧
    connected self' = false ∧ socket_out self' = socket_out self.
Proof.
  intros Hc Hs. unfold send_packet. rewrite Hc. cbn [negb].
  pose proof (serialize_sequence_overflow (set_sequence p (nc_sequence self)) Hs)
    as Hov.
  destruct (serialize (set_sequence p (nc_sequence self))) as [p2 data].
  simpl in Hov. subst data. by eexists _, _.
Qed.

Lemma send_packet_disconnected (self : NetworkClient) (p : Packet) :
  connected self = false → send_packet self p = (self, p, false).
Proof. intros Hc. unfold send_packet. by rewrite Hc. Qed.

(** X19.  The client's sequence counter outgrows the header.  After
    65536 packets have been sent, the counter stands at 65536, which the
    two-byte sequence field cannot hold: the next [send_packet] returns
    [False], writes nothing to the socket and leaves the client
    disconnected, after which every [send_packet] returns [False]. *)
Theorem client_sequence_exhaustion (packets : list Packet) (p : Packet) :
  Forall sendable packets →
  Z.of_nat (length packets) = 65536 →
  let self := (send_all NetworkClient_connected packets).1 in
  let self' := (send_packet self p).1.1 in
  connected self = true ∧
  (send_packet self p).2 = false ∧
  connected self' = false ∧
  socket_out self' = socket_out self ∧
  ∀ p', send_packet self' p' = (self', p', false).
Proof.
  intros Hall Hn self self'.
  destruct (send_all_frames NetworkClient_connected packets)
    as (frames & Hsend & _); [done|done|simpl; lia|done|].
  unfold self', self. rewrite Hsend. clear self self'. cbn [fst].
  match goal with |- context [send_packet ?s p] =>
    destruct (send_packet_overflow s p) as (s' & p2 & -> & Hc' & Hout);
      [done|simpl; lia|]
  end.
  cbn [fst snd]. split; [done|]. split; [done|]. split; [done|]. split; [done|].
  intros p'. by apply send_packet_disconnected.
Qed.

End sequence_exhaustion.

Section sequence_exhaustion_examples.
Import Protocol NetworkClient.

Lemma client_sequence_exhaustion_witness :
  let packets := replicate (Z.to_nat 65536) (Packet_new PING []) in
  let self := (@send_all stored_zlib NetworkClient_connected packets).1 in
  connected self = true ∧
  (@send_packet stored_zlib self (Packet_new PING [])).2 = false.
Proof.
  intros packets self.
  destruct (@client_sequence_exhaustion stored_zlib stored_zlib_spec packets
              (Packet_new PING [])) as (Hc & Hok & _).
  - apply Forall_replicate. split; by vm_compute.
  - unfold packets. rewrite length_replicate. by rewrite Z2Nat.id.
  - split; [exact Hc|exact Hok].
Defined.

End sequence_exhaustion_examples.

(** ** Frames: repeated serialization, truncation and corruption *)

Section frames.
Import Protocol.
Context {zlib : Zlib} {zlib_spec : ZlibSpec zlib}.

(** X20.  [serialize] is not repeatable on a large packet.  The first
    call on a packet with more than 512 payload bytes sends the compressed
    payload and marks the packet object compressed without replacing its
    payload; a second call on the same object (as a broadcast to a second
    session makes) therefore sends the raw payload under the compressed
    flag, and the receiver hands the raw payload to [zlib.decompress]: it
    gets an error, or whatever those bytes inflate to. *)
Theorem serialize_twice_sends_raw_payload (p : Packet) :
  (512 < length (payload p))%nat →
  Z.of_nat (length (payload p)) ≤ MAX_PAYLOAD_SIZE →
  compressed p = false →
  0 ≤ sequence p < 65536 →
  let p1 := (serialize p).1 in
  ∃ header1 header2,
    length header1 = HEADER_SIZE ∧ length header2 = HEADER_SIZE ∧
    (serialize p).2 = Returned (header1 ++ zlib_compress (payload p)) ∧
    deserialize (header1 ++ zlib_compress (payload p)) = Returned p1 ∧
    payload p1 = payload p ∧ compressed p1 = true ∧
    serialize p1 = (p1, Returned (header2 ++ payload p)) ∧
    deserialize (header2 ++ payload p) =
      match zlib_decompress (payload p) with
      | Some d =>
        Returned {| packet_type := packet_type p; payload := d;
                    compressed := true; encrypted := encrypted p;
                    sequence := sequence p |}
      | None => Raised ZlibError
      end.
Proof.
  intros Hlong Hlen Hc Hseq p1.
  destruct (deserialize_serialize p Hlen Hc Hseq) as (header1 & Hh1 & Hs1 & Hd1).
  unfold frame_body in *. rewrite bool_decide_true in * by done.
  unfold p1. rewrite Hs1. cbn [fst snd].
  destruct (struct_pack_unpack _ _ _ Hh1) as [Hsize1 _].
  destruct (struct_pack_in_range HEADER_FORMAT
    [packet_type_value (packet_type p); Z.of_nat (length (payload p)); sequence p;
     Z.lor 1 (if encrypted p then 2 else 0);
     _calculate_checksum (payload p)]) as [header2 Hh2].
  { unfold MAX_PAYLOAD_SIZE in Hlen.
    constructor; [apply packet_type_value_range|].
    constructor;
      [change (2 ^ (8 * Z.of_nat (fmt_size fmt_I))) with 4294967296; lia|].
    constructor; [exact Hseq|].
    constructor; [by destruct (encrypted p); vm_compute|].
    constructor; [apply checksum_range|]. constructor. }
  destruct (struct_pack_unpack _ _ _ Hh2) as [Hsize2 _].
  exists header1, header2.
  split; [done|]. split; [done|]. split; [done|]. split; [done|].
  split; [done|]. split; [done|]. split.
  - unfold serialize.
    cbn [set_compressed payload compressed encrypted packet_type sequence negb].
    rewrite andb_false_r.
    cbn [set_compressed payload compressed encrypted packet_type sequence].
    assert ((if encrypted p then Z.lor (Z.lor 0 1) 2 else Z.lor 0 1)
            = Z.lor 1 (if encrypted p then 2 else 0)) as ->
      by (by destruct (encrypted p)).
    by rewrite Hh2.
  - rewrite (deserialize_frame _ _ _ _ _ Hh2).
    assert (bool_decide (Z.land (Z.lor 1 (if encrypted p then 2 else 0)) 1 ≠ 0)
            = true) as -> by (by destruct (encrypted p)).
    assert (bool_decide (Z.land (Z.lor 1 (if encrypted p then 2 else 0)) 2 ≠ 0)
            = encrypted p) as -> by (by destruct (encrypted p)).
    by destruct (zlib_decompress (payload p)).
Qed.

End frames.

Section frames_examples.
Import Protocol.

Lemma serialize_twice_sends_raw_payload_witness :
  let p := Packet_new WORLD_ANNOUNCEMENT long_payload in
  let p1 := (@serialize stored_zlib p).1 in
  ∃ header2,
    @serialize stored_zlib p1 = (p1, Returned (header2 ++ long_payload)) ∧
    @deserialize stored_zlib (header2 ++ long_payload) = Raised ZlibError.
Proof.
  intros p p1.
  destruct (@serialize_twice_sends_raw_payload stored_zlib stored_zlib_spec p)
    as (header1 & header2 & _ & _ & _ & _ & _ & _ & Hs2 & Hd2);
    [unfold p, long_payload; cbn [payload Packet_new];
     rewrite length_replicate; lia
    |by vm_compute|done|by vm_compute|].
  change (payload p) with long_payload in Hs2, Hd2.
  exists header2. split; [exact Hs2|]. rewrite Hd2. reflexivity.
Defined.

End frames_examples.

Section frame_checks.
Import Protocol.
Context {zlib : Zlib}.

Lemma land_255 (z : Z) : Z.land z 255 = z mod 256.
Proof. change 255 with (Z.ones 8). by rewrite Z.land_ones by lia. Qed.

Lemma byte_sum_insert (body : list byte) (i : nat) (b b' : byte) :
  body !! i = Some b →
  foldr (λ b acc, Z_of_byte b + acc) 0 (<[i := b']> body)
  = foldr (λ b acc, Z_of_byte b + acc) 0 body - Z_of_byte b + Z_of_byte b'.
Proof.
  revert i. induction body as [|x body IH]; intros [|i] Hi; try done.
  - injection Hi as ->. simpl. lia.
  - simpl in Hi. change (<[S i := b']> (x :: body)) with (x :: <[i := b']> body).
    cbn [foldr]. rewrite (IH _ Hi). lia.
Qed.

Lemma checksum_insert (body : list byte) (i : nat) (b b' : byte) :
  body !! i = Some b → b' ≠ b →
  _calculate_checksum (<[i := b']> body) ≠ _calculate_checksum body.
Proof.
  intros Hi Hne. unfold _calculate_checksum.
  rewrite !land_255, (byte_sum_insert _ _ _ _ Hi).
  set (s := foldr _ 0 body).
  pose proof (Z_of_byte_range b). pose proof (Z_of_byte_range b').
  assert (Z_of_byte b' ≠ Z_of_byte b) as Hz.
  { intros E. apply Hne. unfold Z_of_byte in E.
    assert (Some b' = Some b) as [= ->]; [|done].
    rewrite <- (Byte.of_to_N b'), <- (Byte.of_to_N b). f_equal. lia. }
  intros E.
  assert ((s - Z_of_byte b + Z_of_byte b' - s) mod 256 = 0) as Hm.
  { rewrite Zminus_mod, E, Z.sub_diag. done. }
  replace (s - Z_of_byte b + Z_of_byte b' - s)
    with (Z_of_byte b' - Z_of_byte b) in Hm by lia.
  apply Z.mod_divide in Hm as [k Hk]; lia.
Qed.

Lemma checksum_permutation (body body' : bytes) :
  body ≡ₚ body' → _calculate_checksum body' = _calculate_checksum body.
Proof.
  intros Hp. unfold _calculate_checksum. f_equal.
  induction Hp; simpl; lia.
Qed.

(** Decoding a buffer that starts with a packed header. *)
Lemma deserialize_header (ptype len seq flags checksum : Z)
    (header rest : bytes) :
  struct_pack HEADER_FORMAT [ptype; len; seq; flags; checksum] = Returned header →
  deserialize (header ++ rest) =
  if bool_decide (Z.of_nat (length (header ++ rest)) < Z.of_nat HEADER_SIZE + len)
  then Raised (ValueError "Insufficient data for packet payload") else
  let payload1 := take (Z.to_nat len) rest in
  if bool_decide (_calculate_checksum payload1 ≠ checksum)
  then Raised (ValueError "Packet checksum mismatch") else
  payload2 ← (if bool_decide (Z.land flags 1 ≠ 0)
              then match zlib_decompress payload1 with
                   | Some d => Returned d
                   | None => Raised ZlibError
                   end
              else Returned payload1);
  t ← PacketType_of_value ptype;
  Returned {| packet_type := t; payload := payload2;
              compressed := bool_decide (Z.land flags 1 ≠ 0);
              encrypted := bool_decide (Z.land flags 2 ≠ 0);
              sequence := seq |}.
Proof.
  intros Hpack. destruct (struct_pack_unpack _ _ _ Hpack) as [Hlen Hfields].
  fold HEADER_SIZE in Hlen. unfold deserialize.
  rewrite bool_decide_false by (rewrite length_app; lia).
  rewrite take_app_length' by done.
  unfold struct_unpack. rewrite bool_decide_true by done.
  rewrite Hfields. cbn [mbind outcome_bind].
  by rewrite drop_app_length' by done.
Qed.

(** X21.  What [deserialize] checks on a frame whose header was packed
    for the body behind it.  Every proper prefix of the frame is refused
    with one of the two [ValueError]s for insufficient data; bytes after
    the frame are ignored; replacing any one byte of the body by a
    different byte is refused with the checksum [ValueError]; but the
    checksum is a plain byte sum, so every reordering of an uncompressed
    body whose type field is valid is accepted and returned as the
    payload. *)
Theorem deserialize_frame_checks (ptype seq flags : Z) (header : bytes)
    (body : list byte) :
  struct_pack HEADER_FORMAT
    [ptype; Z.of_nat (length body); seq; flags; _calculate_checksum body]
    = Returned header →
  (∀ n, (n < length (header ++ body))%nat →
     deserialize (take n (header ++ body)) =
     Raised (ValueError (if bool_decide (n < HEADER_SIZE)%nat
                         then "Insufficient data for packet header"
                         else "Insufficient data for packet payload"))) ∧
  (∀ extra, deserialize (header ++ body ++ extra) = deserialize (header ++ body)) ∧
  (∀ i b b', body !! i = Some b → b' ≠ b →
     deserialize (header ++ <[i := b']> body)
     = Raised (ValueError "Packet checksum mismatch")) ∧
  (∀ body' t, body ≡ₚ body' → Z.land flags 1 = 0 →
     PacketType_of_value ptype = Returned t →
     deserialize (header ++ body') =
     Returned {| packet_type := t; payload := body'; compressed := false;
                 encrypted := bool_decide (Z.land flags 2 ≠ 0);
                 sequence := seq |}).
Proof.
  intros Hpack. destruct (struct_pack_unpack _ _ _ Hpack) as [Hlen _].
  fold HEADER_SIZE in Hlen.
  pose proof (λ rest, deserialize_header _ _ _ _ _ header rest Hpack) as Hd.
  split; [|split; [|split]].
  - intros n Hn. rewrite length_app in Hn.
    destruct (decide (n < HEADER_SIZE)%nat) as [Hshort|Hshort].
    + rewrite (bool_decide_true (n < HEADER_SIZE)%nat) by done.
      unfold deserialize. rewrite bool_decide_true; [done|].
      rewrite length_take. lia.
    + rewrite (bool_decide_false (n < HEADER_SIZE)%nat) by done.
      rewrite take_app_ge by lia. rewrite Hd.
      rewrite bool_decide_true; [done|].
      rewrite length_app, length_take. lia.
  - intros extra.
    assert (∀ rest, (length body ≤ length rest)%nat →
      bool_decide (Z.of_nat (length (header ++ rest))
                   < Z.of_nat HEADER_SIZE + Z.of_nat (length body)) = false) as Hfit
      by (intros rest Hr; apply bool_decide_eq_false; rewrite length_app; lia).
    rewrite !Hd, !Hfit by (rewrite ?length_app; lia).
    rewrite Nat2Z.id. cbv zeta. by rewrite take_app_length, firstn_all.
  - intros i b b' Hi Hne. rewrite Hd.
    rewrite (bool_decide_false (Z.of_nat _ < _))
      by (rewrite length_app, length_insert; lia).
    cbv zeta. rewrite Nat2Z.id.
    rewrite <- (length_insert body i b'), firstn_all.
    rewrite bool_decide_true; [done|]. by eapply checksum_insert.
  - intros body' t Hp Hflag Ht. rewrite Hd.
    pose proof (Permutation_length Hp) as Hl.
    rewrite (bool_decide_false (Z.of_nat _ < _)) by (rewrite length_app; lia).
    cbv zeta. rewrite Nat2Z.id, Hl, firstn_all.
    rewrite (bool_decide_false (_calculate_checksum _ ≠ _))
      by (rewrite (checksum_permutation _ _ Hp); tauto).
    rewrite Hflag, Ht. cbn [mbind outcome_bind].
    by rewrite bool_decide_false by tauto.
Qed.

End frame_checks.

Section frame_checks_examples.
Import Protocol.

Lemma deserialize_frame_checks_witness :
  @deserialize stored_zlib (take 12 hello_frame)
    = Raised (ValueError "Insufficient data for packet payload") ∧
  @deserialize stored_zlib (take 10 hello_frame ++ [x68; x65; x6c; x6c; x6e])
    = Raised (ValueError "Packet checksum mismatch").
Proof.
  destruct (@deserialize_frame_checks stored_zlib
              (packet_type_value CHAT_MESSAGE) 0 0 (take 10 hello_frame)
              short_payload) as (Hcut & _ & Hflip & _).
  - vm_compute. reflexivity.
  - split.
    + apply (Hcut 12%nat). vm_compute. lia.
    + apply (Hflip 4%nat x6f x6e); [reflexivity|discriminate].
Defined.

End frame_checks_examples.

(** ** Payloads: strings, builders and parsers *)

Section payload_strings.
Import Protocol Payloads.
Context {utf8 : Utf8} {utf8_spec : Utf8Spec utf8} {float32 : Float32}.

Lemma pack_string_ok (s : str) :
  Z.of_nat (length (utf8_encode s)) ≤ 65535 →
  pack_string s
  = Returned (pack_be 2 (Z.of_nat (length (utf8_encode s))) ++ utf8_encode s).
Proof.
  intros Hlen. unfold pack_string. cbn [struct_pack].
  rewrite bool_decide_true; [done|].
  change (2 ^ (8 * Z.of_nat (fmt_size fmt_H))) with 65536. lia.
Qed.

Lemma pack_string_too_long (s : str) :
  65535 < Z.of_nat (length (utf8_encode s)) →
  pack_string s = Raised StructError.
Proof.
  intros Hlen. unfold pack_string. cbn [struct_pack].
  rewrite bool_decide_false; [done|].
  change (2 ^ (8 * Z.of_nat (fmt_size fmt_H))) with 65536. lia.
Qed.

(** Reading a length-prefixed field that sits at [offset]. *)
Lemma unpack_string_field (pre post e : bytes) (n : Z) :
  0 ≤ n < 65536 →
  unpack_string (pre ++ (pack_be 2 n ++ e) ++ post) (length pre) =
  match utf8_decode (take (Z.to_nat n) (e ++ post)) with
  | Some string => Returned (string, (length pre + 2 + Z.to_nat n)%nat)
  | None => Raised (ValueError "utf-8")
  end.
Proof.
  intros Hn. unfold unpack_string, slice.
  replace (length pre + 2 - length pre)%nat with 2%nat by lia.
  rewrite drop_app_length. rewrite <- !app_assoc.
  rewrite take_app_length' by (by rewrite length_pack_be).
  unfold struct_unpack. rewrite bool_decide_true by (by rewrite length_pack_be).
  cbn [unpack_fields fmt_size mbind outcome_bind].
  change (take 2 (pack_be 2 n)) with (pack_be 2 n).
  rewrite unpack_pack_be_small by (change (2 ^ (8 * Z.of_nat 2)) with 65536; lia).
  replace (length pre + 2 + Z.to_nat n - (length pre + 2))%nat
    with (Z.to_nat n) by lia.
  rewrite <- drop_drop, drop_app_length.
  rewrite drop_app_length' by (by rewrite length_pack_be). done.
Qed.

Lemma unpack_string_packed (pre post : bytes) (s : str) :
  Z.of_nat (length (utf8_encode s)) ≤ 65535 →
  unpack_string
    (pre ++ (pack_be 2 (Z.of_nat (length (utf8_encode s))) ++ utf8_encode s) ++ post)
    (length pre)
  = Returned (s, (length pre + 2 + length (utf8_encode s))%nat).
Proof.
  intros Hlen. rewrite unpack_string_field by lia.
  rewrite Nat2Z.id, take_app_length, utf8_decode_encode. done.
Qed.

(** X22.  Length-prefixed strings.  A string whose UTF-8 encoding has at
    most 65535 bytes packs to its two-byte length followed by the encoding,
    and [unpack_string] at the offset where that field starts returns the
    string and the offset just behind the field, whatever precedes or
    follows it; a longer encoding makes [pack_string] raise.
    [unpack_string] raises when fewer than two bytes are left at the
    offset, but it does not compare the announced length with the data: on
    a field cut short it decodes what is there and returns an offset past
    the end of the data. *)
Theorem string_field_roundtrip (s : str) :
  (Z.of_nat (length (utf8_encode s)) ≤ 65535 →
   ∃ packed,
     pack_string s = Returned packed ∧
     length packed = (2 + length (utf8_encode s))%nat ∧
     ∀ pre post,
       unpack_string (pre ++ packed ++ post) (length pre)
       = Returned (s, (length pre + length packed)%nat)) ∧
  (65535 < Z.of_nat (length (utf8_encode s)) → pack_string s = Raised StructError) ∧
  (∀ data offset, (length data < offset + 2)%nat →
     unpack_string data offset = Raised StructError) ∧
  (∀ n cut, 0 ≤ n < 65536 → (length cut < Z.to_nat n)%nat →
     unpack_string (pack_be 2 n ++ cut) 0 =
     match utf8_decode cut with
     | Some string => Returned (string, (2 + Z.to_nat n)%nat)
     | None => Raised (ValueError "utf-8")
     end ∧
     (length (pack_be 2 n ++ cut) < 2 + Z.to_nat n)%nat).
Proof.
  split; [|split; [|split]].
  - intros Hlen. eexists. split; [by apply pack_string_ok|].
    split; [by rewrite length_app, length_pack_be|].
    intros pre post. rewrite unpack_string_packed by done.
    rewrite length_app, length_pack_be. do 2 f_equal. lia.
  - apply pack_string_too_long.
  - intros data offset Hshort. unfold unpack_string, slice, struct_unpack.
    rewrite bool_decide_false; [done|].
    rewrite length_take, length_drop. cbn. lia.
  - intros n cut Hn Hcut. split.
    + pose proof (unpack_string_field [] [] cut n Hn) as E.
      rewrite !app_nil_r in E. cbn [app length] in E.
      rewrite E. rewrite firstn_all2 by lia. done.
    + rewrite length_app, length_pack_be. lia.
Qed.

End payload_strings.

Section payload_strings_examples.
Import Protocol Payloads.

Lemma ascii_utf8_spec : Utf8Spec ascii_utf8.
Proof. by split. Qed.

Lemma string_field_roundtrip_witness :
  @unpack_string ascii_utf8 ([x00] ++ [x00; x05] ++ name_alice ++ word_hi) 1
  = Returned (name_alice, 8%nat).
Proof.
  destruct (@string_field_roundtrip ascii_utf8 ascii_utf8_spec name_alice)
    as [H _].
  destruct H as (packed & Hp & _ & Hun); [by vm_compute|].
  assert (packed = [x00; x05] ++ name_alice) as ->.
  { assert (@pack_string ascii_utf8 name_alice
            = Returned ([x00; x05] ++ name_alice)) as E by (vm_compute; reflexivity).
    rewrite E in Hp. by injection Hp. }
  specialize (Hun [x00] word_hi). rewrite <- app_assoc in Hun. exact Hun.
Defined.

End payload_strings_examples.

Section payload_builders.
Import Protocol Payloads.
Context {utf8 : Utf8} {utf8_spec : Utf8Spec utf8} {float32 : Float32}.
Context {zlib : Zlib} {zlib_spec : ZlibSpec zlib}.

Lemma length_field_of (s : str) :
  length (field_of s) = (2 + length (utf8_encode s))%nat.
Proof. unfold field_of. by rewrite length_app, length_pack_be. Qed.

Lemma unpack_three_fields (a b c : str) :
  Z.of_nat (length (utf8_encode a)) ≤ 65535 →
  Z.of_nat (length (utf8_encode b)) ≤ 65535 →
  Z.of_nat (length (utf8_encode c)) ≤ 65535 →
  let data := [] ++ field_of a ++ field_of b ++ field_of c in
  unpack_string data 0 = Returned (a, length (field_of a)) ∧
  unpack_string data (length (field_of a))
    = Returned (b, (length (field_of a) + length (field_of b))%nat) ∧
  unpack_string data (length (field_of a) + length (field_of b))
    = Returned (c, length data).
Proof.
  intros Ha Hb Hc data. unfold data. cbn [app].
  split; [|split].
  - pose proof (unpack_string_packed [] (field_of b ++ field_of c) a Ha) as E.
    cbn [app length] in E. fold (field_of a) in E. rewrite E.
    by rewrite length_field_of.
  - pose proof (unpack_string_packed (field_of a) (field_of c) b Hb) as E.
    fold (field_of b) in E. rewrite E. do 2 f_equal.
    rewrite (length_field_of b). lia.
  - pose proof (unpack_string_packed (field_of a ++ field_of b) [] c Hc) as E.
    fold (field_of c) in E. rewrite app_nil_r, <- app_assoc, length_app in E.
    rewrite E. do 2 f_equal. rewrite !length_app, (length_field_of c). lia.
Qed.

(** A packet that went over the wire is parsed like the packet sent. *)
Lemma wire_keeps_payload (packet : Packet) :
  Z.of_nat (length (payload packet)) ≤ MAX_PAYLOAD_SIZE →
  compressed packet = false → sequence packet = 0 →
  ∃ frame packet',
    (serialize packet).2 = Returned frame ∧
    deserialize frame = Returned packet' ∧
    packet_type packet' = packet_type packet ∧
    payload packet' = payload packet.
Proof.
  intros Hlen Hc Hs.
  destruct (deserialize_serialize packet Hlen Hc ltac:(lia))
    as (header & _ & Hser & Hde).
  eexists _, _. rewrite Hser. split; [done|]. split; [exact Hde|]. done.
Qed.

(** X23.  A login request survives the trip.  When the UTF-8 encodings
    of user name, password hash and version have at most 65535 bytes each,
    [login_request] builds a LOGIN_REQUEST packet from which
    [parse_login_request] returns the three strings; if moreover the
    payload is within MAX_PAYLOAD_SIZE, the same holds for the packet the
    receiver decodes from the serialized frame.  If one of the encodings
    is longer, [login_request] raises. *)
Theorem login_request_roundtrip (username password_hash version : str) :
  (Z.of_nat (length (utf8_encode username)) ≤ 65535 →
   Z.of_nat (length (utf8_encode password_hash)) ≤ 65535 →
   Z.of_nat (length (utf8_encode version)) ≤ 65535 →
   ∃ packet,
     login_request username password_hash version = Returned packet ∧
     packet_type packet = LOGIN_REQUEST ∧
     parse_login_request packet = Returned (username, password_hash, version) ∧
     (Z.of_nat (length (payload packet)) ≤ MAX_PAYLOAD_SIZE →
      ∃ frame packet',
        (serialize packet).2 = Returned frame ∧
        deserialize frame = Returned packet' ∧
        packet_type packet' = LOGIN_REQUEST ∧
        parse_login_request packet'
        = Returned (username, password_hash, version))) ∧
  (65535 < Z.of_nat (length (utf8_encode username)) ∨
   65535 < Z.of_nat (length (utf8_encode password_hash)) ∨
   65535 < Z.of_nat (length (utf8_encode version)) →
   login_request username password_hash version = Raised StructError).
Proof.
  split.
  - intros Hu Hp Hv. unfold login_request.
    rewrite !pack_string_ok by done. cbn [mbind outcome_bind].
    fold (field_of username) (field_of password_hash) (field_of version).
    destruct (unpack_three_fields username password_hash version Hu Hp Hv)
      as (E1 & E2 & E3).
    assert (∀ packet',
      payload packet' = [] ++ field_of username ++ field_of password_hash
                           ++ field_of version →
      parse_login_request packet'
      = Returned (username, password_hash, version)) as Hparse.
    { intros packet' Hpl. unfold parse_login_request. rewrite Hpl.
      rewrite E1. cbn [mbind outcome_bind]. rewrite E2.
      cbn [mbind outcome_bind]. rewrite E3. done. }
    eexists. split; [done|]. split; [done|]. split; [by apply Hparse|].
    intros Hlen.
    destruct (wire_keeps_payload _ Hlen eq_refl eq_refl)
      as (frame & packet' & Hser & Hde & Hty & Hpl).
    exists frame, packet'. split; [done|]. split; [done|]. split; [done|].
    by apply Hparse.
  - intros Hlong. unfold login_request.
    destruct (Z_le_gt_dec (Z.of_nat (length (utf8_encode username))) 65535)
      as [Hu|Hu]; [rewrite (pack_string_ok username) by done
                  |by rewrite (pack_string_too_long username) by lia].
    cbn [mbind outcome_bind].
    destruct (Z_le_gt_dec (Z.of_nat (length (utf8_encode password_hash))) 65535)
      as [Hp|Hp]; [rewrite (pack_string_ok password_hash) by done
                  |by rewrite (pack_string_too_long password_hash) by lia].
    cbn [mbind outcome_bind].
    rewrite (pack_string_too_long version); [done|]. lia.
Qed.

Lemma parse_login_response_payload (packet : Packet) (success : bool)
    (message session_token : str) :
  Z.of_nat (length (utf8_encode message)) ≤ 65535 →
  Z.of_nat (length (utf8_encode session_token)) ≤ 65535 →
  payload packet = pack_bool success ++ field_of message
                   ++ (if success then field_of session_token else []) →
  parse_login_response packet
  = Returned (success, message, if success then Some session_token else None).
Proof.
  intros Hm Ht Hpl. unfold parse_login_response. destruct success; rewrite Hpl.
  - change (slice (pack_bool true ++ field_of message ++ field_of session_token) 0 1)
      with [x01].
    cbn [unpack_bool mbind outcome_bind].
    pose proof (unpack_string_packed (pack_bool true) (field_of session_token)
                  message Hm) as E1.
    fold (field_of message) in E1.
    change (length (pack_bool true)) with 1%nat in E1. rewrite E1.
    cbn [mbind outcome_bind].
    rewrite bool_decide_true
      by (rewrite !length_app, !length_field_of; simpl; lia).
    change (negb (Z_of_byte x01 =? 0)) with true. cbn [andb].
    pose proof (unpack_string_packed (pack_bool true ++ field_of message) []
                  session_token Ht) as E2.
    fold (field_of session_token) in E2.
    rewrite app_nil_r, <- app_assoc, length_app, length_field_of in E2.
    change (length (pack_bool true)) with 1%nat in E2.
    replace (1 + 2 + length (utf8_encode message))%nat
      with (1 + (2 + length (utf8_encode message)))%nat by lia.
    rewrite E2. done.
  - change (slice (pack_bool false ++ field_of message ++ []) 0 1) with [x00].
    cbn [unpack_bool mbind outcome_bind].
    pose proof (unpack_string_packed (pack_bool false) [] message Hm) as E1.
    fold (field_of message) in E1.
    change (length (pack_bool false)) with 1%nat in E1. rewrite E1.
    done.
Qed.

(** X24.  The session token of a login response.  For strings with
    encodings of at most 65535 bytes, [parse_login_response] returns the
    flag and the message that [login_response] was given; it returns the
    session token, even an empty one, when the login succeeded, and
    [None] when the login failed: the builder leaves the token out. *)
Theorem login_response_roundtrip (success : bool) (message session_token : str) :
  Z.of_nat (length (utf8_encode message)) ≤ 65535 →
  Z.of_nat (length (utf8_encode session_token)) ≤ 65535 →
  ∃ packet,
    login_response success message session_token = Returned packet ∧
    packet_type packet = LOGIN_RESPONSE ∧
    payload packet = pack_bool success ++ field_of message
                     ++ (if success then field_of session_token else []) ∧
    parse_login_response packet
    = Returned (success, message,
                if success then Some session_token else None).
Proof.
  intros Hm Ht.
  assert (∃ packet,
    login_response success message session_token = Returned packet ∧
    packet_type packet = LOGIN_RESPONSE ∧
    payload packet = pack_bool success ++ field_of message
                     ++ (if success then field_of session_token else []))
    as (packet & Hb & Hty & Hpl).
  { unfold login_response. rewrite (pack_string_ok message) by done.
    cbn [mbind outcome_bind]. fold (field_of message). destruct success.
    - rewrite (pack_string_ok session_token) by done. cbn [mbind outcome_bind].
      fold (field_of session_token). eexists. split; [done|]. split; [done|].
      cbn [payload Packet_new]. by rewrite <- app_assoc.
    - eexists. split; [done|]. split; [done|].
      cbn [payload Packet_new]. by rewrite app_nil_r. }
  exists packet. split; [done|]. split; [done|]. split; [done|].
  by apply parse_login_response_payload.
Qed.

(** X25.  A chat message keeps its three fields apart.  [chat_message]
    takes sender, message and channel in that order and writes the
    channel first; [parse_chat_message] returns each string under its own
    key, for encodings of at most 65535 bytes each, also after the packet
    has gone through [serialize] and [deserialize]. *)
Theorem chat_message_roundtrip (sender message channel : str) :
  Z.of_nat (length (utf8_encode sender)) ≤ 65535 →
  Z.of_nat (length (utf8_encode message)) ≤ 65535 →
  Z.of_nat (length (utf8_encode channel)) ≤ 65535 →
  ∃ packet,
    chat_message sender message channel = Returned packet ∧
    packet_type packet = CHAT_MESSAGE ∧
    payload packet = field_of channel ++ field_of sender ++ field_of message ∧
    parse_chat_message packet
    = Returned {| cm_channel := channel; cm_sender := sender;
                  cm_message := message |} ∧
    (Z.of_nat (length (payload packet)) ≤ MAX_PAYLOAD_SIZE →
     ∃ frame packet',
       (serialize packet).2 = Returned frame ∧
       deserialize frame = Returned packet' ∧
       parse_chat_message packet'
       = Returned {| cm_channel := channel; cm_sender := sender;
                     cm_message := message |}).
Proof.
  intros Hs Hm Hc. unfold chat_message.
  rewrite !pack_string_ok by done. cbn [mbind outcome_bind].
  fold (field_of sender) (field_of message) (field_of channel).
  destruct (unpack_three_fields channel sender message Hc Hs Hm)
    as (E1 & E2 & E3).
  assert (∀ packet',
    payload packet' = [] ++ field_of channel ++ field_of sender ++ field_of message →
    parse_chat_message packet'
    = Returned {| cm_channel := channel; cm_sender := sender;
                  cm_message := message |}) as Hparse.
  { intros packet' Hpl. unfold parse_chat_message. rewrite Hpl.
    rewrite E1. cbn [mbind outcome_bind]. rewrite E2.
    cbn [mbind outcome_bind]. rewrite E3. done. }
  eexists. split; [done|]. split; [done|]. split; [done|].
  split; [by apply Hparse|].
  intros Hlen.
  destruct (wire_keeps_payload _ Hlen eq_refl eq_refl)
    as (frame & packet' & Hser & Hde & Hty & Hpl).
  exists frame, packet'. split; [done|]. split; [done|]. by apply Hparse.
Qed.

End payload_builders.

Section payload_fixed.
Import Protocol Payloads.
Context {utf8 : Utf8} {float32 : Float32}.

Lemma unpack_bool_pack_bool (b : bool) : unpack_bool (pack_bool b) = Returned b.
Proof. by destruct b. Qed.

(** X26.  Fixed-layout payloads.  For unsigned 32-bit ids,
    [attack_request] builds an 8-byte payload from which
    [parse_attack_request] returns the two ids, and [damage_dealt] builds a
    14-byte payload from which [parse_damage_dealt] returns the three
    numbers and the two flags; an id or a damage outside [0, 2^32) makes
    the builder raise. *)
Theorem fixed_payload_roundtrip (a b c : Z) (is_critical is_fatal : bool) :
  (0 ≤ a < 2 ^ 32 → 0 ≤ b < 2 ^ 32 →
   ∃ packet,
     attack_request a b = Returned packet ∧
     packet_type packet = ATTACK_REQUEST ∧
     length (payload packet) = 8%nat ∧
     parse_attack_request packet = Returned (a, b)) ∧
  (0 ≤ a < 2 ^ 32 → 0 ≤ b < 2 ^ 32 → 0 ≤ c < 2 ^ 32 →
   ∃ packet,
     damage_dealt a b c is_critical is_fatal = Returned packet ∧
     packet_type packet = DAMAGE_DEALT ∧
     length (payload packet) = 14%nat ∧
     parse_damage_dealt packet
     = Returned {| dd_attacker_id := a; dd_target_id := b; dd_damage := c;
                   dd_is_critical := is_critical; dd_is_fatal := is_fatal |}) ∧
  (¬ (0 ≤ a < 2 ^ 32) ∨ ¬ (0 ≤ b < 2 ^ 32) →
   attack_request a b = Raised StructError ∧
   damage_dealt a b c is_critical is_fatal = Raised StructError).
Proof.
  split; [|split].
  - intros Ha Hb.
    destruct (struct_pack_in_range [fmt_I; fmt_I] [a; b]) as [bs Hbs].
    { constructor; [exact Ha|]. constructor; [exact Hb|constructor]. }
    destruct (struct_pack_unpack _ _ _ Hbs) as [Hlen Hfields].
    unfold attack_request. rewrite Hbs. cbn [mbind outcome_bind].
    eexists. split; [done|]. split; [done|]. split; [exact Hlen|].
    unfold parse_attack_request, struct_unpack. cbn [payload Packet_new].
    rewrite bool_decide_true by done. by rewrite Hfields.
  - intros Ha Hb Hc.
    destruct (struct_pack_in_range [fmt_I; fmt_I; fmt_I] [a; b; c]) as [bs Hbs].
    { constructor; [exact Ha|]. constructor; [exact Hb|].
      constructor; [exact Hc|constructor]. }
    destruct (struct_pack_unpack _ _ _ Hbs) as [Hlen Hfields].
    change (calcsize [fmt_I; fmt_I; fmt_I]) with 12%nat in Hlen.
    unfold damage_dealt. rewrite Hbs. cbn [mbind outcome_bind].
    eexists. split; [done|]. split; [done|].
    split; [cbn [payload Packet_new]; rewrite !length_app, Hlen;
            by destruct is_critical, is_fatal|].
    unfold parse_damage_dealt, struct_unpack, slice. cbn [payload Packet_new].
    rewrite bool_decide_false
      by (rewrite !length_app, Hlen; destruct is_critical, is_fatal; simpl; lia).
    rewrite (take_app_length' bs _ 12) by done.
    rewrite bool_decide_true by done. rewrite Hfields.
    cbn [mbind outcome_bind].
    rewrite (drop_app_length' bs _ 12) by done.
    change (take (13 - 12) (pack_bool is_critical ++ pack_bool is_fatal))
      with (pack_bool is_critical).
    rewrite unpack_bool_pack_bool. cbn [mbind outcome_bind].
    replace (drop 13 (bs ++ pack_bool is_critical ++ pack_bool is_fatal))
      with (pack_bool is_fatal).
    + change (take (14 - 13) (pack_bool is_fatal)) with (pack_bool is_fatal).
      by rewrite unpack_bool_pack_bool.
    + rewrite drop_app_ge by lia. rewrite Hlen. done.
  - intros Hout. unfold attack_request, damage_dealt. cbn [struct_pack].
    change (2 ^ (8 * Z.of_nat (fmt_size fmt_I))) with (2 ^ 32).
    destruct (decide (0 ≤ a < 2 ^ 32)) as [Ha|Ha].
    + rewrite (bool_decide_true (0 ≤ a < _)) by done.
      destruct Hout as [?|Hb]; [done|].
      by rewrite (bool_decide_false (0 ≤ b < _)) by done.
    + by rewrite (bool_decide_false (0 ≤ a < _)) by done.
Qed.

(** X27.  [move_update] cannot build a packet.  Its format '!Iffffff'
    has seven items and it passes eight values, so [struct.pack] raises
    for every entity id, position, rotation and velocity; and
    [parse_move_update] accepts exactly the 32-byte payloads of the
    eight-item format, four bytes more than the builder's format
    describes. *)
Theorem move_update_never_builds (entity_id : Z)
    (x y z rotation velocity_x velocity_y velocity_z : Q) :
  move_update entity_id x y z rotation velocity_x velocity_y velocity_z
    = Raised StructError ∧
  length MOVE_UPDATE_FORMAT = 7%nat ∧
  (∀ packet, (∃ r, parse_move_update packet = Returned r) ↔
             length (payload packet) = 32%nat) ∧
  (∀ args bs, struct_pack_items MOVE_UPDATE_FORMAT args = Returned bs →
              length args = 7%nat).
Proof.
  split; [done|]. split; [done|]. split.
  - intros packet. unfold parse_move_update.
    change PARSE_MOVE_UPDATE_SIZE with 32%nat. case_bool_decide as Hlen.
    + split; [by intros [? ?]|done].
    + split; [intros _; by destruct (decide (length (payload packet) = 32%nat))
             |by eexists].
  - intros args bs. unfold struct_pack_items. case_bool_decide as Hlen; [done|].
    intros _. by destruct (decide (length args = 7%nat)).
Qed.

End payload_fixed.

Section payload_examples.
Import Protocol Payloads.

Lemma login_request_roundtrip_witness :
  ∃ packet,
    @login_request ascii_utf8 name_alice word_hi word_hi = Returned packet ∧
    @parse_login_request ascii_utf8 packet = Returned (name_alice, word_hi, word_hi).
Proof.
  destruct (@login_request_roundtrip ascii_utf8 ascii_utf8_spec stored_zlib
              stored_zlib_spec name_alice word_hi word_hi) as [H _].
  destruct H as (packet & Hb & _ & Hp & _); [by vm_compute..|].
  exists packet. split; [exact Hb|exact Hp].
Defined.

Lemma login_response_roundtrip_witness :
  ∃ packet,
    @login_response ascii_utf8 false name_alice word_hi = Returned packet ∧
    @parse_login_response ascii_utf8 packet = Returned (false, name_alice, None).
Proof.
  destruct (@login_response_roundtrip ascii_utf8 ascii_utf8_spec
              false name_alice word_hi) as (packet & Hb & _ & _ & Hp);
    [by vm_compute..|].
  exists packet. split; [exact Hb|exact Hp].
Defined.

Lemma chat_message_roundtrip_witness :
  ∃ packet,
    @chat_message ascii_utf8 name_alice word_hi channel_global = Returned packet ∧
    @parse_chat_message ascii_utf8 packet
    = Returned (@Build_ChatMessage ascii_utf8 channel_global name_alice word_hi).
Proof.
  destruct (@chat_message_roundtrip ascii_utf8 ascii_utf8_spec stored_zlib
              stored_zlib_spec name_alice word_hi channel_global)
    as (packet & Hb & _ & _ & Hp & _); [by vm_compute..|].
  exists packet. split; [exact Hb|exact Hp].
Defined.

Lemma fixed_payload_roundtrip_witness :
  ∃ packet,
    attack_request 7 300 = Returned packet ∧
    parse_attack_request packet = Returned (7, 300).
Proof.
  destruct (fixed_payload_roundtrip 7 300 0 false false) as [H _].
  destruct H as (packet & Hb & _ & _ & Hp); [by vm_compute..|].
  exists packet. split; [exact Hb|exact Hp].
Defined.

Lemma move_update_never_builds_witness :
  @move_update no_float32 1 100 0 100 0 0 0 0 = Raised StructError ∧
  (∃ r, @parse_move_update no_float32 (Packet_new MOVE_UPDATE (replicate 32 x00))
        = Returned r).
Proof.
  destruct (@move_update_never_builds no_float32 1 100 0 100 0 0 0 0)
    as (Hraise & _ & Hparse & _).
  split; [exact Hraise|]. apply Hparse. reflexivity.
Defined.

End payload_examples.

(** ** Experience and levels *)

Section levels.
Import Levels.

Lemma calculate_xp_for_level_cube (level : Z) :
  calculate_xp_for_level level = level * level * level * 100.
Proof. unfold calculate_xp_for_level. lia. Qed.

Lemma calculate_xp_for_level_mono (a b : Z) :
  0 ≤ a → a ≤ b → calculate_xp_for_level a ≤ calculate_xp_for_level b.
Proof.
  intros Ha Hab. rewrite !calculate_xp_for_level_cube.
  assert (a * a ≤ b * b) by nia.
  assert (a * a * a ≤ b * b * b) by nia. lia.
Qed.

Lemma calculate_xp_for_level_strict (a b : Z) :
  0 ≤ a → a < b → calculate_xp_for_level a < calculate_xp_for_level b.
Proof.
  intros Ha Hab. rewrite !calculate_xp_for_level_cube.
  assert (a * a < b * b) by nia.
  assert (a * a * a < b * b * b) by nia. lia.
Qed.

Lemma level_loop_result (rounds : nat) (level xp : Z) :
  1 ≤ level → (0 < rounds)%nat → xp - level < Z.of_nat rounds →
  ∃ L, level_loop rounds level xp = Some L ∧ level ≤ L ∧
       xp < calculate_xp_for_level (L + 1) ∧
       (L = level ∨ calculate_xp_for_level L ≤ xp).
Proof.
  revert level. induction rounds as [|rounds IH]; intros level Hl Hpos Hfuel;
    [lia|].
  - cbn [level_loop]. destruct (calculate_xp_for_level (level + 1) <=? xp) eqn:E.
    + apply Z.leb_le in E.
      assert (level + 1 ≤ xp) as Hle.
      { rewrite calculate_xp_for_level_cube in E.
        assert (1 ≤ (level + 1) * (level + 1)) by nia.
        assert (level + 1 ≤ (level + 1) * (level + 1) * (level + 1)) by nia.
        lia. }
      destruct (IH (level + 1)) as (L & HL & Hge & Hup & Hlow); [lia|lia|lia|].
      exists L. split; [done|]. split; [lia|]. split; [done|].
      right. destruct Hlow as [->|?]; done.
    + apply Z.leb_gt in E. exists level. split; [done|]. split; [lia|].
      split; [done|by left].
Qed.

(** X28.  Levels and experience are inverse to each other.
    [calculate_level_from_xp] always returns: a level [L >= 1] with
    [xp < calculate_xp_for_level (L + 1)], and with
    [calculate_xp_for_level L <= xp] unless [L] is 1 (every [xp] below 800,
    negative ones included, is level 1).  It is non-decreasing in [xp], and
    it returns [n] on exactly the experience [calculate_xp_for_level n]
    requires, for every [n >= 1]. *)
Theorem level_from_xp_inverse :
  (∀ xp, ∃ L, calculate_level_from_xp xp = Some L ∧ 1 ≤ L ∧
     xp < calculate_xp_for_level (L + 1) ∧
     (L = 1 ∨ calculate_xp_for_level L ≤ xp) ∧
     (xp < 800 → L = 1)) ∧
  (∀ xp xp' L L', xp ≤ xp' →
     calculate_level_from_xp xp = Some L →
     calculate_level_from_xp xp' = Some L' → L ≤ L') ∧
  (∀ n, 1 ≤ n → calculate_level_from_xp (calculate_xp_for_level n) = Some n).
Proof.
  assert (∀ xp, ∃ L, calculate_level_from_xp xp = Some L ∧ 1 ≤ L ∧
     xp < calculate_xp_for_level (L + 1) ∧
     (L = 1 ∨ calculate_xp_for_level L ≤ xp)) as Hres.
  { intros xp. destruct (level_loop_result (S (Z.to_nat xp)) 1 xp)
      as (L & HL & Hge & Hup & Hlow); [lia|lia|lia|].
    exists L. by repeat split. }
  split; [|split].
  - intros xp. destruct (Hres xp) as (L & HL & Hge & Hup & Hlow).
    exists L. repeat (split; [done|]). intros Hsmall.
    destruct Hlow as [->|Hlow]; [done|].
    destruct (decide (L = 1)) as [->|Hne]; [done|].
    pose proof (calculate_xp_for_level_mono 2 L ltac:(lia) ltac:(lia)) as Hm.
    change (calculate_xp_for_level 2) with 800 in Hm. lia.
  - intros xp xp' L L' Hle HL HL'.
    destruct (Hres xp) as (L0 & HL0 & Hge & Hup & Hlow).
    destruct (Hres xp') as (L0' & HL0' & Hge' & Hup' & Hlow').
    assert (L0 = L) as -> by congruence. assert (L0' = L') as -> by congruence.
    destruct Hlow as [->|Hlow]; [done|].
    destruct (Z_le_gt_dec L L') as [?|Hgt]; [done|].
    pose proof (calculate_xp_for_level_mono (L' + 1) L ltac:(lia) ltac:(lia)).
    lia.
  - intros n Hn. destruct (Hres (calculate_xp_for_level n))
      as (L & HL & Hge & Hup & Hlow).
    rewrite HL. f_equal.
    destruct (Z_lt_le_dec L n) as [Hlt|Hge'].
    + pose proof (calculate_xp_for_level_mono (L + 1) n ltac:(lia) ltac:(lia)).
      lia.
    + destruct (Z_le_gt_dec L n) as [?|Hgt]; [lia|].
      destruct Hlow as [->|Hlow]; [lia|].
      pose proof (calculate_xp_for_level_strict n L ltac:(lia) ltac:(lia)). lia.
Qed.

Lemma level_from_xp_inverse_witness :
  calculate_level_from_xp 799 = Some 1 ∧
  calculate_level_from_xp (calculate_xp_for_level 100) = Some 100.
Proof.
  destruct level_from_xp_inverse as (Hres & _ & Hinv).
  split.
  - destruct (Hres 799) as (L & HL & _ & _ & _ & Hsmall).
    rewrite HL. f_equal. apply Hsmall. lia.
  - apply Hinv. lia.
Defined.

End levels.

(** ** NPC behaviour *)

Section npc_ai.
Import Constants Utils World Combat NpcAi.
Context {sqrt_impl : Sqrt}.
Local Open Scope Q_scope.

Lemma modify_npc_placement w iid f :
  (∀ n, npc_position (f n) = npc_position n ∧
        npc_chunk_id (f n) = npc_chunk_id n ∧
        instance_id (f n) = instance_id n) →
  placement_kept w (modify_npc w iid f).
Proof.
  intros Hf. unfold modify_npc. repeat (split; [done|]).
  split; [apply dom_alter_L|]. split.
  - intros cid e e' H1 H2. simpl in H2. by assert (e' = e) as -> by congruence.
  - intros iid' e e' He. simpl. rewrite lookup_alter. case_decide as E.
    + subst iid'. rewrite He. simpl. intros [= <-]. apply Hf.
    + rewrite He. by intros [= <-].
Qed.

Lemma kept_invariant w w' :
  placement_kept w w' → world_indexed w ∧ npc_ids_ok w →
  world_indexed w' ∧ npc_ids_ok w'.
Proof.
  intros Hk [Hi Hids]. split;
    [by eapply placement_kept_indexed | by eapply placement_kept_npc_ids].
Qed.

Lemma update_npc_position_invariant w iid x y z rot :
  world_indexed w ∧ npc_ids_ok w →
  world_indexed (update_npc_position w iid x y z rot) ∧
  npc_ids_ok (update_npc_position w iid x y z rot).
Proof.
  intros [Hi Hids]. split; [by apply update_npc_position_indexed|].
  apply (apply_op_npc_ids w (UpdateNpcPosition iid x y z rot)), Hids.
Qed.

Lemma update_npc_position_players w iid x y z rot :
  players (update_npc_position w iid x y z rot) = players w.
Proof. unfold update_npc_position. by destruct (npcs w !! iid). Qed.

Lemma update_npc_position_dom w iid x y z rot :
  dom (npcs (update_npc_position w iid x y z rot)) =@{gset Z} dom (npcs w).
Proof.
  unfold update_npc_position. destruct (npcs w !! iid) as [n|] eqn:E; [|done].
  simpl. apply dom_insert_lookup_L. eauto.
Qed.

(** What one update of one NPC keeps. *)
Lemma update_npc_ai_invariant w iid delta_time now d :
  world_indexed w ∧ npc_ids_ok w →
  let w' := (_update_npc_ai w iid delta_time now d).1 in
  (world_indexed w' ∧ npc_ids_ok w') ∧
  dom (players w') =@{gset Z} dom (players w) ∧
  dom (npcs w') =@{gset Z} dom (npcs w) ∧
  (∀ cid p p', players w !! cid = Some p → players w' !! cid = Some p' →
     position p' = position p ∧ chunk_id p' = chunk_id p ∧
     (hp p' ≤ Z.max 0 (hp p))%Z).
Proof.
  intros Hinv.
  assert (∀ w', placement_kept w w' → players w' = players w →
    (world_indexed w' ∧ npc_ids_ok w') ∧
    dom (players w') =@{gset Z} dom (players w) ∧
    dom (npcs w') =@{gset Z} dom (npcs w) ∧
    (∀ cid p p', players w !! cid = Some p → players w' !! cid = Some p' →
       position p' = position p ∧ chunk_id p' = chunk_id p ∧
       (hp p' ≤ Z.max 0 (hp p))%Z)) as Hkept.
  { intros w' Hk Hp. split; [by eapply kept_invariant|].
    destruct Hk as (_ & _ & _ & Hdp & Hdn & _). split; [done|]. split; [done|].
    intros cid p p' H1 H2. rewrite Hp in H2.
    assert (p' = p) as -> by congruence. repeat split; lia. }
  assert (∀ f, (∀ n, npc_position (f n) = npc_position n ∧
                     npc_chunk_id (f n) = npc_chunk_id n ∧
                     instance_id (f n) = instance_id n) →
    (world_indexed (modify_npc w iid f) ∧ npc_ids_ok (modify_npc w iid f)) ∧
    dom (players (modify_npc w iid f)) =@{gset Z} dom (players w) ∧
    dom (npcs (modify_npc w iid f)) =@{gset Z} dom (npcs w) ∧
    (∀ cid p p', players w !! cid = Some p →
       players (modify_npc w iid f) !! cid = Some p' →
       position p' = position p ∧ chunk_id p' = chunk_id p ∧
       (hp p' ≤ Z.max 0 (hp p))%Z)) as Hmod.
  { intros f Hf. apply Hkept; [by apply modify_npc_placement|done]. }
  assert (∀ iid' x y z rot w1,
    w1 = update_npc_position w iid' x y z rot →
    (world_indexed w1 ∧ npc_ids_ok w1) ∧
    dom (players w1) =@{gset Z} dom (players w) ∧
    dom (npcs w1) =@{gset Z} dom (npcs w) ∧
    (∀ cid p p', players w !! cid = Some p → players w1 !! cid = Some p' →
       position p' = position p ∧ chunk_id p' = chunk_id p ∧
       (hp p' ≤ Z.max 0 (hp p))%Z)) as Hmove.
  { intros iid' x y z rot w1 ->.
    split; [by apply update_npc_position_invariant|].
    rewrite update_npc_position_players, update_npc_position_dom.
    split; [done|]. split; [done|].
    intros cid p p' H1 H2. assert (p' = p) as -> by congruence.
    repeat split; lia. }
  pose proof (Hkept w (placement_kept_refl w) eq_refl) as Hsame.
  unfold _update_npc_ai. cbv zeta.
  destruct (npcs w !! iid) as [npc|] eqn:Hnpc; [|exact Hsame].
  destruct (npc_hp npc <=? 0)%Z; [exact Hsame|].
  destruct (state npc); cbn [fst].
  - unfold _ai_idle.
    destruct (get_nearby_players _ _ _) as [|target ?];
      [destruct (negb _); [by apply Hmod|exact Hsame]
      |by apply Hmod].
  - unfold _ai_patrol.
    destruct (get_nearby_players _ _ _) as [|target ?]; [|by apply Hmod].
    cbv zeta.
    match goal with |- context [update_npc_position w ?i ?x ?y ?z ?r] =>
      destruct (Hmove i x y z r _ eq_refl) as (Hinv1 & Hdp1 & Hdn1 & Hpl1);
      set (w1 := update_npc_position w i x y z r) in *
    end.
    destruct (negb _); [|done].
    pose proof (modify_npc_placement w1 iid (λ n, npc_set_state n Idle)
                  ltac:(done)) as Hk.
    split; [by eapply kept_invariant|].
    destruct Hk as (_ & _ & _ & Hdp & Hdn & _).
    split; [congruence|]. split; [congruence|]. exact Hpl1.
  - unfold _ai_chase.
    destruct (npc_target_id npc) as [tid|]; [|by apply Hmod].
    destruct (get_player w tid) as [target|]; [|by apply Hmod].
    destruct (is_dead target); [by apply Hmod|]. cbv zeta.
    destruct (distance_gt _ _ _).
    + match goal with |- context [modify_npc w iid ?f] =>
        pose proof (modify_npc_placement w iid f ltac:(done)) as Hk;
        set (w1 := modify_npc w iid f) in *
      end.
      destruct (kept_invariant _ _ Hk Hinv) as [Hi1 Hids1].
      split; [by apply update_npc_position_invariant|].
      rewrite update_npc_position_players, update_npc_position_dom.
      destruct Hk as (_ & _ & _ & Hdp & Hdn & _).
      split; [done|]. split; [done|].
      intros cid p p' H1 H2. simpl in H2. assert (p' = p) as -> by congruence.
      repeat split; lia.
    + destruct (distance_le _ _ _); [by apply Hmod|]. by eapply Hmove.
  - unfold _ai_attack.
    destruct (npc_target_id npc) as [tid|]; [|by apply Hmod].
    destruct (get_player w tid) as [target|] eqn:Ht; [|by apply Hmod].
    destruct (is_dead target); [by apply Hmod|]. cbv zeta.
    destruct (distance_gt _ _ _); [by apply Hmod|].
    destruct (negb _); [exact Hsame|].
    unfold _npc_attack_player. cbv zeta.
    destruct (calculate_damage _ _ _ _ _) as [damage|e] eqn:Hdmg;
      [|exact Hsame].
    cbn [fst].
    assert (0 ≤ damage)%Z as Hpos.
    { unfold calculate_damage in Hdmg. simpl in Hdmg.
      destruct (Qeq_bool _ _); [done|]. injection Hdmg as <-. lia. }
    match goal with |- context [modify_player w tid ?f] =>
      pose proof (modify_player_placement w tid f) as Hk1;
      set (w1 := modify_player w tid f) in *
    end.
    assert (placement_kept w w1) as Hk1'.
    { apply Hk1. intros p. unfold player_apply_damage. simpl.
      by destruct (_ =? _)%Z. }
    pose proof (modify_npc_placement w1 iid
                  (λ n, npc_set_last_attack_time n now) ltac:(done)) as Hk2.
    pose proof (placement_kept_trans _ _ _ Hk1' Hk2) as Hk.
    split; [by eapply kept_invariant|].
    destruct Hk as (_ & _ & _ & Hdp & Hdn & _). split; [done|]. split; [done|].
    intros cid p p' H1 H2. simpl in H2. unfold w1, modify_player in H2.
    simpl in H2. rewrite lookup_alter in H2. case_decide as E.
    + subst cid. rewrite H1 in H2. simpl in H2. injection H2 as <-.
      unfold player_apply_damage. simpl.
      destruct (_ =? _)%Z; simpl; repeat split; lia.
    + rewrite H1 in H2. injection H2 as <-. repeat split; lia.
Qed.



(** X29.  The leash.  A living NPC that is chasing a living player
    and has strayed more than 50 units from its spawn point gives up on
    its next update: it is back at its spawn position with full hit
    points, idle and without a target, no player has been touched, and a
    proximity query at the spawn position finds it there. *)
Theorem npc_leash (w : WorldManager) (iid : Z) (npc : NPCEntity) (tid : Z)
    (target : PlayerEntity) (delta_time now : Q) (d : Draws) :
  world_indexed w → npc_ids_ok w →
  npcs w !! iid = Some npc → (0 < npc_hp npc)%Z →
  state npc = Chasing → npc_target_id npc = Some tid →
  players w !! tid = Some target → is_dead target = false →
  distance_gt (npc_position npc) (spawn_position npc) 50.0 = true →
  let w' := (_update_npc_ai w iid delta_time now d).1 in
  ∃ npc',
    npcs w' !! iid = Some npc' ∧
    npc_position npc' = (px (spawn_position npc), py (spawn_position npc),
                         pz (spawn_position npc)) ∧
    npc_hp npc' = npc_max_hp npc ∧
    state npc' = Idle ∧ npc_target_id npc' = None ∧
    players w' = players w ∧
    npc' ∈ get_nearby_npcs w' (spawn_position npc) 0.
Proof.
  intros Hi Hids Hnpc Hhp Hst Htid Htarget Halive Hfar w'.
  destruct (update_npc_ai_invariant w iid delta_time now d (conj Hi Hids))
    as ([[_ Hn'] _] & _).
  fold w' in Hn'.
  assert (instance_id npc = iid) as Hkey by (by destruct Hids as [Hk _]; apply Hk).
  assert (w' = update_npc_position
                 (modify_npc w iid
                    (λ n, npc_set_hp (npc_set_state (npc_set_target_id n None) Idle)
                            (npc_max_hp n)))
                 iid (px (spawn_position npc)) (py (spawn_position npc))
                 (pz (spawn_position npc)) 0.0) as Hw'.
  { unfold w', _update_npc_ai. rewrite Hnpc.
    rewrite (proj2 (Z.leb_gt _ _)) by lia. rewrite Hst. cbn [fst].
    unfold _ai_chase, get_player. rewrite Htid, Htarget, Halive. cbv zeta.
    by rewrite Hfar, Hkey. }
  assert (npcs w' !! iid =
          Some (npc_update_position
                  (npc_set_hp (npc_set_state (npc_set_target_id npc None) Idle)
                     (npc_max_hp npc))
                  (px (spawn_position npc)) (py (spawn_position npc))
                  (pz (spawn_position npc)) 0.0)) as Hnew.
  { rewrite Hw'. unfold update_npc_position, modify_npc. simpl.
    rewrite lookup_alter, decide_True by done. rewrite Hnpc. simpl.
    apply lookup_insert_eq. }
  eexists. split; [exact Hnew|]. repeat (split; [done|]). split.
  - rewrite Hw'. by rewrite update_npc_position_players.
  - eapply get_nearby_npcs_complete; [exact Hn'|done|exact Hnew|].
    simpl. destruct (spawn_position npc) as [[x y] z]. simpl.
    rewrite calculate_distance_sq_self. done.
Qed.

(** X30.  NPC attacks are at least two seconds apart.  For a living
    NPC in the attacking state whose living target stands within 2.5
    units: while less than [npc_attack_cooldown] has passed since its last
    attack the update changes nothing; otherwise the target loses
    [damage >= 1] hit points, floored at 0, the attack time is recorded,
    and no update of this NPC within the next two seconds touches any
    player.  A target with defense -100 makes the attack raise before
    anything is written, and an NPC without hit points is not updated at
    all. *)
Theorem npc_attacks_two_seconds_apart (w : WorldManager) (iid : Z) (npc : NPCEntity)
    (tid : Z) (target : PlayerEntity) (delta_time now : Q) (d : Draws) :
  npcs w !! iid = Some npc →
  ((npc_hp npc ≤ 0)%Z →
   _update_npc_ai w iid delta_time now d = (w, Returned ())) ∧
  ((0 < npc_hp npc)%Z → state npc = Attacking → npc_target_id npc = Some tid →
   players w !! tid = Some target → is_dead target = false →
   distance_le (npc_position npc) (position target) 2.5 = true →
   let w' := (_update_npc_ai w iid delta_time now d).1 in
   let res := (_update_npc_ai w iid delta_time now d).2 in
   (now - npc_last_attack_time npc < 2 → w' = w ∧ res = Returned ()) ∧
   (2 <= now - npc_last_attack_time npc → defense target = (-100)%Z →
    w' = w ∧ res = Raised ZeroDivisionError) ∧
   (2 <= now - npc_last_attack_time npc → defense target ≠ (-100)%Z →
    ∃ damage target' npc',
      (1 ≤ damage)%Z ∧ res = Returned () ∧
      players w' !! tid = Some target' ∧
      hp target' = Z.max 0 (hp target - damage) ∧
      npcs w' !! iid = Some npc' ∧
      npc_last_attack_time npc' = now ∧
      ∀ delta_time' now' d', now' - now < 2 →
        players (_update_npc_ai w' iid delta_time' now' d').1 = players w')).
Proof.
  intros Hnpc. split.
  { intros Hdead. unfold _update_npc_ai. rewrite Hnpc.
    by rewrite (proj2 (Z.leb_le _ _)) by lia. }
  intros Hhp Hst Htid Htarget Halive Hnear w' res.
  assert (2.0 == 2) as Etwo by reflexivity.
  assert (_update_npc_ai w iid delta_time now d =
          if negb (Qle_bool 2.0 (now - npc_last_attack_time npc))
          then (w, Returned ())
          else _npc_attack_player w iid npc tid target now d) as Hstep.
  { unfold _update_npc_ai. rewrite Hnpc.
    rewrite (proj2 (Z.leb_gt _ _)) by lia. rewrite Hst.
    unfold _ai_attack, get_player. rewrite Htid, Htarget, Halive. cbv zeta.
    unfold distance_gt. by rewrite Hnear. }
  unfold w', res. rewrite Hstep. clear w' res Hstep.
  split; [|split].
  - intros Hsoon. destruct (Qle_bool 2.0 _) eqn:E; [|done].
    apply Qle_bool_iff in E. rewrite Etwo in E. lra.
  - intros Hlate Hdef.
    rewrite (proj2 (Qle_bool_iff _ _)) by (rewrite Etwo; exact Hlate).
    cbn [negb]. unfold _npc_attack_player, calculate_damage. cbv zeta.
    cbn [d_defense]. rewrite Hdef. done.
  - intros Hlate Hdef.
    rewrite (proj2 (Qle_bool_iff _ _)) by (rewrite Etwo; exact Hlate).
    cbn [negb]. unfold _npc_attack_player. cbv zeta.
    destruct (calculate_damage _ _ _ _ _) as [damage|e] eqn:Hdmg.
    + assert (1 ≤ damage)%Z as Hpos.
      { unfold calculate_damage in Hdmg. simpl in Hdmg.
        destruct (Qeq_bool _ _); [done|]. injection Hdmg as <-. lia. }
      cbn [fst snd].
      set (w1 := modify_player w tid (λ p, (player_apply_damage p damage).1)).
      set (w2 := modify_npc w1 iid (λ n, npc_set_last_attack_time n now)).
      assert (players w2 !! tid = Some (player_apply_damage target damage).1)
        as Ht2.
      { unfold w2, w1, modify_npc, modify_player. simpl.
        rewrite lookup_alter, decide_True by done. by rewrite Htarget. }
      assert (npcs w2 !! iid = Some (npc_set_last_attack_time npc now)) as Hn2.
      { unfold w2, w1, modify_npc, modify_player. simpl.
        rewrite lookup_alter, decide_True by done. by rewrite Hnpc. }
      exists damage, (player_apply_damage target damage).1,
        (npc_set_last_attack_time npc now).
      split; [done|]. split; [done|]. split; [done|].
      split; [unfold player_apply_damage; simpl; by destruct (_ =? _)%Z|].
      split; [done|]. split; [done|].
      intros delta_time' now' d' Hsoon. unfold _update_npc_ai. rewrite Hn2.
      cbn [npc_hp npc_set_last_attack_time state].
      destruct (npc_hp npc <=? 0)%Z; [done|]. rewrite Hst.
      unfold _ai_attack. cbn [npc_target_id npc_set_last_attack_time].
      rewrite Htid. unfold get_player. rewrite Ht2.
      destruct (is_dead (player_apply_damage target damage).1); [done|].
      cbv zeta.
      match goal with |- context [distance_gt ?a ?b ?c] =>
        destruct (distance_gt a b c) end; [done|].
      cbn [npc_last_attack_time npc_set_last_attack_time].
      destruct (Qle_bool 2.0 (now' - now)) eqn:E; [|done].
      apply Qle_bool_iff in E. rewrite Etwo in E. lra.
    + exfalso. unfold calculate_damage in Hdmg. simpl in Hdmg.
      destruct (Qeq_bool _ _) eqn:E; [|done]. apply Qeq_bool_eq in E.
      apply Hdef.
      assert (inject_Z (defense target) == inject_Z (-100)) as H'
        by (change (inject_Z (-100)) with (-100); lra).
      unfold Qeq in H'. simpl in H'. lia.
Qed.

End npc_ai.

Section npc_ai_examples.
Import Constants Utils World Combat NpcAi.
Local Open Scope Q_scope.


Lemma strayed_invariant : world_indexed strayed ∧ npc_ids_ok strayed.
Proof.
  unfold strayed. eapply kept_invariant; [by apply modify_npc_placement|].
  apply update_npc_position_invariant.
  assert (world_indexed (world duel) ∧ npc_ids_ok (world duel)) as [Hi Hids].
  { split; [apply run_ops_indexed, init_indexed|].
    apply run_ops_npc_ids. split; [|done].
    intros ? ? H. simpl in H. by rewrite lookup_empty in H. }
  split; [by apply update_player_position_indexed|].
  by apply (apply_op_npc_ids (world duel) (UpdatePlayerPosition 1 165 0 100 0)).
Qed.

Lemma npc_leash_witness :
  ∃ npc', npcs (@_update_npc_ai unit_sqrt strayed 1 (1 # 10) 10 no_draws).1 !! 1%Z
          = Some npc' ∧
    npc_position npc' = (101, 0, 100) ∧ state npc' = Idle.
Proof.
  assert (∃ npc target, npcs strayed !! 1%Z = Some npc ∧
            players strayed !! 1%Z = Some target ∧
            spawn_position npc = (101, 0, 100) ∧
            (0 <? npc_hp npc)%Z = true ∧ state npc = Chasing ∧
            npc_target_id npc = Some 1%Z ∧ is_dead target = false ∧
            distance_gt (npc_position npc) (spawn_position npc) 50.0 = true)
    as (npc & target & Hn & Ht & Hs & Hhp & Hst & Htid & Hal & Hfar)
    by (vm_compute; eauto 12).
  destruct (@npc_leash unit_sqrt strayed 1 npc 1 target (1 # 10) 10 no_draws)
    as (npc' & Hn' & Hpos & _ & Hidle & _); try done.
  - apply strayed_invariant.
  - apply strayed_invariant.
  - by apply Z.ltb_lt.
  - exists npc'. split; [exact Hn'|]. split; [|exact Hidle].
    rewrite Hpos, Hs. reflexivity.
Defined.

Lemma npc_attacks_two_seconds_apart_witness :
  (@_update_npc_ai unit_sqrt engaged 1 (1 # 10) 1 no_draws).1 = engaged.
Proof.
  assert (∃ npc target, npcs engaged !! 1%Z = Some npc ∧
            players engaged !! 1%Z = Some target ∧
            (0 <? npc_hp npc)%Z = true ∧ state npc = Attacking ∧
            npc_target_id npc = Some 1%Z ∧ is_dead target = false ∧
            distance_le (npc_position npc) (position target) 2.5 = true ∧
            npc_last_attack_time npc = 0.0)
    as (npc & target & Hn & Ht & Hhp & Hst & Htid & Hal & Hnear & Hlast)
    by (vm_compute; eauto 12).
  destruct (@npc_attacks_two_seconds_apart unit_sqrt engaged 1 npc 1 target (1 # 10) 1
              no_draws Hn) as [_ H].
  destruct H as [Hsoon _]; [by apply Z.ltb_lt|done..|].
  apply Hsoon. rewrite Hlast. reflexivity.
Defined.

End npc_ai_examples.
